(** * pytype: the conversion engine ([convert.py]) and the operator, call,
    unpacking and frame-running parts of the virtual machine ([vm.py]).

    The development is a shallow embedding.  [convert.py] is embedded in
    [Module convert]: the memoising wrapper [constant_to_value] is a fuelled
    interpreter for the re-entrant construction programs that
    [_constant_to_value] and [constant_to_var] describe.  [vm.py] is embedded
    in [Module vm]. *)

From stdpp Require Import base list strings gmap.
From Stdlib Require Import ZArith Lia.

Set Warnings "-register-all".

Open Scope Z_scope.
Open Scope string_scope.
Open Scope nat_scope.
Open Scope list_scope.

(** A leaf of a decidable-equality proof. *)
Ltac eq_dec_leaf :=
  solve [ apply String.string_dec | apply Z.eq_dec | apply Nat.eq_dec
        | apply Bool.bool_dec | decide equality ].

(** ** Declared types ([pytd]) as the converter reads them *)

Module pytd.

(** [TupleType] and [CallableType] are subclasses of [GenericType]; the
    kind records which class a generic node is an instance of. *)
Inductive generic_kind := PlainGeneric | TupleKind | CallableKind.

(** The type nodes.  [ClassType name] carries a pointer [cls] to the class
    it names; the pointer is resolved through the loader's class table (see
    [convert.Loader]), which is what lets declarations be cyclic. *)
Inductive Type_ : Type :=
| ClassType (name : string)
| NothingType
| AnythingType
| FunctionType (name : string)
| UnionType (type_list : list Type_)
| TypeParameter (name : string) (constraints : list Type_)
                (bound : option Type_)
| GenericType (kind : generic_kind) (base_type : string)
              (parameters : list Type_).

Fixpoint Type_eq_dec (x y : Type_) {struct x} : {x = y} + {x <> y}.
Proof.
  decide equality;
    try (apply List.list_eq_dec; exact Type_eq_dec); try eq_dec_leaf.
Defined.

(** A class declaration: its qualified name, its parents and the names of
    its template items. *)
Record Class := mkClass {
  name : string;
  parents : list Type_;
  template : list string;
}.

Lemma Class_eq_dec (x y : Class) : {x = y} + {x <> y}.
Proof.
  decide equality; try eq_dec_leaf;
    apply List.list_eq_dec; first [apply String.string_dec | apply Type_eq_dec].
Defined.

(** A function declaration.  [ExternalFunction] is a subclass of
    [Function]: [external] marks its instances.  Signatures are opaque to
    the converter and stand as numbers. *)
Record Function := mkFunction {
  fname : string;
  signatures : list nat;
  kind : string;
  is_abstract : bool;
  external : bool;
}.

Lemma Function_eq_dec (x y : Function) : {x = y} + {x <> y}.
Proof.
  decide equality; try eq_dec_leaf. apply List.list_eq_dec, Nat.eq_dec.
Defined.

(** [CallableType.args] and [CallableType.ret]: all parameters but the
    last, and the last. *)
Definition args (parameters : list Type_) : list Type_ :=
  removelast parameters.
Definition ret (parameters : list Type_) : Type_ :=
  List.last parameters AnythingType.

End pytd.

(** ** Python constants handed to the converter *)

(** The Python types [type(pyval)] can be. *)
Inductive pytype :=
| t_str | t_int | t_long | t_bool | t_float | t_complex | t_unicode
| t_object | t_NoneType | t_slice | t_CodeType | t_EllipsisType
| t_ClassType | t_super | t_type | t_tuple | t_OrderedCode
| t_TypeDeclUnit | t_Class | t_Function | t_ExternalFunction
| t_pytd_ClassType | t_NothingType | t_AnythingType | t_FunctionType
| t_UnionType | t_TypeParameter | t_GenericType | t_TupleType
| t_CallableType | t_Alias | t_Constant | t_AsInstance
| t_other (name : string).

Lemma pytype_eq_dec (x y : pytype) : {x = y} + {x <> y}.
Proof. decide equality; eq_dec_leaf. Defined.

(** The type objects that occur as constants ([int], [list],
    [types.FunctionType], ...): each is an instance of [type]. *)
Inductive type_object :=
| ty_int | ty_float | ty_str | ty_unicode | ty_object | ty_NoneType
| ty_complex | ty_bool | ty_slice | ty_CodeType | ty_EllipsisType
| ty_super | ty_long | ty_list | ty_set | ty_dict | ty_type | ty_tuple
| ty_ModuleType | ty_FunctionType | ty_GeneratorType.

Lemma type_object_eq_dec (x y : type_object) : {x = y} + {x <> y}.
Proof. decide equality. Defined.

(** The values [pyval] ranges over.  Floats and complex numbers are
    identified up to Python equality by a number.  An [AsInstance] wrapper is
    a plain object, compared by identity: [tag] is that identity. *)
Inductive PyVal : Type :=
| PyStr (s : string)
| PyInt (n : Z)
| PyLong (n : Z)
| PyBool (b : bool)
| PyFloat (x : Z)
| PyComplex (x : Z)
| PyUnicode (s : string)
| PyNone
| PyEllipsis
| PySlice (id : nat)
| PyObject (id : nat)
| PyOldStyleClass (cname : string)
| PyCode (id : nat)       (* a [blocks.OrderedCode] or [loadmarshal.CodeType] *)
| PyTypeObject (t : type_object)
| TypeDeclUnit (uname : string)
               (constants type_params classes functions aliases : list PyVal)
| Class (c : pytd.Class)
| Function (f : pytd.Function)
| Type_ (t : pytd.Type_)
| Alias (aname : string) (type_ : PyVal)
| Constant (cname : string) (type_ : pytd.Type_)
| AsInstance (tag : nat) (cls : PyVal)
| PyTuple (items : list PyVal)
| PyOther (type_name : string) (id : nat).

Fixpoint PyVal_eq_dec (x y : PyVal) {struct x} : {x = y} + {x <> y}.
Proof.
  decide equality;
    try apply pytd.Type_eq_dec; try apply pytd.Class_eq_dec;
    try apply pytd.Function_eq_dec; try apply type_object_eq_dec;
    try (apply List.list_eq_dec; exact PyVal_eq_dec); try eq_dec_leaf.
Defined.

(** [type(pyval)]. *)
Definition type_of (pyval : PyVal) : pytype :=
  match pyval with
  | PyStr _ => t_str
  | PyInt _ => t_int
  | PyLong _ => t_long
  | PyBool _ => t_bool
  | PyFloat _ => t_float
  | PyComplex _ => t_complex
  | PyUnicode _ => t_unicode
  | PyNone => t_NoneType
  | PyEllipsis => t_EllipsisType
  | PySlice _ => t_slice
  | PyObject _ => t_object
  | PyOldStyleClass _ => t_ClassType
  | PyCode _ => t_OrderedCode
  | PyTypeObject _ => t_type
  | TypeDeclUnit _ _ _ _ _ _ => t_TypeDeclUnit
  | Class _ => t_Class
  | Function f => if pytd.external f then t_ExternalFunction else t_Function
  | Type_ (pytd.ClassType _) => t_pytd_ClassType
  | Type_ pytd.NothingType => t_NothingType
  | Type_ pytd.AnythingType => t_AnythingType
  | Type_ (pytd.FunctionType _) => t_FunctionType
  | Type_ (pytd.UnionType _) => t_UnionType
  | Type_ (pytd.TypeParameter _ _ _) => t_TypeParameter
  | Type_ (pytd.GenericType pytd.PlainGeneric _ _) => t_GenericType
  | Type_ (pytd.GenericType pytd.TupleKind _ _) => t_TupleType
  | Type_ (pytd.GenericType pytd.CallableKind _ _) => t_CallableType
  | Alias _ _ => t_Alias
  | Constant _ _ => t_Constant
  | AsInstance _ _ => t_AsInstance
  | PyTuple _ => t_tuple
  | PyOther n _ => t_other n
  end.

(** [hasattr(pyval, "name")] and [pyval.name]: the declaration nodes with a
    [name] field. *)
Definition pyval_name (pyval : PyVal) : option string :=
  match pyval with
  | TypeDeclUnit n _ _ _ _ _ => Some n
  | Class c => Some (pytd.name c)
  | Function f => Some (pytd.fname f)
  | Type_ (pytd.ClassType n) => Some n
  | Type_ (pytd.FunctionType n) => Some n
  | Type_ (pytd.TypeParameter n _ _) => Some n
  | Type_ (pytd.GenericType _ n _) => Some n
  | Alias n _ => Some n
  | Constant n _ => Some n
  | _ => None
  end.

(** [cls.__name__] of the Python types. *)
Definition pytype_name (t : pytype) : string :=
  match t with
  | t_str => "str" | t_int => "int" | t_long => "long" | t_bool => "bool"
  | t_float => "float" | t_complex => "complex" | t_unicode => "unicode"
  | t_object => "object" | t_NoneType => "NoneType" | t_slice => "slice"
  | t_CodeType => "code" | t_EllipsisType => "ellipsis"
  | t_ClassType => "classobj" | t_super => "super" | t_type => "type"
  | t_tuple => "tuple" | t_OrderedCode => "OrderedCode"
  | t_TypeDeclUnit => "TypeDeclUnit"
  | t_Class => "Class" | t_Function => "Function"
  | t_ExternalFunction => "ExternalFunction"
  | t_pytd_ClassType => "ClassType" | t_NothingType => "NothingType"
  | t_AnythingType => "AnythingType" | t_FunctionType => "FunctionType"
  | t_UnionType => "UnionType" | t_TypeParameter => "TypeParameter"
  | t_GenericType => "GenericType" | t_TupleType => "TupleType"
  | t_CallableType => "CallableType" | t_Alias => "Alias"
  | t_Constant => "Constant" | t_AsInstance => "AsInstance"
  | t_other n => n
  end.

(** [__name__] of a type object, as [_constant_to_value] appends it to
    ["__builtin__."]. *)
Definition type_object_name (t : type_object) : string :=
  match t with
  | ty_int => "int" | ty_float => "float" | ty_str => "str"
  | ty_unicode => "unicode" | ty_object => "object"
  | ty_NoneType => "NoneType" | ty_complex => "complex" | ty_bool => "bool"
  | ty_slice => "slice" | ty_CodeType => "code"
  | ty_EllipsisType => "ellipsis" | ty_super => "super" | ty_long => "long"
  | ty_list => "list" | ty_set => "set" | ty_dict => "dict"
  | ty_type => "type" | ty_tuple => "tuple" | ty_ModuleType => "module"
  | ty_FunctionType => "function" | ty_GeneratorType => "generator"
  end.

(** ** String splitting used on qualified names *)

Definition dot : Ascii.ascii := Ascii.Ascii false true true true false true false false.

(** [s.partition(".")]: the text before the first dot, and after it; the
    flag tells whether a dot was found. *)
Fixpoint partition_dot (s : string) : string * bool * string :=
  match s with
  | EmptyString => (EmptyString, false, EmptyString)
  | String c rest =>
      if Ascii.eqb c dot then (EmptyString, true, rest)
      else let '(a, found, b) := partition_dot rest in (String c a, found, b)
  end.

(** [s.rpartition(".")]: the text before the last dot, and after it; without
    a dot the whole string is in the last component. *)
Fixpoint rpartition_dot (s : string) : string * bool * string :=
  match s with
  | EmptyString => (EmptyString, false, EmptyString)
  | String c rest =>
      let '(a, found, b) := rpartition_dot rest in
      if found then (String c a, true, b)
      else if Ascii.eqb c dot then (EmptyString, true, rest)
      else (EmptyString, false, String c b)
  end.

(** ** Abstract values ([abstract.py]) *)

Module abstract.

(** A node of the control-flow graph. *)
Definition cfg_node := nat.

(** A key of a type-parameter mapping: a tuple position or a name. *)
Inductive param_name := PIndex (i : nat) | PName (s : string).

Lemma param_name_eq_dec (x y : param_name) : {x = y} + {x <> y}.
Proof. decide equality; eq_dec_leaf. Defined.

Definition T := PName "T".
Definition K := PName "K".
Definition V := PName "V".
Definition ARGS := PName "ARGS".
Definition RET := PName "RET".

(** Modelled from the spec: [abstract.py] is not among the sources.  A
    value is an object: an identity [oid] and the data its constructor
    stored.  The constructors are those [convert.py] calls.  A [variable] is
    a set of bindings, each a value with its provenance and the node where
    it became valid.  A [lazy_item] is an entry of a [utils.LazyDict]:
    either the arguments of a pending [constant_to_value] call or its
    value. *)
Inductive value : Type :=
| Obj (oid : nat) (d : desc)
with desc : Type :=
| AbstractOrConcreteValue (pyval : PyVal) (cls : value)
| Instance (cls : value) (type_parameters : list (param_name * variable))
| Tuple (content : list variable)
| List (content : list variable)
| Dict
| Iterator (return_var : variable)
| PyTDClass (name : string) (pytd_cls : pytd.Class) (module : option string)
| ParameterizedClass (kind : pytd.generic_kind) (base_cls : value)
                     (type_parameters : list (param_name * lazy_item))
| Union (options : list value)
| TypeParameter (name : string) (constraints : list value)
                (bound : option value)
| PyTDFunction (type_new : bool) (name : string)
               (signatures : list (string * nat)) (kind : string)
               (is_abstract : bool)
| Module_ (name : string) (members : list (string * PyVal))
| Unknown
| Unsolvable
| Nothing
| Empty
| Super
| Object
with variable : Type :=
| mkVariable (bindings : list binding)
with binding : Type :=
| Binding (data : value) (source_set : list binding) (where_ : cfg_node)
with lazy_item : Type :=
| LazyItem (pyval : PyVal) (subst : list (string * variable))
           (node : cfg_node)
| Item (v : value).

Definition oid (v : value) : nat := let 'Obj n _ := v in n.
Definition desc_of (v : value) : desc := let 'Obj _ d := v in d.
Definition bindings (var : variable) : list binding :=
  let 'mkVariable bs := var in bs.
Definition binding_data (b : binding) : value :=
  let 'Binding d _ _ := b in d.

(** [var.data]: the values of the bindings. *)
Definition data (var : variable) : list value :=
  map binding_data (bindings var).

(** [value.to_variable(node)]: a new variable with one binding. *)
Definition to_variable (v : value) (node : cfg_node) : variable :=
  mkVariable [Binding v [] node].

(** [isinstance(v, abstract.Class)]. *)
Definition is_Class (v : value) : bool :=
  match desc_of v with
  | PyTDClass _ _ _ | ParameterizedClass _ _ _ => true
  | _ => false
  end.

(** [cls.pytd_cls], an attribute of declared classes only. *)
Definition pytd_cls_of (v : value) : option pytd.Class :=
  match desc_of v with
  | PyTDClass _ c _ => Some c
  | _ => None
  end.

End abstract.

(** ** Variables of the graph store ([cfg.py]) *)

Module cfg.

Import abstract.

(** Modelled from the spec: [cfg.py] is not among the sources.  A variable
    is a set of bindings, each a value with its provenance and the node
    where it became valid; bindings are only ever added.
    [var.AddBinding(data, source_set, where)]: data already bound gets no
    second binding. *)
Definition AddBinding (var : variable) (d : value)
    (source_set : list binding) (where_ : cfg_node) : variable :=
  if existsb (fun b => Nat.eqb (oid (binding_data b)) (oid d))
             (bindings var)
  then var
  else mkVariable (bindings var ++ [Binding d source_set where_]).

(** [program.NewVariable(bindings, source_set, where)] *)
Definition NewVariable (ds : list value) (source_set : list binding)
    (where_ : cfg_node) : variable :=
  fold_left (fun var d => AddBinding var d source_set where_) ds
            (mkVariable []).

Definition binding_sources (b : binding) : list binding :=
  let 'Binding _ s _ := b in s.
Definition binding_where (b : binding) : cfg_node :=
  let 'Binding _ _ w := b in w.

(** [var.PasteVariable(other, where, additional_sources)]: every binding
    of [other] is added; with [where] the pasted binding is the source of
    the new one, without it the new one keeps the origin of the pasted
    one. *)
Definition PasteVariable (var other : variable) (where_ : option cfg_node)
    (additional_sources : list binding) : variable :=
  fold_left
    (fun var b =>
       match where_ with
       | Some w => AddBinding var (binding_data b) (b :: additional_sources) w
       | None => AddBinding var (binding_data b) (binding_sources b)
                            (binding_where b)
       end)
    (bindings other) var.

(** [binding.AssignToNewVariable(where)]: a new variable with one binding
    of the same data; without [where] the binding keeps the origin of [b],
    with it the origin is [b] at [where]. *)
Definition AssignToNewVariable (b : binding) (where_ : option cfg_node)
    : variable :=
  match where_ with
  | None => mkVariable [b]
  | Some w => mkVariable [Binding (binding_data b) [b] w]
  end.

Lemma AddBinding_empty d source_set where_ :
  AddBinding (mkVariable []) d source_set where_
  = mkVariable [Binding d source_set where_].
Proof. reflexivity. Qed.

Lemma AddBinding_nonempty var d source_set where_ :
  bindings (AddBinding var d source_set where_) <> [].
Proof.
  unfold AddBinding. destruct (existsb _ _) eqn:H.
  - intros E. rewrite E in H. discriminate H.
  - simpl. by destruct (bindings var).
Qed.

End cfg.

(** ** The conversion engine ([convert.py]) *)

Module convert.

Import abstract cfg.

Definition MAX_IMPORT_DEPTH : Z := 12.

(** The current type parameters: a dict from names to variables.  [None]
    and the empty dict are used alike ([not subst or name not in subst]). *)
Definition Subst := list (string * variable).

Definition subst_lookup (subst : Subst) (name : string) : option variable :=
  snd <$> List.find (fun p => String.eqb (fst p) name) subst.

(** The primitive Python types [Converter.__init__] lists. *)
Inductive prim :=
| p_int | p_float | p_str | p_unicode | p_object | p_NoneType | p_complex
| p_bool | p_slice | p_CodeType | p_EllipsisType | p_ClassType | p_super.

Lemma prim_eq_dec (x y : prim) : {x = y} + {x <> y}.
Proof. decide equality. Defined.

Definition all_prims : list prim :=
  [p_int; p_float; p_str; p_unicode; p_object; p_NoneType; p_complex;
   p_bool; p_slice; p_CodeType; p_EllipsisType; p_ClassType; p_super].

(** [pyval.__class__ in self.primitive_classes], with the class found. *)
Definition prim_of_type (t : pytype) : option prim :=
  match t with
  | t_int => Some p_int | t_float => Some p_float | t_str => Some p_str
  | t_unicode => Some p_unicode | t_object => Some p_object
  | t_NoneType => Some p_NoneType | t_complex => Some p_complex
  | t_bool => Some p_bool | t_slice => Some p_slice
  | t_CodeType => Some p_CodeType | t_EllipsisType => Some p_EllipsisType
  | t_ClassType => Some p_ClassType | t_super => Some p_super
  | _ => None
  end.

(** Messages sent to the error log. *)
Inductive error :=
| recursion_error (name : string)
| mro_error (name : string) (mro_seqs : list (list string)).

(** Exceptions the converter raises. *)
Inductive exn :=
| TypeParameterError (type_param_name : string)
| NotImplementedError (t : pytype)
| KeyError (name : string)
| AttributeError (name : string)
| AssertionError (msg : string)
| ValueError (msg : string)
| IndexError.

(** The three shapes of key of [_convert_cache]:
    [("constant", pyval, type(pyval))], [(abstract.Instance, cls)] and
    [("unknown", opcode, action)].  Tuples of different shapes are never
    equal, so the dict is the product of three maps.  In the first, the
    value [None] is the recursion sentinel: [Some None] is a key holding
    it, [None] an absent key. *)
Definition constant_key : Type := PyVal * pytype.
Inductive aux_key :=
| InstanceKey (cls : pytd.Class)
| UnknownKey (opcode : nat) (action : string).

Lemma constant_key_eq_dec (x y : constant_key) : {x = y} + {x <> y}.
Proof. decide equality; [apply pytype_eq_dec | apply PyVal_eq_dec]. Defined.

Lemma aux_key_eq_dec (x y : aux_key) : {x = y} + {x <> y}.
Proof. decide equality; try eq_dec_leaf. apply pytd.Class_eq_dec. Defined.

Arguments constant_key_eq_dec : simpl never.
Arguments aux_key_eq_dec : simpl never.

(** A dict kept as the list of its items, the latest first: an
    assignment puts its item in front, and a lookup takes the first item
    of the key. *)
Fixpoint lookup {Key V : Type} (eq_dec : forall x y : Key, {x = y} + {x <> y})
    (k : Key) (items : list (Key * V)) : option V :=
  match items with
  | [] => None
  | (k', v) :: rest =>
      if eq_dec k k' then Some v else lookup eq_dec k rest
  end.

Record state := mkState {
  constant_items : list (constant_key * option value);
  other_items : list (aux_key * value);
  next_id : nat;
  errorlog : list error;
}.

(** [self._convert_cache.get(key)] on the two kinds of key. *)
Definition constants (st : state) (key : constant_key)
    : option (option value) :=
  lookup constant_key_eq_dec key (constant_items st).

Definition others (st : state) (key : aux_key) : option value :=
  lookup aux_key_eq_dec key (other_items st).

(** [self._convert_cache[key] = entry] on a constant key. *)
Definition set_constant (key : constant_key) (entry : option value)
    (st : state) : state :=
  mkState ((key, entry) :: constant_items st) (other_items st)
          (next_id st) (errorlog st).

Definition set_other (key : aux_key) (v : value) (st : state) : state :=
  mkState (constant_items st) ((key, v) :: other_items st)
          (next_id st) (errorlog st).

Definition report (e : error) (st : state) : state :=
  mkState (constant_items st) (other_items st) (next_id st)
          (errorlog st ++ [e]).

(** A fresh object identity. *)
Definition bump (st : state) : state :=
  mkState (constant_items st) (other_items st) (S (next_id st))
          (errorlog st).

Lemma constants_set_constant key entry st k :
  constants (set_constant key entry st) k
  = if constant_key_eq_dec k key then Some entry else constants st k.
Proof. reflexivity. Qed.

Lemma constants_set_other key v st k :
  constants (set_other key v st) k = constants st k.
Proof. reflexivity. Qed.

Lemma constants_report e st k : constants (report e st) k = constants st k.
Proof. reflexivity. Qed.

Lemma constants_bump st k : constants (bump st) k = constants st k.
Proof. reflexivity. Qed.

Lemma others_set_other key v st k :
  others (set_other key v st) k
  = if aux_key_eq_dec k key then Some v else others st k.
Proof. reflexivity. Qed.

Lemma others_set_constant key entry st k :
  others (set_constant key entry st) k = others st k.
Proof. reflexivity. Qed.

Lemma others_report e st k : others (report e st) k = others st k.
Proof. reflexivity. Qed.

Lemma others_bump st k : others (bump st) k = others st k.
Proof. reflexivity. Qed.

(** Reading the cache after the state changed. *)
Ltac cache :=
  rewrite ?constants_set_constant, ?constants_set_other, ?constants_report,
    ?constants_bump, ?others_set_other, ?others_set_constant,
    ?others_report, ?others_bump.


Arguments constants : simpl never.
Arguments others : simpl never.

(** The key of a constant. *)
Definition key_of (pyval : PyVal) : constant_key := (pyval, type_of pyval).

(** [pyval.name if hasattr(pyval, "name") else pyval.__class__.__name__] *)
Definition error_name (pyval : PyVal) : string :=
  match pyval_name pyval with
  | Some n => n
  | None => pytype_name (type_of pyval)
  end.

(** *** Construction programs

    [_constant_to_value] re-enters [constant_to_value], calls the [get_node]
    closure, constructs objects, and reads and fills the auxiliary cache
    keys.  A program is the tree of these operations; the code of
    [abstract.py] it calls into is a program of the same kind.

    [GetOrCreate key create k] is
    [if key not in cache: cache[key] = create(); v = cache[key]]. *)
Inductive prog (A : Type) : Type :=
| Ret (a : A)
| Raise (e : exn)
| GetNode (k : cfg_node -> prog A)
| ConstantToValue (pyval : PyVal) (subst : Subst) (node : cfg_node)
                  (k : value -> prog A)
| NewObject (d : desc) (k : value -> prog A)
| NewAsInstance (cls : PyVal) (k : PyVal -> prog A)
| GetOrCreate (key : aux_key) (create : prog value) (k : value -> prog A)
| Report (e : error) (k : prog A).

Arguments Ret {A} a.
Arguments Raise {A} e.
Arguments GetNode {A} k.
Arguments ConstantToValue {A} pyval subst node k.
Arguments NewObject {A} d k.
Arguments NewAsInstance {A} cls k.
Arguments GetOrCreate {A} key create k.
Arguments Report {A} e k.

Fixpoint bind {A B : Type} (m : prog A) (f : A -> prog B) : prog B :=
  match m with
  | Ret a => f a
  | Raise e => Raise e
  | GetNode k => GetNode (fun n => bind (k n) f)
  | ConstantToValue p s n k => ConstantToValue p s n (fun v => bind (k v) f)
  | NewObject d k => NewObject d (fun v => bind (k v) f)
  | NewAsInstance c k => NewAsInstance c (fun v => bind (k v) f)
  | GetOrCreate key create k =>
      GetOrCreate key create (fun v => bind (k v) f)
  | Report e k => Report e (bind k f)
  end.

Notation "'do' x <- m ; f" := (bind m (fun x => f))
  (at level 10, x binder, m at level 100, f at level 200).

(** [[f(x) for x in xs]], evaluated left to right. *)
Fixpoint mapM {A B : Type} (f : A -> prog B) (xs : list A) : prog (list B) :=
  match xs with
  | [] => Ret []
  | x :: xs' => do y <- f x; do ys <- mapM f xs'; Ret (y :: ys)
  end.

Definition get_node : prog cfg_node := GetNode Ret.
Definition call_constant_to_value (pyval : PyVal) (subst : Subst)
    (node : cfg_node) : prog value :=
  ConstantToValue pyval subst node Ret.
Definition new (d : desc) : prog value := NewObject d Ret.
Definition AsInstance_ (cls : PyVal) : prog PyVal := NewAsInstance cls Ret.

(** How a run ends: with a result, with an exception (the state changes
    made so far stay), or with the fuel of the model used up. *)
Inductive outcome (A : Type) : Type :=
| Done (a : A) (st : state)
| Raised (e : exn) (st : state)
| OutOfFuel.

Arguments Done {A} a st.
Arguments Raised {A} e st.
Arguments OutOfFuel {A}.

(** Running a program inside one call of [constant_to_value]: [node] is
    that call's node, [need] its [need_node[0]] flag, [call] what a
    re-entrant [constant_to_value] does. *)
Fixpoint exec {A : Type}
    (call : PyVal -> Subst -> cfg_node -> state -> outcome value)
    (node : cfg_node) (m : prog A) (need : bool) (st : state)
    {struct m} : outcome (A * bool) :=
  match m with
  | Ret a => Done (a, need) st
  | Raise e => Raised e st
  | GetNode k => exec call node (k node) true st
  | ConstantToValue p s n k =>
      match call p s n st with
      | Done v st' => exec call node (k v) need st'
      | Raised e st' => Raised e st'
      | OutOfFuel => OutOfFuel
      end
  | NewObject d k => exec call node (k (Obj (next_id st) d)) need (bump st)
  | NewAsInstance c k =>
      exec call node (k (AsInstance (next_id st) c)) need (bump st)
  | GetOrCreate key create k =>
      match others st key with
      | Some v => exec call node (k v) need st
      | None =>
          match exec call node create need st with
          | Done (v, need') st' =>
              exec call node (k v) need' (set_other key v st')
          | Raised e st' => Raised e st'
          | OutOfFuel => OutOfFuel
          end
      end
  | Report e k => exec call node k need (report e st)
  end.

(** Whether the run of a program inside one call of [constant_to_value]
    calls that call's [get_node].  A re-entrant [constant_to_value] has a
    closure of its own: what it asks for is not counted here. *)
Fixpoint asks {A : Type}
    (call : PyVal -> Subst -> cfg_node -> state -> outcome value)
    (node : cfg_node) (m : prog A) (st : state) {struct m} : bool :=
  match m with
  | Ret _ | Raise _ => Datatypes.false
  | GetNode _ => Datatypes.true
  | ConstantToValue p s n k =>
      match call p s n st with
      | Done v st' => asks call node (k v) st'
      | _ => Datatypes.false
      end
  | NewObject d k => asks call node (k (Obj (next_id st) d)) (bump st)
  | NewAsInstance c k =>
      asks call node (k (AsInstance (next_id st) c)) (bump st)
  | GetOrCreate key create k =>
      match others st key with
      | Some v => asks call node (k v) st
      | None =>
          asks call node create st
          || match exec call node create Datatypes.false st with
             | Done (v, _) st' => asks call node (k v) (set_other key v st')
             | _ => Datatypes.false
             end
      end
  | Report e k => asks call node k (report e st)
  end.

(** The fields of the [Converter] and of its [vm] that conversion reads:
    they are set by [__init__] and not changed afterwards. *)
Record Converter := mkConverter {
  root_cfg_node : cfg_node;
  primitive_classes : prim -> value;
  none : value;
  true : value;
  false : value;
  ellipsis : value;
  primitive_class_instances : prim -> value;
  object_type : value;
  module_type : value;
  list_type : value;
  nothing : value;
  unsolvable : value;
  empty : value;
}.

Definition str_type (cv : Converter) := primitive_classes cv p_str.
Definition int_type (cv : Converter) := primitive_classes cv p_int.
Definition none_type (cv : Converter) := primitive_classes cv p_NoneType.

Section wrapper.

Variable cv : Converter.

(** The body [_constant_to_value pyval subst] run by the wrapper. *)
Variable body : PyVal -> Subst -> prog value.

(** [node or self.vm.root_cfg_node] *)
Definition or_root (node : option cfg_node) : cfg_node :=
  default (root_cfg_node cv) node.

(** [Converter.constant_to_value], lines 383-411. *)
Fixpoint constant_to_value (fuel : nat) (pyval : PyVal) (subst : Subst)
    (node : option cfg_node) (st : state) : outcome value :=
  match fuel with
  | O => OutOfFuel
  | S fuel' =>
      let node := or_root node in
      let key := key_of pyval in
      match constants st key with
      | Some None =>
          let st := report (recursion_error (error_name pyval)) st in
          Done (unsolvable cv) (set_constant key (Some (unsolvable cv)) st)
      | Some (Some v) => Done v st
      | None =>
          let st := set_constant key None st in
          match exec (fun p s n => constant_to_value fuel' p s (Some n))
                     node (body pyval subst) Datatypes.false st with
          | Done (value, need_node) st =>
              if negb need_node || Nat.eqb node (root_cfg_node cv)
              then Done value (set_constant key (Some value) st)
              else Done value st
          | Raised e st => Raised e st
          | OutOfFuel => OutOfFuel
          end
      end
  end.

End wrapper.

(** *** The code of other modules that conversion reaches

    None of it is among the sources; each piece is a parameter.  A
    constructor that may convert further declarations while it runs is a
    program. *)
Record Externals := mkExternals {
  (** [vm.lookup_builtin(name)]; [None] is a [KeyError]. *)
  lookup_builtin : string -> option PyVal;
  (** The [cls] pointer of [ClassType(name)]; [None] if unresolved. *)
  class_of : string -> option pytd.Class;
  (** The [function] field of [FunctionType(name)]. *)
  function_of : string -> pytd.Function;
  (** What [abstract.PyTDClass(name, cls, vm)] does before the object
      exists; [Some seqs] is a raised [MROError(seqs)]. *)
  PyTDClass_init : string -> pytd.Class -> prog (option (list (list string)));
  (** What [abstract.PyTDSignature(name, sig, vm)] does. *)
  PyTDSignature_init : string -> nat -> prog unit;
  (** [abstract.merge_values(values, vm)]. *)
  merge_values : list value -> prog value;
  (** [v.get_class().Data(node)], empty when there is no class. *)
  get_class_data : cfg_node -> value -> list value;
  (** [vm.frame.f_globals.members[name].data]; [None] is a [KeyError]. *)
  f_globals_data : string -> option (list value);
  (** [pyval is type_new]. *)
  is_type_new : pytd.Function -> bool;
  (** [pytd_utils.JoinTypes]. *)
  JoinTypes : list pytd.Type_ -> pytd.Type_;
  (** [vm.cache_unknowns]. *)
  cache_unknowns : bool;
  (** [vm.frame.current_opcode], [None] when there is no frame. *)
  frame_current_opcode : option nat;
}.

Section conversion.

Variable cv : Converter.
Variable ext : Externals.

Definition root := root_cfg_node cv.

(** [Converter.name_to_value] *)
Definition name_to_value (name : string) (subst : Subst) : prog value :=
  match lookup_builtin ext name with
  | None => Raise (KeyError name)
  | Some pytd_cls => call_constant_to_value pytd_cls subst root
  end.

(** [Converter.tuple_to_value] *)
Definition tuple_to_value (content : list variable) : prog value :=
  new (Tuple content).

(** [Converter._get_maybe_abstract_instance] *)
Definition _get_maybe_abstract_instance (d : value) : value :=
  match desc_of d with
  | AbstractOrConcreteValue pyval _ =>
      match prim_of_type (type_of pyval) with
      | Some p => primitive_class_instances cv p
      | None => d
      end
  | _ => d
  end.

(** [Converter._create_new_unknown_value] *)
Definition _create_new_unknown_value (action : string) : prog value :=
  match frame_current_opcode ext with
  | Some opcode =>
      if negb (cache_unknowns ext) || String.eqb action ""
      then new Unknown
      else GetOrCreate (UnknownKey opcode action) (new Unknown) Ret
  | None => new Unknown
  end.

(** [Converter.merge_classes] *)
Definition merge_classes (node : cfg_node) (instances : list value)
    : prog value :=
  let classes :=
    fold_left
      (fun acc c =>
         if existsb (fun c' => Nat.eqb (oid c') (oid c)) acc then acc
         else acc ++ [c])
      (concat (map (get_class_data ext node) instances)) [] in
  merge_values ext classes.

(** [pytd_utils.UnpackUnion] *)
Definition UnpackUnion (cls : PyVal) : list PyVal :=
  match cls with
  | Type_ (pytd.UnionType ts) => map Type_ ts
  | _ => [cls]
  end.

(** The [abstract.AsInstance] branch of [constant_to_var]. *)
Definition as_instance_to_var (cls : PyVal) (subst : Subst)
    (node : cfg_node) (source_sets : list (list binding))
    (discard_concrete_values : bool) : prog variable :=
  match cls with
  | Type_ pytd.AnythingType => Ret (to_variable (unsolvable cv) node)
  | _ =>
      (fix loop (ts : list PyVal) (var : variable) : prog variable :=
         match ts with
         | [] => Ret var
         | Type_ (pytd.TypeParameter name _ _) :: ts' =>
             match subst_lookup subst name with
             | None => Raise (TypeParameterError name)
             | Some sv =>
                 loop ts'
                   (fold_left
                      (fun var v =>
                         fold_left
                           (fun var source_set =>
                              AddBinding var
                                (if discard_concrete_values
                                 then _get_maybe_abstract_instance
                                        (binding_data v)
                                 else binding_data v)
                                (source_set ++ [v]) node)
                           source_sets var)
                      (bindings sv) var)
             end
         | Type_ pytd.NothingType :: ts' => loop ts' var
         | t :: ts' =>
             do wrapped <- AsInstance_ t;
             do value <- call_constant_to_value wrapped subst node;
             loop ts'
               (fold_left (fun var source_set =>
                             AddBinding var value source_set node)
                          source_sets var)
         end) (UnpackUnion cls) (mkVariable [])
  end.

(** [Converter.constant_to_var], lines 287-348.  The lines after
    [if result is not None] are not reached: [_constant_to_value] returns
    a value or raises. *)
Fixpoint constant_to_var (pyval : PyVal) (subst : Subst)
    (node : option cfg_node) (source_sets : list (list binding))
    (discard_concrete_values : bool) : prog variable :=
  let source_sets :=
    match source_sets with [] => [[]] | _ => source_sets end in
  let node' := default root node in
  match pyval with
  | Type_ (pytd.UnionType type_list) =>
      do options <-
        mapM (fun t => call_constant_to_value (Type_ t) subst node')
             type_list;
      Ret (NewVariable options [] root)
  | Type_ pytd.NothingType => Ret (NewVariable [] [] root)
  | Alias _ type_ =>
      constant_to_var type_ subst (Some node') source_sets
                      discard_concrete_values
  | AsInstance _ cls =>
      as_instance_to_var cls subst node' source_sets
                         discard_concrete_values
  | Constant _ type_ =>
      as_instance_to_var (Type_ type_) subst node' source_sets
                         discard_concrete_values
  | _ =>
      do result <- call_constant_to_value pyval subst node';
      Ret (to_variable result node')
  end.

(** [isinstance(pyval, int)] with the integer: [bool] is a subclass of
    [int], [long] is not. *)
Definition as_int (pyval : PyVal) : option Z :=
  match pyval with
  | PyInt n => Some n
  | PyBool b => Some (if b then 1%Z else 0%Z)
  | _ => None
  end.

(** Modelled from the spec: [instance.initialize_type_parameter(node,
    name, var)] of [abstract.py] records [var] under [name]. *)
Definition initialize_type_parameter (inst : value) (node : cfg_node)
    (name : param_name) (var : variable) : value :=
  match inst with
  | Obj n (Instance cls tps) => Obj n (Instance cls (tps ++ [(name, var)]))
  | _ => inst
  end.

(** Modelled from the spec: [instance.make_template_unsolvable(template,
    node)] of [abstract.py] gives every template item a wildcard. *)
Definition make_template_unsolvable (inst : value)
    (template : list string) (node : cfg_node) : value :=
  fold_left
    (fun inst name =>
       initialize_type_parameter inst node (PName name)
                                 (to_variable (unsolvable cv) node))
    template inst.

(** [d[k] = v] on a dict kept as a list of items. *)
Definition dict_set {B : Type} (k : string) (v : B)
    (d : list (string * B)) : list (string * B) :=
  if existsb (fun p => String.eqb (fst p) k) d
  then map (fun p => if String.eqb (fst p) k then (k, v) else p) d
  else d ++ [(k, v)].

(** [{val.name.rsplit(".")[-1]: val for val in data}] *)
Fixpoint module_members (vals : list PyVal)
    (members : list (string * PyVal)) : prog (list (string * PyVal)) :=
  match vals with
  | [] => Ret members
  | val :: vals' =>
      match pyval_name val with
      | None => Raise (AttributeError "name")
      | Some n =>
          module_members vals'
            (dict_set (snd (rpartition_dot n)) val members)
      end
  end.

(** The [utils.LazyDict] of type parameters built at lines 591-598. *)
Definition lazy_type_parameters (template : list param_name)
    (parameters : list PyVal) (subst : Subst)
    : list (param_name * lazy_item) :=
  imap (fun i name =>
          (name, match parameters !! i with
                 | Some p => LazyItem p subst root
                 | None => Item (unsolvable cv)
                 end))
       template.

(** The [abstract.AsInstance] branch of [_constant_to_value],
    lines 520-569. *)
Definition as_instance_to_value (cls : PyVal) (subst : Subst)
    : prog value :=
  let cls :=
    match cls with
    | Type_ (pytd.ClassType n) =>
        match class_of ext n with Some c => Class c | None => PyNone end
    | _ => cls
    end in
  match cls with
  | Class c =>
      GetOrCreate (InstanceKey c)
        (if String.eqb (pytd.name c) "__builtin__.type"
            || String.eqb (pytd.name c) "__builtin__.property"
         then _create_new_unknown_value "type"
         else
           do mycls <- call_constant_to_value cls subst root;
           do instance <- new (Instance mycls []);
           Ret (make_template_unsolvable instance (pytd.template c) root))
        Ret
  | Type_ (pytd.GenericType kind base parameters) =>
      match class_of ext base with
      | None => Raise (AttributeError "name")
      | Some base_cls =>
          if String.eqb (pytd.name base_cls) "__builtin__.type" then
            match parameters with
            | [pytd.TypeParameter name _ _] =>
                match subst_lookup subst name with
                | None => Raise (TypeParameterError name)
                | Some sv =>
                    do node <- get_node;
                    merge_classes node (data sv)
                end
            | [c] => call_constant_to_value (Type_ c) subst root
            | _ => Raise (ValueError "unpack")
            end
          else
            match kind with
            | pytd.TupleKind =>
                do content <-
                  mapM (fun p =>
                          do wrapped <- AsInstance_ (Type_ p);
                          do node <- get_node;
                          constant_to_var wrapped subst (Some node) []
                                          Datatypes.false)
                       parameters;
                new (Tuple content)
            | pytd.CallableKind =>
                do clsval <- call_constant_to_value cls subst root;
                new (Instance clsval [])
            | pytd.PlainGeneric =>
                do clsval <-
                  call_constant_to_value (Class base_cls) subst root;
                do instance <- new (Instance clsval []);
                if Nat.leb (length parameters)
                           (length (pytd.template base_cls))
                then
                  (fix loop (items : list (string * pytd.Type_))
                       (instance : value) : prog value :=
                     match items with
                     | [] => Ret instance
                     | (formal, actual) :: items' =>
                         do wrapped <- AsInstance_ (Type_ actual);
                         do p <- constant_to_var wrapped subst (Some root)
                                                 [] Datatypes.false;
                         do node <- get_node;
                         loop items'
                           (initialize_type_parameter instance node
                                                      (PName formal) p)
                     end)
                    (combine (pytd.template base_cls) parameters) instance
                else Raise (AssertionError "parameters")
            end
      end
  | _ => call_constant_to_value cls subst root
  end.

(** The [pytd.GenericType] branch of [_constant_to_value],
    lines 570-599. *)
Definition generic_to_value (kind : pytd.generic_kind) (base : string)
    (parameters : list pytd.Type_) (subst : Subst) : prog value :=
  do base_cls <-
    call_constant_to_value
      (match class_of ext base with Some c => Class c | None => PyNone end)
      subst root;
  if negb (is_Class base_cls) then Ret (unsolvable cv)
  else
    let build template params :=
      if String.eqb base "typing.Generic"
         || Nat.leb (length params) (length template)
      then new (ParameterizedClass kind base_cls
                  (lazy_type_parameters template params subst))
      else Raise (AssertionError "parameters") in
    match kind with
    | pytd.TupleKind =>
        build (map PIndex (seq 0 (length parameters)) ++ [T])
              (map Type_ parameters
                 ++ [Type_ (pytd.UnionType parameters)])
    | pytd.CallableKind =>
        let args := pytd.args parameters in
        build (map PIndex (seq 0 (length args)) ++ [ARGS; RET])
              (map Type_ args
                 ++ [Type_ (JoinTypes ext args);
                     Type_ (pytd.ret parameters)])
    | pytd.PlainGeneric =>
        match class_of ext base with
        | None => Raise (AttributeError "template")
        | Some c =>
            build (map PName (pytd.template c)) (map Type_ parameters)
        end
    end.

(** [Converter._constant_to_value], lines 429-606, one branch of the
    [if]/[elif] chain after the other. *)
Definition _constant_to_value (pyval : PyVal) (subst : Subst)
    : prog value :=
  match pyval, as_int pyval, prim_of_type (type_of pyval) with
  | PyStr _, _, _ =>
      new (AbstractOrConcreteValue pyval (str_type cv))
  | _, Some n, Some p =>
      if Z.leb (-1) n && Z.leb n MAX_IMPORT_DEPTH
      then new (AbstractOrConcreteValue pyval (int_type cv))
      else Ret (primitive_class_instances cv p)
  | PyLong _, _, _ => Ret (primitive_class_instances cv p_int)
  | _, _, Some p => Ret (primitive_class_instances cv p)
  | PyCode _, _, _ =>
      new (AbstractOrConcreteValue pyval (primitive_classes cv p_CodeType))
  | PyTypeObject ty_super, _, _ => new Super
  | PyTypeObject ty_object, _, _ => new Object
  | PyTypeObject t, _, _ =>
      name_to_value
        (match t with
         | ty_FunctionType => "typing.Callable"
         | _ => String.append "__builtin__." (type_object_name t)
         end) subst
  | TypeDeclUnit uname constants type_params classes functions aliases,
    _, _ =>
      do members <-
        module_members
          (constants ++ type_params ++ classes ++ functions ++ aliases) [];
      new (Module_ uname members)
  | Class c, _, _ =>
      if String.eqb (pytd.name c) "__builtin__.super"
      then Ret (primitive_classes cv p_super)
      else if String.eqb (pytd.name c) "__builtin__.object"
      then Ret (object_type cv)
      else if String.eqb (pytd.name c) "types.ModuleType"
      then Ret (module_type cv)
      else
        let '(module, found, base_name) := rpartition_dot (pytd.name c) in
        do failed <- PyTDClass_init ext base_name c;
        match failed with
        | Some mro_seqs =>
            Report (mro_error base_name mro_seqs) (Ret (unsolvable cv))
        | None =>
            new (PyTDClass base_name c
                           (if found then Some module else None))
        end
  | Function f, _, _ =>
      if pytd.external f then
        let '(module, _, name) := partition_dot (pytd.fname f) in
        if String.eqb module "__builtin__" then
          match f_globals_data ext name with
          | None => Raise (KeyError name)
          | Some ds => merge_values ext ds
          end
        else Raise (AssertionError "PYTHONCODE allowed only in __builtin__")
      else
        do signatures <-
          mapM (fun sig =>
                  do _ <- PyTDSignature_init ext (pytd.fname f) sig;
                  Ret (pytd.fname f, sig))
               (pytd.signatures f);
        new (PyTDFunction (is_type_new ext f) (pytd.fname f) signatures
                          (pytd.kind f) (pytd.is_abstract f))
  | Type_ (pytd.ClassType n), _, _ =>
      match class_of ext n with
      | None => Raise (AssertionError "pyval.cls")
      | Some c => call_constant_to_value (Class c) subst root
      end
  | Type_ pytd.NothingType, _, _ => Ret (nothing cv)
  | Type_ pytd.AnythingType, _, _ => Ret (unsolvable cv)
  | Type_ (pytd.FunctionType n), _, _ =>
      call_constant_to_value (Function (function_of ext n)) subst root
  | Type_ (pytd.UnionType type_list), _, _ =>
      do options <-
        mapM (fun t => call_constant_to_value (Type_ t) subst root)
             type_list;
      match options with
      | [] => Raise IndexError
      | [o] => Ret o
      | _ => new (Union options)
      end
  | Type_ (pytd.TypeParameter name constraints bound), _, _ =>
      do constraints <-
        mapM (fun c => call_constant_to_value (Type_ c) [] root)
             constraints;
      do bound <-
        match bound with
        | None => Ret None
        | Some b =>
            do v <- call_constant_to_value (Type_ b) [] root; Ret (Some v)
        end;
      new (TypeParameter name constraints bound)
  | AsInstance _ cls, _, _ => as_instance_to_value cls subst
  | Type_ (pytd.GenericType kind base parameters), _, _ =>
      generic_to_value kind base parameters subst
  | PyTuple items, _, _ =>
      do content <-
        mapM (fun item =>
                constant_to_var item subst (Some root) [] Datatypes.false)
             items;
      tuple_to_value content
  | _, _, _ => Raise (NotImplementedError (type_of pyval))
  end.

(** The converter: the wrapper run on [_constant_to_value]. *)
Definition to_value (fuel : nat) (pyval : PyVal) (subst : Subst)
    (node : option cfg_node) (st : state) : outcome value :=
  constant_to_value cv _constant_to_value fuel pyval subst node st.

(** Reading an entry of a [LazyDict]: a pending entry runs its call. *)
Definition lazy_get (fuel : nat) (item : lazy_item) (st : state)
    : outcome value :=
  match item with
  | LazyItem pyval subst node => to_value fuel pyval subst (Some node) st
  | Item v => Done v st
  end.

End conversion.

Arguments _constant_to_value : simpl never.

(** *** How the cache evolves *)

(** The state an outcome leaves behind. *)
Definition final {A : Type} (o : outcome A) : option state :=
  match o with
  | Done _ st => Some st
  | Raised _ st => Some st
  | OutOfFuel => None
  end.

(** [evolves cv st st']: what can have happened between the start [st] and
    the end [st'] of a call.  A key present in the cache stays; its entry is
    kept, except that a sentinel may have been replaced by the wildcard.
    Entries under the other keys stay, object identities are not reused, and
    the error log only grows. *)
Definition evolves (cv : Converter) (st st' : state) : Prop :=
  (forall k e, constants st k = Some e ->
     constants st' k = Some e
     \/ (e = None /\ constants st' k = Some (Some (unsolvable cv))))
  /\ (forall k v, others st k = Some v -> others st' k = Some v)
  /\ next_id st <= next_id st'
  /\ (exists l, errorlog st' = errorlog st ++ l).

Lemma constants_set_eq key entry st :
  constants (set_constant key entry st) key = Some entry.
Proof. cache. by destruct (constant_key_eq_dec key key). Qed.

Lemma constants_set_ne key key' entry st :
  key' <> key ->
  constants (set_constant key entry st) key' = constants st key'.
Proof. intros. cache. by destruct (constant_key_eq_dec key' key). Qed.


Lemma evolves_refl cv st : evolves cv st st.
Proof.
  split; [by left |]. split; [done |]. split; [done |].
  exists []. by rewrite app_nil_r.
Qed.

Lemma evolves_trans cv st1 st2 st3 :
  evolves cv st1 st2 -> evolves cv st2 st3 -> evolves cv st1 st3.
Proof.
  intros (Hc1 & Ho1 & Hn1 & l1 & He1) (Hc2 & Ho2 & Hn2 & l2 & He2).
  split; [| split; [| split]].
  - intros k e Hk. destruct (Hc1 k e Hk) as [H1 | [-> H1]].
    + apply Hc2, H1.
    + right. split; [done|]. by destruct (Hc2 _ _ H1) as [H2 | [? _]].
  - auto.
  - lia.
  - exists (l1 ++ l2). by rewrite He2, He1, app_assoc.
Qed.

Lemma evolves_set_constant cv st st' key entry :
  evolves cv st st' -> constants st key = None ->
  evolves cv st (set_constant key entry st').
Proof.
  intros (Hc & Ho & Hn & He) Hkey. split; [| by repeat split].
  intros k e Hk. cache. destruct (constant_key_eq_dec k key) as [-> | _].
  - congruence.
  - by apply Hc.
Qed.

Lemma evolves_set_other cv st st' key v :
  evolves cv st st' -> others st key = None ->
  evolves cv st (set_other key v st').
Proof.
  intros (Hc & Ho & Hn & He) Hkey. split; [done |]. split; [| done].
  intros k w Hk. cache. destruct (aux_key_eq_dec k key) as [-> | _].
  - congruence.
  - by apply Ho.
Qed.

Lemma evolves_report cv st e : evolves cv st (report e st).
Proof.
  split; [by left |]. split; [done |]. split; [done |]. by exists [e].
Qed.

Lemma evolves_bump cv st : evolves cv st (bump st).
Proof.
  split; [by left |]. split; [done |]. split; [simpl; lia |].
  exists []. simpl. by rewrite app_nil_r.
Qed.

Lemma evolves_wildcard cv st key :
  constants st key = Some None ->
  evolves cv st (set_constant key (Some (unsolvable cv)) st).
Proof.
  intros Hkey. split; [| split; [done |]; split; [done |]].
  - intros k e Hk. cache. destruct (constant_key_eq_dec k key) as [-> | _].
    + right. split; congruence.
    + by left.
  - exists []. simpl. by rewrite app_nil_r.
Qed.

Section wrapper_facts.

Variable cv : Converter.
Variable body : PyVal -> Subst -> prog value.

(** What a program makes of a re-entrant call that lets the cache evolve:
    its own run lets it evolve. *)
Lemma exec_evolves call node :
  (forall p s n st st', final (call p s n st) = Some st' ->
                        evolves cv st st') ->
  forall A (m : prog A) need st st',
    final (exec call node m need st) = Some st' -> evolves cv st st'.
Proof.
  intros Hcall A m. induction m as
    [A a | A e | A k IH | A p s n k IH | A d k IH | A c k IH
    | A key create IHc k IH | A e k IH]; intros need st st' Hfin; simpl in Hfin.
  - injection Hfin as <-. apply evolves_refl.
  - injection Hfin as <-. apply evolves_refl.
  - eauto.
  - destruct (call p s n st) as [v st1 | e st1 |] eqn:Hc; simpl in Hfin.
    + eapply evolves_trans; [eapply Hcall; by rewrite Hc | eauto].
    + injection Hfin as <-. eapply Hcall. by rewrite Hc.
    + done.
  - eapply evolves_trans; [apply evolves_bump | eauto].
  - eapply evolves_trans; [apply evolves_bump | eauto].
  - destruct (others st key) as [v |] eqn:Hkey.
    + eauto.
    + destruct (exec call node create need st) as [[v need'] st1 | e st1 |]
        eqn:Hcr; simpl in Hfin.
      * eapply evolves_trans; [| eapply IH, Hfin].
        apply evolves_set_other; [| done].
        eapply IHc. by rewrite Hcr.
      * injection Hfin as <-. eapply IHc. by rewrite Hcr.
      * done.
  - eapply evolves_trans; [apply evolves_report | eauto].
Qed.

(** Every call of [constant_to_value] lets the cache evolve. *)
Lemma constant_to_value_evolves fuel :
  forall pyval subst node st st',
    final (constant_to_value cv body fuel pyval subst node st) = Some st' ->
    evolves cv st st'.
Proof.
  induction fuel as [| fuel IH]; intros pyval subst node st st' Hfin;
    simpl in Hfin; [done|].
  destruct (constants st (key_of pyval)) as [[v |] |] eqn:Hkey.
  - injection Hfin as <-. apply evolves_refl.
  - injection Hfin as <-.
    eapply evolves_trans; [apply evolves_report |].
    by apply evolves_wildcard.
  - match type of Hfin with
    | context [exec ?c ?n ?m ?b ?s] =>
        destruct (exec c n m b s) as [[value need_node] st2 | e st2 |]
          eqn:Hex
    end; simpl in Hfin; [| | done].
    + assert (evolves cv st st2) as Hev.
      { eapply evolves_trans.
        - apply (evolves_set_constant cv st st (key_of pyval) None);
            [apply evolves_refl | done].
        - eapply exec_evolves; [| by rewrite Hex].
          intros p s n s1 s2. apply IH. }
      destruct (negb need_node || _); injection Hfin as <-; [| done].
      by apply evolves_set_constant.
    + injection Hfin as <-.
      eapply evolves_trans.
      * apply (evolves_set_constant cv st st (key_of pyval) None);
          [apply evolves_refl | done].
      * eapply exec_evolves; [| by rewrite Hex].
        intros p s n s1 s2. apply IH.
Qed.

(** A key holding the sentinel or the wildcard makes every later call
    answer with the wildcard. *)
Lemma stale_key_gives_wildcard fuel pyval subst node st :
  constants st (key_of pyval) = Some None
  \/ constants st (key_of pyval) = Some (Some (unsolvable cv)) ->
  exists st', constant_to_value cv body (S fuel) pyval subst node st
              = Done (unsolvable cv) st'.
Proof.
  intros [H | H]; simpl; rewrite H; eauto.
Qed.

Lemma stale_key_evolves pyval st st' :
  evolves cv st st' ->
  constants st (key_of pyval) = Some None
  \/ constants st (key_of pyval) = Some (Some (unsolvable cv)) ->
  constants st' (key_of pyval) = Some None
  \/ constants st' (key_of pyval) = Some (Some (unsolvable cv)).
Proof.
  intros (Hc & _) [H | H]; destruct (Hc _ _ H) as [H' | [_ H']]; auto.
Qed.

(** The flag [need_node] only goes up: a run that begins with the flag set
    ends as the run that begins with the flag unset, but with the flag
    set. *)
Lemma exec_flag call node A (m : prog A) :
  forall need st,
    exec call node m need st
    = match exec call node m Datatypes.false st with
      | Done (a, n) st' => Done (a, need || n) st'
      | Raised e st' => Raised e st'
      | OutOfFuel => OutOfFuel
      end.
Proof.
  induction m as
    [A a | A e | A k IH | A p s n k IH | A d k IH | A c k IH
    | A key create IHc k IH | A e k IH]; intros need st; simpl.
  - by rewrite orb_false_r.
  - done.
  - rewrite (IH node Datatypes.true st).
    destruct (exec call node (k node) Datatypes.false st) as [[a n] st' | |];
      [| done | done].
    simpl. by rewrite orb_true_r.
  - destruct (call p s n st); [apply IH | done | done].
  - apply IH.
  - apply IH.
  - destruct (others st key); [apply IH |].
    rewrite (IHc need st).
    destruct (exec call node create Datatypes.false st)
      as [[v n] st' | |]; [| done | done].
    rewrite (IH v (need || n)), (IH v n).
    destruct (exec call node (k v) Datatypes.false (set_other key v st'))
      as [[a n'] st'' | |]; [| done | done].
    by rewrite orb_assoc.
  - apply IH.
Qed.

(** The flag at the end of a run that began with the flag unset says
    whether the run called [get_node]. *)
Lemma exec_asks call node A (m : prog A) :
  forall st a n st',
    exec call node m Datatypes.false st = Done (a, n) st' ->
    n = asks call node m st.
Proof.
  induction m as
    [A a | A e | A k IH | A p s n k IH | A d k IH | A c k IH
    | A key create IHc k IH | A e k IH]; intros st a0 n0 st'; simpl.
  - by intros [= _ <- _].
  - done.
  - rewrite exec_flag.
    destruct (exec call node (k node) Datatypes.false st)
      as [[a1 n1] st1 | |]; [| done | done].
    by intros [= _ <- _].
  - destruct (call p s n st); [apply IH | done | done].
  - apply IH.
  - apply IH.
  - destruct (others st key); [apply IH |].
    destruct (exec call node create Datatypes.false st)
      as [[v n1] st1 | |] eqn:Hcreate; [| done | done].
    rewrite exec_flag.
    destruct (exec call node (k v) Datatypes.false (set_other key v st1))
      as [[a1 n2] st2 | |] eqn:Hk; [| done | done].
    intros [= _ <- _].
    apply IHc in Hcreate. apply IH in Hk. by rewrite Hcreate, Hk.
  - apply IH.
Qed.

(** C2.  A call of [constant_to_value] that misses the cache runs the
    construction under the sentinel and gets [value]; the flag [need_node]
    it ends with is set exactly when the construction called [get_node].  The
    call writes [value] to the cache exactly when the construction did not
    ask for the node or the node is the root.  Otherwise it writes nothing:
    the key keeps the sentinel (or the wildcard a re-entrant call left
    there), and every later call on the same constant, at whatever node,
    gets the wildcard, never [value] from the cache. *)
Theorem value_built_on_a_node_is_not_cached
    fuel pyval subst node st value st' :
  constants st (key_of pyval) = None ->
  constant_to_value cv body (S fuel) pyval subst node st = Done value st' ->
  let call := fun p s n => constant_to_value cv body fuel p s (Some n) in
  let st1 := set_constant (key_of pyval) None st in
  let asked := asks call (or_root cv node) (body pyval subst) st1 in
  exists st2,
    exec call (or_root cv node) (body pyval subst) Datatypes.false st1
    = Done (value, asked) st2
    /\ if negb asked || Nat.eqb (or_root cv node) (root_cfg_node cv)
       then st' = set_constant (key_of pyval) (Some value) st2
       else st' = st2
            /\ (constants st' (key_of pyval) = Some None
                \/ constants st' (key_of pyval)
                   = Some (Some (unsolvable cv)))
            /\ forall st'' fuel' subst' node',
                 evolves cv st' st'' ->
                 exists st3,
                   constant_to_value cv body (S fuel') pyval subst' node'
                                     st''
                   = Done (unsolvable cv) st3.
Proof.
  intros Hkey Hrun call st1 asked. simpl in Hrun. rewrite Hkey in Hrun.
  fold call st1 in Hrun.
  destruct (exec call (or_root cv node) (body pyval subst) Datatypes.false
                 st1) as [[value' need_node] st2 | e st2 |] eqn:Hex;
    [| done | done].
  pose proof (exec_asks _ _ _ _ _ _ _ _ Hex) as Hasked. fold asked in Hasked.
  subst need_node. exists st2.
  assert (constants st2 (key_of pyval) = Some None
          \/ constants st2 (key_of pyval) = Some (Some (unsolvable cv)))
    as Hstale.
  { eapply stale_key_evolves.
    - eapply exec_evolves; [| by rewrite Hex].
      intros p s n s1 s2. apply constant_to_value_evolves.
    - left. apply constants_set_eq. }
  destruct (negb asked || _); injection Hrun as <- <-.
  - done.
  - repeat split; [done |].
    intros st'' fuel' subst' node' Hev.
    apply stale_key_gives_wildcard. by eapply stale_key_evolves.
Qed.



(** An invariant of the entries of simple constants: for the constants
    [K] selects, a cached entry is a value that [good] accepts. *)
Definition entries_ok (K : PyVal -> Prop) (good : PyVal -> value -> Prop)
    (st : state) : Prop :=
  forall p e, K p -> constants st (key_of p) = Some e ->
              exists v, e = Some v /\ good p v.

Section entries.

Variable K : PyVal -> Prop.
Variable good : PyVal -> value -> Prop.

(** The bodies of the selected constants are simple and build good
    values without touching the cache of constants. *)
Hypothesis K_body :
  forall p, K p ->
    forall subst call node st,
      exists v st2,
        exec call node (body p subst) Datatypes.false st
        = Done (v, Datatypes.false) st2
        /\ good p v /\ constants st2 = constants st.

Lemma exec_entries_ok call node :
  (forall p s n st st', entries_ok K good st ->
                        final (call p s n st) = Some st' ->
                        entries_ok K good st') ->
  forall A (m : prog A) need st st',
    entries_ok K good st ->
    final (exec call node m need st) = Some st' ->
    entries_ok K good st'.
Proof.
  intros Hcall A m. induction m as
    [A a | A e | A k IH | A p s n k IH | A d k IH | A c k IH
    | A key create IHc k IH | A e k IH];
    intros need st st' Hok Hfin; simpl in Hfin.
  - by injection Hfin as <-.
  - by injection Hfin as <-.
  - eauto.
  - destruct (call p s n st) as [v st1 | e st1 |] eqn:Hc; simpl in Hfin.
    + eapply IH; [| exact Hfin]. eapply Hcall; [done |]. by rewrite Hc.
    + injection Hfin as <-. eapply Hcall; [done |]. by rewrite Hc.
    + done.
  - eapply IH; [| exact Hfin]. exact Hok.
  - eapply IH; [| exact Hfin]. exact Hok.
  - destruct (others st key) as [v |] eqn:Hkey.
    + eauto.
    + destruct (exec call node create need st)
        as [[v need'] st1 | e st1 |] eqn:Hcr; simpl in Hfin.
      * eapply IH; [| exact Hfin].
        assert (entries_ok K good st1) as Hok1
          by (eapply IHc; [done |]; by rewrite Hcr).
        exact Hok1.
      * injection Hfin as <-. eapply IHc; [done |]. by rewrite Hcr.
      * done.
  - eapply IH; [| exact Hfin]. exact Hok.
Qed.

Lemma entries_ok_set_other p e st :
  ~ K p -> entries_ok K good st ->
  entries_ok K good (set_constant (key_of p) e st).
Proof.
  intros HnK Hok q e' Hq. cache.
  destruct (constant_key_eq_dec (key_of q) (key_of p)) as [Heq | _].
  - injection Heq as -> _. done.
  - intros He. by eapply Hok.
Qed.

Lemma entries_ok_set_good p v st :
  good p v -> entries_ok K good st ->
  entries_ok K good (set_constant (key_of p) (Some v) st).
Proof.
  intros Hgood Hok q e' Hq. cache.
  destruct (constant_key_eq_dec (key_of q) (key_of p)) as [Heq | _].
  - injection Heq as -> _. intros [= <-]. eauto.
  - intros He. by eapply Hok.
Qed.

Hypothesis K_dec : forall p, K p \/ ~ K p.

(** Every call keeps the invariant. *)
Lemma constant_to_value_entries_ok fuel :
  forall pyval subst node st st',
    entries_ok K good st ->
    final (constant_to_value cv body fuel pyval subst node st) = Some st' ->
    entries_ok K good st'.
Proof.
  induction fuel as [| fuel IH]; intros pyval subst node st st' Hok Hfin;
    simpl in Hfin; [done |].
  destruct (constants st (key_of pyval)) as [[v |] |] eqn:Hkey.
  - by injection Hfin as <-.
  - destruct (K_dec pyval) as [HK | HnK].
    + destruct (Hok _ _ HK Hkey) as (v & ? & _). done.
    + injection Hfin as <-. by apply entries_ok_set_other.
  - destruct (K_dec pyval) as [HK | HnK].
    + destruct (K_body pyval HK subst
                  (fun p s n => constant_to_value cv body fuel p s (Some n))
                  (or_root cv node)
                  (set_constant (key_of pyval) None st))
        as (v & st2 & Hex & Hgood & Hsame).
      rewrite Hex in Hfin. simpl in Hfin. injection Hfin as <-.
      intros q e Hq. cache.
      destruct (constant_key_eq_dec (key_of q) (key_of pyval))
        as [Heq | Hne].
      * injection Heq as -> _. intros [= <-]. eauto.
      * rewrite Hsame. cache.
        destruct (constant_key_eq_dec (key_of q) (key_of pyval));
          [done |]. intros He. by eapply Hok.
    + match type of Hfin with
      | context [exec ?c ?n ?m ?b ?s] =>
          destruct (exec c n m b s) as [[value need_node] st2 | e st2 |]
            eqn:Hex
      end; simpl in Hfin; [| | done].
      * assert (entries_ok K good st2) as Hok2.
        { eapply exec_entries_ok; [| | by rewrite Hex].
          - intros p s n s1 s2. apply IH.
          - by apply entries_ok_set_other. }
        destruct (negb need_node || _); injection Hfin as <-; [| done].
        by apply entries_ok_set_other.
      * injection Hfin as <-.
        eapply exec_entries_ok; [| | by rewrite Hex].
        -- intros p s n s1 s2. apply IH.
        -- by apply entries_ok_set_other.
Qed.

End entries.

End wrapper_facts.

(** *** Termination over finitely many declarations *)

(** [calls_in U m]: every constant the program [m] hands back to the
    converter is one of [U]. *)
Inductive calls_in (U : list PyVal) : forall A : Type, prog A -> Prop :=
| ci_Ret A (a : A) : calls_in U A (Ret a)
| ci_Raise A e : calls_in U A (Raise e)
| ci_GetNode A k :
    (forall n, calls_in U A (k n)) -> calls_in U A (GetNode k)
| ci_ConstantToValue A p s n k :
    In p U -> (forall v, calls_in U A (k v)) ->
    calls_in U A (ConstantToValue p s n k)
| ci_NewObject A d k :
    (forall v, calls_in U A (k v)) -> calls_in U A (NewObject d k)
| ci_NewAsInstance A c k :
    (forall v, calls_in U A (k v)) -> calls_in U A (NewAsInstance c k)
| ci_GetOrCreate A key create k :
    calls_in U value create -> (forall v, calls_in U A (k v)) ->
    calls_in U A (GetOrCreate key create k)
| ci_Report A e k : calls_in U A k -> calls_in U A (Report e k).

(** The constants of [U] whose key is not in the cache yet. *)
Definition absent (st : state) (p : PyVal) : bool :=
  match constants st (key_of p) with None => Datatypes.true | _ => Datatypes.false end.

Definition pending (U : list PyVal) (st : state) : nat :=
  length (List.filter (absent st) U).

Lemma pending_mono U st st' :
  (forall p, absent st' p = Datatypes.true -> absent st p = Datatypes.true) ->
  pending U st' <= pending U st.
Proof.
  intros Hmono. unfold pending. induction U as [| p U IH]; simpl; [lia |].
  destruct (absent st' p) eqn:H'.
  - rewrite (Hmono p H'). simpl. lia.
  - destruct (absent st p); simpl; lia.
Qed.

Lemma pending_evolves cv U st st' :
  evolves cv st st' -> pending U st' <= pending U st.
Proof.
  intros (Hc & _). apply pending_mono. intros p. unfold absent.
  destruct (constants st (key_of p)) as [e |] eqn:H; [| done].
  by destruct (Hc _ _ H) as [-> | [_ ->]].
Qed.

Lemma pending_sentinel U st p :
  In p U -> constants st (key_of p) = None ->
  pending U (set_constant (key_of p) None st) < pending U st.
Proof.
  intros Hin Hkey. unfold pending.
  induction U as [| q U IH]; simpl; [done |].
  assert (forall r, absent (set_constant (key_of p) None st) r = Datatypes.true ->
                    absent st r = Datatypes.true) as Hmono.
  { intros r. unfold absent. cache.
    by destruct (constant_key_eq_dec (key_of r) (key_of p)). }
  destruct Hin as [-> | Hin].
  - assert (absent (set_constant (key_of p) None st) p = Datatypes.false)
      as -> by (unfold absent; by rewrite constants_set_eq).
    assert (absent st p = Datatypes.true)
      as -> by (unfold absent; by rewrite Hkey).
    simpl. apply Nat.lt_succ_r, (pending_mono U), Hmono.
  - specialize (IH Hin).
    destruct (absent (set_constant (key_of p) None st) q) eqn:Hq.
    + rewrite (Hmono q Hq). simpl. lia.
    + destruct (absent st q); simpl; lia.
Qed.

Section termination.

Variable cv : Converter.
Variable body : PyVal -> Subst -> prog value.
Variable U : list PyVal.

Hypothesis body_in_U : forall p s, In p U -> calls_in U value (body p s).

Lemma exec_terminates call node bound :
  (forall p s n st st', final (call p s n st) = Some st' ->
                        evolves cv st st') ->
  (forall p s n st, In p U -> pending U st < bound ->
                    call p s n st <> OutOfFuel) ->
  forall A (m : prog A),
    calls_in U A m ->
    forall need st, pending U st < bound ->
                    exec call node m need st <> OutOfFuel.
Proof.
  intros Hev Hcall A m Hm.
  induction Hm as
    [B a | B e | B k _ IH | B p s n k Hin _ IH | B d k _ IH | B c k _ IH
    | B key create k _ IHc _ IH | B e k _ IH]; intros need st Hst; simpl.
  - done.
  - done.
  - by apply IH.
  - destruct (call p s n st) as [v st1 | e st1 |] eqn:Hc.
    + apply IH. pose proof (pending_evolves cv U st st1) as Hle.
      specialize (Hle (Hev _ _ _ _ _ ltac:(by rewrite Hc))). lia.
    + done.
    + by destruct (Hcall p s n st Hin Hst).
  - by apply IH.
  - by apply IH.
  - destruct (others st key) as [v |]; [by apply IH |].
    destruct (exec call node create need st) as [[v need'] st1 | e st1 |]
      eqn:Hcr.
    + apply IH.
      pose proof (pending_evolves cv U st st1) as Hle.
      specialize (Hle (exec_evolves cv call node Hev _ create need st st1
                         ltac:(by rewrite Hcr))).
      change (pending U st1 < bound). lia.
    + done.
    + by destruct (IHc need st Hst).
  - by apply IH.
Qed.

(** With more fuel than constants of [U] still to convert, the model
    does not run out of fuel: the conversion ends. *)
Lemma constant_to_value_terminates fuel :
  forall pyval subst node st,
    In pyval U -> pending U st < fuel ->
    constant_to_value cv body fuel pyval subst node st <> OutOfFuel.
Proof.
  induction fuel as [| fuel IH]; intros pyval subst node st Hin Hst;
    [lia |]. simpl.
  destruct (constants st (key_of pyval)) as [[v |] |] eqn:Hkey;
    [done | done |].
  pose proof (pending_sentinel U st pyval Hin Hkey) as Hlt.
  match goal with
  | |- context [exec ?c ?n ?m ?b ?s] =>
      pose proof (exec_terminates c n fuel
                    ltac:(intros p s' n' s1 s2;
                          apply constant_to_value_evolves)
                    ltac:(intros p s' n' s1; apply IH)
                    _ m (body_in_U _ _ Hin) b s ltac:(lia)) as Hex;
      destruct (exec c n m b s) as [[value need_node] st2 | e st2 |]
  end; [| done | done].
  by destruct (negb need_node || _).
Qed.

End termination.

(** *** Literals: [None], [True], integers *)

Section literals.

Variable cv : Converter.
Variable ext : Externals.



Lemma body_Int n subst :
  _constant_to_value cv ext (PyInt n) subst
  = if Z.leb (-1) n && Z.leb n MAX_IMPORT_DEPTH
    then new (AbstractOrConcreteValue (PyInt n) (int_type cv))
    else Ret (primitive_class_instances cv p_int).
Proof. reflexivity. Qed.

Lemma body_Long n subst :
  _constant_to_value cv ext (PyLong n) subst
  = Ret (primitive_class_instances cv p_int).
Proof. reflexivity. Qed.



(** The constants the integer claim is about, and what they convert to:
    a wrapper of the literal with class [int] in the range, the generic
    [int] instance otherwise. *)
Definition is_integer (p : PyVal) : Prop :=
  match p with PyInt _ | PyLong _ => True | _ => False end.

Definition converted_integer (p : PyVal) (v : value) : Prop :=
  match p with
  | PyInt n =>
      if Z.leb (-1) n && Z.leb n MAX_IMPORT_DEPTH
      then desc_of v = AbstractOrConcreteValue (PyInt n) (int_type cv)
      else v = primitive_class_instances cv p_int
  | PyLong _ => v = primitive_class_instances cv p_int
  | _ => True
  end.

Lemma is_integer_dec p : is_integer p \/ ~ is_integer p.
Proof. destruct p; simpl; auto. Qed.

Lemma integer_body p :
  is_integer p ->
  forall subst call node st,
    exists v st2,
      exec call node (_constant_to_value cv ext p subst) Datatypes.false st
      = Done (v, Datatypes.false) st2
      /\ converted_integer p v /\ constants st2 = constants st.
Proof.
  intros Hp subst call node st. destruct p; try done.
  - rewrite body_Int. simpl.
    destruct (Z.leb (-1) n && Z.leb n MAX_IMPORT_DEPTH); simpl; eauto.
  - rewrite body_Long. simpl. eauto.
Qed.

(** The cached integers stay well converted whatever is converted. *)
Lemma integer_entries_preserved fuel pyval subst node st st' :
  entries_ok is_integer converted_integer st ->
  final (to_value cv ext fuel pyval subst node st) = Some st' ->
  entries_ok is_integer converted_integer st'.
Proof.
  apply constant_to_value_entries_ok.
  - apply integer_body.
  - apply is_integer_dec.
Qed.

Lemma integer_conversion fuel p subst node st :
  is_integer p ->
  entries_ok is_integer converted_integer st ->
  exists v st',
    to_value cv ext (S fuel) p subst node st = Done v st'
    /\ converted_integer p v.
Proof.
  intros Hp Hok. unfold to_value. simpl.
  destruct (constants st (key_of p)) as [e |] eqn:Hkey.
  - destruct (Hok _ _ Hp Hkey) as (v & -> & Hgood). eauto.
  - destruct (integer_body p Hp subst
                (fun p s n => constant_to_value cv (_constant_to_value cv ext)
                                                fuel p s (Some n))
                (or_root cv node) (set_constant (key_of p) None st))
      as (v & st2 & Hex & Hgood & _).
    rewrite Hex. simpl. eauto.
Qed.

(** C9.  In a converter whose cached integers were put there by
    conversion, converting an [int] literal [n] with [-1 <= n <= 12]
    ends with a wrapper that holds the literal [n] and has the class
    [int]; converting any other [int], or any [long], ends with the one
    generic [int] instance, whatever the number. *)
Theorem small_integers_keep_their_value fuel subst node st :
  entries_ok is_integer converted_integer st ->
  (forall n, (-1 <= n <= MAX_IMPORT_DEPTH)%Z ->
     exists v st',
       to_value cv ext (S fuel) (PyInt n) subst node st = Done v st'
       /\ desc_of v = AbstractOrConcreteValue (PyInt n) (int_type cv))
  /\ (forall n, ~ (-1 <= n <= MAX_IMPORT_DEPTH)%Z ->
       exists st',
         to_value cv ext (S fuel) (PyInt n) subst node st
         = Done (primitive_class_instances cv p_int) st')
  /\ (forall n,
       exists st',
         to_value cv ext (S fuel) (PyLong n) subst node st
         = Done (primitive_class_instances cv p_int) st').
Proof.
  intros Hok. repeat split.
  - intros n Hn.
    destruct (integer_conversion fuel (PyInt n) subst node st I Hok)
      as (v & st' & Hrun & Hgood).
    exists v, st'. split; [done |]. simpl in Hgood.
    replace (Z.leb (-1) n && Z.leb n MAX_IMPORT_DEPTH) with Datatypes.true
      in Hgood; [done |].
    symmetry. apply andb_true_iff. split; apply Z.leb_le; lia.
  - intros n Hn.
    destruct (integer_conversion fuel (PyInt n) subst node st I Hok)
      as (v & st' & Hrun & Hgood).
    exists st'. simpl in Hgood.
    replace (Z.leb (-1) n && Z.leb n MAX_IMPORT_DEPTH) with Datatypes.false
      in Hgood; [by subst v |].
    symmetry. apply andb_false_iff.
    destruct (Z.leb_spec (-1) n); [| by left].
    destruct (Z.leb_spec n MAX_IMPORT_DEPTH); [lia | by right].
  - intros n.
    destruct (integer_conversion fuel (PyLong n) subst node st I Hok)
      as (v & st' & Hrun & Hgood).
    exists st'. simpl in Hgood. by subst v.
Qed.

(** [cls] stands for the declared class [c]: it is the class, or a
    [ClassType] whose pointer leads to it. *)
Definition wraps (cls : PyVal) (c : pytd.Class) : Prop :=
  cls = Class c
  \/ exists n, cls = Type_ (pytd.ClassType n) /\ class_of ext n = Some c.

Lemma as_instance_of_class cls c subst :
  wraps cls c ->
  exists create,
    _constant_to_value cv ext (AsInstance 0 cls) subst
    = GetOrCreate (InstanceKey c) create Ret
    /\ forall tag, _constant_to_value cv ext (AsInstance tag cls) subst
                   = _constant_to_value cv ext (AsInstance 0 cls) subst.
Proof.
  intros [-> | (n & -> & Hn)].
  - eexists. split; [reflexivity | done].
  - eexists. split; [| done].
    unfold _constant_to_value, as_instance_to_value. simpl.
    rewrite Hn. reflexivity.
Qed.



(** [None] converts to the [none] of the converter whenever the table
    of primitive instances holds it, as [__init__] arranges
    (lines 67-71). *)
Lemma None_is_none fuel subst node st :
  primitive_class_instances cv p_NoneType = none cv ->
  constants st (key_of PyNone) = None ->
  exists st', to_value cv ext (S fuel) PyNone subst node st
              = Done (none cv) st'.
Proof.
  intros Hnone Hkey. unfold to_value. simpl. rewrite Hkey.
  rewrite Hnone. eauto.
Qed.

End literals.

(** *** Running composed programs *)

Lemma exec_bind {A B : Type} call node (m : prog A) (f : A -> prog B) :
  forall need st,
    exec call node (bind m f) need st
    = match exec call node m need st with
      | Done (a, need') st' => exec call node (f a) need' st'
      | Raised e st' => Raised e st'
      | OutOfFuel => OutOfFuel
      end.
Proof.
  induction m as
    [A a | A e | A k IH | A p s n k IH | A d k IH | A c k IH
    | A key create IHc k IH | A e k IH]; intros need st; simpl; try done.
  - by destruct (call p s n st).
  - destruct (others st key); [done |].
    by destruct (exec call node create need st) as [[v need'] st' | |].
Qed.

(** A list of steps, each of which keeps an invariant [P] of the state
    and has a known result, has the list of these results. *)
Lemma exec_mapM {A B : Type} call node (f : A -> prog B)
    (P : state -> Prop) (xs : list A) (ys : list B) :
  Forall2 (fun x y => forall need st, P st ->
             exists need' st',
               exec call node (f x) need st = Done (y, need') st' /\ P st')
          xs ys ->
  forall need st, P st ->
    exists need' st',
      exec call node (mapM f xs) need st = Done (ys, need') st' /\ P st'.
Proof.
  induction 1 as [| x y xs ys Hxy _ IH]; intros need st HP; simpl.
  - eauto.
  - rewrite exec_bind.
    destruct (Hxy need st HP) as (need1 & st1 & -> & HP1).
    rewrite exec_bind.
    destruct (IH need1 st1 HP1) as (need2 & st2 & -> & HP2).
    simpl. eauto.
Qed.

(** *** Fixed-arity tuples *)

Lemma key_of_inj p q : key_of p = key_of q -> p = q.
Proof. by intros [= ->]. Qed.

Section hit_and_miss.

Variable cv : Converter.
Variable body : PyVal -> Subst -> prog value.

Lemma constant_to_value_hit fuel pyval subst node st v :
  constants st (key_of pyval) = Some (Some v) ->
  constant_to_value cv body (S fuel) pyval subst node st = Done v st.
Proof. intros H. simpl. by rewrite H. Qed.

Lemma constant_to_value_miss fuel pyval subst node st :
  constants st (key_of pyval) = None ->
  constant_to_value cv body (S fuel) pyval subst node st
  = match exec (fun p s n => constant_to_value cv body fuel p s (Some n))
               (or_root cv node) (body pyval subst) Datatypes.false
               (set_constant (key_of pyval) None st) with
    | Done (value, need_node) st2 =>
        if negb need_node || Nat.eqb (or_root cv node) (root_cfg_node cv)
        then Done value (set_constant (key_of pyval) (Some value) st2)
        else Done value st2
    | Raised e st2 => Raised e st2
    | OutOfFuel => OutOfFuel
    end.
Proof. intros H. simpl. by rewrite H. Qed.

End hit_and_miss.

(** *** The recursion guard *)

Section recursion.

Variable cv : Converter.
Variable ext : Externals.
Variable U : list PyVal.

Hypothesis declarations_in_U :
  forall p s, In p U -> calls_in U value (_constant_to_value cv ext p s).

(** The classes that [_constant_to_value] answers without constructing
    anything, lines 463-468. *)
Definition special_class (name : string) : bool :=
  String.eqb name "__builtin__.super"
  || String.eqb name "__builtin__.object"
  || String.eqb name "types.ModuleType".

(** What the construction of any other class gives, lines 469-478: the
    wildcard after an MRO error has been reported, or else a new class
    object. *)
Lemma class_body_result call node c subst need st value need' st' :
  special_class (pytd.name c) = Datatypes.false ->
  exec call node (_constant_to_value cv ext (Class c) subst) need st
  = Done (value, need') st' ->
  let '(module, found, base_name) := rpartition_dot (pytd.name c) in
  (value = unsolvable cv
   /\ exists mro_seqs l, errorlog st' = l ++ [mro_error base_name mro_seqs])
  \/ exists id,
       value = Obj id (PyTDClass base_name c
                                 (if found then Some module else None)).
Proof.
  unfold special_class. intros Hspecial.
  apply orb_false_elim in Hspecial as [Hspecial Hmodule].
  apply orb_false_elim in Hspecial as [Hsuper Hobject].
  unfold _constant_to_value. simpl. rewrite Hsuper, Hobject, Hmodule.
  destruct (rpartition_dot (pytd.name c)) as [[module found] base_name].
  rewrite exec_bind.
  destruct (exec call node (PyTDClass_init ext base_name c) need st)
    as [[[mro_seqs |] need1] st1 | e st1 |]; [| | done | done]; simpl.
  - intros [= <- _ <-]. left. split; [done |].
    by exists mro_seqs, (errorlog st1).
  - intros [= <- _ _]. right. by eexists.
Qed.

(** C3, as amended.  A conversion that finds the sentinel under its key
    ends at once: it reports one recursion error, puts the wildcard in place
    of the sentinel and returns the wildcard.  The conversion of a constant
    over finitely many declarations, cyclic or not, ends: fuel beyond the
    number of declarations still to convert is never used up.  When the
    enclosing conversion, which set the sentinel, returns, its result is the
    value its own construction built, whatever the re-entrant calls
    answered: for a class that is not one of the special ones, a new class
    object, or the wildcard after an MRO error has been reported.  When the
    construction did not ask for the node or the node is the root, that
    value takes the place of the sentinel, or of the wildcard a re-entrant
    call left, in the cache; otherwise the key keeps the sentinel or the
    wildcard. *)
Theorem recursion_guard pyval subst node st :
  In pyval U ->
  let key := key_of pyval in
  let wildcard := unsolvable cv in
  (constants st key = Some None ->
   forall fuel,
     to_value cv ext (S fuel) pyval subst node st
     = Done wildcard
         (set_constant key (Some wildcard)
            (report (recursion_error (error_name pyval)) st)))
  /\ (forall fuel,
        pending U st < fuel ->
        to_value cv ext fuel pyval subst node st <> OutOfFuel)
  /\ (constants st key = None ->
      forall fuel value st',
        to_value cv ext (S fuel) pyval subst node st = Done value st' ->
        exists need_node st2,
          exec (fun p s n => to_value cv ext fuel p s (Some n))
               (or_root cv node) (_constant_to_value cv ext pyval subst)
               Datatypes.false (set_constant key None st)
          = Done (value, need_node) st2
          /\ (constants st2 key = Some None
              \/ constants st2 key = Some (Some wildcard))
          /\ (if negb need_node
                 || Nat.eqb (or_root cv node) (root_cfg_node cv)
              then st' = set_constant key (Some value) st2
                   /\ constants st' key = Some (Some value)
              else st' = st2)
          /\ forall c,
               pyval = Class c ->
               special_class (pytd.name c) = Datatypes.false ->
               let '(module, found, base_name) :=
                 rpartition_dot (pytd.name c) in
               (value = wildcard
                /\ exists mro_seqs l,
                     errorlog st2 = l ++ [mro_error base_name mro_seqs])
               \/ exists id,
                    value = Obj id (PyTDClass
                                      base_name c
                                      (if found then Some module else None))).
Proof.
  intros Hin key wildcard. split; [| split].
  - intros Hkey fuel. unfold to_value. simpl. fold key. by rewrite Hkey.
  - intros fuel. by apply constant_to_value_terminates with (U := U).
  - intros Hkey fuel value st' Hrun. unfold to_value in Hrun.
    rewrite constant_to_value_miss in Hrun by exact Hkey. fold key in Hrun.
    match type of Hrun with
    | context [exec ?c ?n ?m ?b ?s] =>
        destruct (exec c n m b s) as [[value' need_node] st2 | e st2 |]
          eqn:Hex
    end; [| done | done].
    assert (value' = value /\
            if negb need_node || Nat.eqb (or_root cv node) (root_cfg_node cv)
            then st' = set_constant key (Some value) st2
            else st' = st2) as [-> Hst'].
    { destruct (negb need_node || _); by injection Hrun as <- <-. }
    exists need_node, st2. split; [exact Hex |]. split; [| split].
    + eapply stale_key_evolves.
      * eapply exec_evolves; [| by rewrite Hex].
        intros p s n s1 s2. apply constant_to_value_evolves.
      * left. apply constants_set_eq.
    + destruct (negb need_node || _); [| exact Hst'].
      split; [exact Hst' |]. rewrite Hst'. apply constants_set_eq.
    + intros c -> Hspecial.
      exact (class_body_result _ _ _ _ _ _ _ _ _ Hspecial Hex).
Qed.

End recursion.

Section tuples.

Variable cv : Converter.
Variable ext : Externals.

(** A position of a tuple type: the name of a declared class, its
    declaration, and the class value and the instance that the converter
    holds for it. *)
Record position := mkPosition {
  p_name : string;
  p_decl : pytd.Class;
  p_class : value;
  p_instance : value;
}.

(** The converter knows the class of a position: the declaration is
    cached as the class value, and the [ClassType] that names it is not
    cached otherwise. *)
Definition class_known (st : state) (pos : position) : Prop :=
  class_of ext (p_name pos) = Some (p_decl pos)
  /\ constants st (key_of (Class (p_decl pos))) = Some (Some (p_class pos))
  /\ (constants st (key_of (Type_ (pytd.ClassType (p_name pos)))) = None
      \/ constants st (key_of (Type_ (pytd.ClassType (p_name pos))))
         = Some (Some (p_class pos))).

(** The converter holds the instance of a position under
    [(abstract.Instance, cls)]. *)
Definition instance_known (st : state) (pos : position) : Prop :=
  class_of ext (p_name pos) = Some (p_decl pos)
  /\ others st (InstanceKey (p_decl pos)) = Some (p_instance pos).

(** No wrapper that is yet to be created is in the cache. *)
Definition fresh_wrappers (st : state) : Prop :=
  forall tag n, next_id st <= tag ->
    constants st (key_of (AsInstance tag (Type_ (pytd.ClassType n)))) = None.

Definition position_type (pos : position) : pytd.Type_ :=
  pytd.ClassType (p_name pos).

(** [Tuple[...]] over the classes of the positions. *)
Definition tuple_type (base : string) (positions : list position)
    : pytd.Type_ :=
  pytd.GenericType pytd.TupleKind base (map position_type positions).

Lemma body_ClassType n c subst :
  class_of ext n = Some c ->
  _constant_to_value cv ext (Type_ (pytd.ClassType n)) subst
  = call_constant_to_value (Class c) subst (root cv).
Proof. intros H. unfold _constant_to_value. simpl. by rewrite H. Qed.

(** Converting the [ClassType] of a known position gives its class and
    caches it under the [ClassType]; nothing else changes. *)
Lemma class_type_conversion fuel pos subst node st :
  class_known st pos ->
  exists st',
    to_value cv ext (S (S fuel)) (Type_ (position_type pos)) subst node st
    = Done (p_class pos) st'
    /\ (forall k, k <> key_of (Type_ (position_type pos)) ->
                  constants st' k = constants st k)
    /\ constants st' (key_of (Type_ (position_type pos)))
       = Some (Some (p_class pos))
    /\ other_items st' = other_items st
    /\ next_id st' = next_id st.
Proof.
  intros (Hcls & Hdecl & [Habsent | Hcached]); unfold to_value.
  - rewrite constant_to_value_miss by done.
    unfold position_type. rewrite (body_ClassType _ _ _ Hcls). simpl.
    cache.
    destruct (constant_key_eq_dec _ _) as [E | _];
      [by apply key_of_inj in E |].
    rewrite Hdecl. simpl. eexists. split; [reflexivity |].
    split; [| split; [| done]].
    + intros k Hk. cache. by destruct (constant_key_eq_dec _ _).
    + apply constants_set_eq.
  - rewrite constant_to_value_hit with (v := p_class pos) by done.
    eexists. by repeat split.
Qed.

(** Converting a wrapper, not in the cache, of a class whose instance
    the converter holds gives that instance. *)
Lemma cached_instance fuel tag cls c inst subst node st :
  wraps ext cls c ->
  constants st (key_of (AsInstance tag cls)) = None ->
  others st (InstanceKey c) = Some inst ->
  to_value cv ext (S fuel) (AsInstance tag cls) subst node st
  = Done inst (set_constant (key_of (AsInstance tag cls)) (Some inst)
                 (set_constant (key_of (AsInstance tag cls)) None st)).
Proof.
  intros Hw Hkey Hinst. unfold to_value.
  rewrite constant_to_value_miss by done.
  destruct (as_instance_of_class cv ext cls c subst Hw)
    as (create & Hbody & Htag).
  rewrite Htag, Hbody. simpl. cache. rewrite Hinst. by simpl.
Qed.

(** The type parameters of the class of a tuple type: each position
    under its index, and under [T] the union of all positions; all are
    pending conversions at the root node. *)
Definition tuple_slots (ts : list pytd.Type_) (subst : Subst)
    : list (param_name * lazy_item) :=
  imap (fun i t => (PIndex i, LazyItem (Type_ t) subst (root cv))) ts
  ++ [(T, LazyItem (Type_ (pytd.UnionType ts)) subst (root cv))].

Lemma lazy_tuple_slots ts subst :
  lazy_type_parameters cv (map PIndex (seq 0 (length ts)) ++ [T])
                       (map Type_ ts ++ [Type_ (pytd.UnionType ts)]) subst
  = tuple_slots ts subst.
Proof.
  unfold lazy_type_parameters, tuple_slots. rewrite imap_app. f_equal.
  - apply list_eq. intros i. rewrite !list_lookup_imap.
    change (map PIndex (seq 0 (length ts))) with (PIndex <$> seq 0 (length ts)).
    change (map Type_ ts) with (Type_ <$> ts).
    rewrite list_lookup_fmap.
    destruct (decide (i < length ts)) as [Hlt | Hge].
    + rewrite lookup_seq_lt by done. simpl.
      rewrite lookup_app_l by (by rewrite length_fmap).
      rewrite list_lookup_fmap.
      destruct (lookup_lt_is_Some_2 ts i Hlt) as [t Ht]. by rewrite Ht.
    + rewrite (lookup_ge_None_2 ts) by lia.
      rewrite (lookup_ge_None_2 (seq 0 (length ts)))
        by (rewrite length_seq; lia).
      done.
  - simpl. change (map PIndex (seq 0 (length ts))) with (PIndex <$> seq 0 (length ts)).
    change (map Type_ ts) with (Type_ <$> ts).
    rewrite length_fmap, length_seq, Nat.add_0_r.
    rewrite lookup_app_r by (by rewrite length_fmap).
    by rewrite length_fmap, Nat.sub_diag.
Qed.

(** The class of a tuple type whose base class the converter knows. *)
Lemma tuple_class_conversion fuel base bc base_cls ts subst node st :
  class_of ext base = Some bc ->
  constants st (key_of (Class bc)) = Some (Some base_cls) ->
  is_Class base_cls = Datatypes.true ->
  constants st (key_of (Type_ (pytd.GenericType pytd.TupleKind base ts)))
  = None ->
  exists st',
    to_value cv ext (S (S fuel))
             (Type_ (pytd.GenericType pytd.TupleKind base ts)) subst node st
    = Done (Obj (next_id st)
                (ParameterizedClass pytd.TupleKind base_cls
                                    (tuple_slots ts subst))) st'.
Proof.
  intros Hbase Hcached Hclass Hkey. unfold to_value.
  rewrite constant_to_value_miss by done.
  change (_constant_to_value cv ext
            (Type_ (pytd.GenericType pytd.TupleKind base ts)) subst)
    with (generic_to_value cv ext pytd.TupleKind base ts subst).
  unfold generic_to_value. rewrite Hbase, exec_bind. simpl.
  cache.
  destruct (constant_key_eq_dec _ _) as [E | _];
    [by apply key_of_inj in E |].
  rewrite Hcached, Hclass. simpl.
  replace (length (map Type_ ts ++ [Type_ (pytd.UnionType ts)])
           <=? length (map PIndex (seq 0 (length ts)) ++ [T]))
    with Datatypes.true.
  2: { symmetry. apply Nat.leb_le.
       rewrite !length_app, !length_map, length_seq. done. }
  rewrite orb_true_r, lazy_tuple_slots. simpl. eauto.
Qed.

(** Converting the [ClassType] of one known position keeps the other
    positions known. *)
Lemma class_known_after positions pos st st' :
  Forall (class_known st) positions ->
  class_known st pos ->
  (forall k, k <> key_of (Type_ (position_type pos)) ->
             constants st' k = constants st k) ->
  constants st' (key_of (Type_ (position_type pos)))
  = Some (Some (p_class pos)) ->
  Forall (class_known st') positions.
Proof.
  intros Hall (Hcls & Hdecl & _) Hframe Hnew.
  eapply Forall_impl; [exact Hall |].
  intros pos' (Hcls' & Hdecl' & Htype'). split; [done |]. split.
  - rewrite Hframe; [done |]. intros E. by apply key_of_inj in E.
  - destruct (decide (p_name pos' = p_name pos)) as [Heq | Hne].
    + right. unfold position_type in Hnew. rewrite Heq, Hnew.
      rewrite Heq, Hcls in Hcls'. injection Hcls' as Hc.
      rewrite <- Hc, Hdecl in Hdecl'. done.
    + rewrite Hframe; [done |]. intros E. apply key_of_inj in E.
      injection E as E. done.
Qed.

(** The slot [T] of a tuple class, once read: the union of the classes
    of the positions. *)
Lemma union_slot_conversion fuel positions subst node st :
  Forall (class_known st) positions ->
  2 <= length positions ->
  constants st (key_of (Type_ (pytd.UnionType
                                 (map position_type positions)))) = None ->
  exists oid st',
    to_value cv ext (S (S (S fuel)))
             (Type_ (pytd.UnionType (map position_type positions)))
             subst node st
    = Done (Obj oid (Union (map p_class positions))) st'.
Proof.
  intros Hknown Hlen Hkey. unfold to_value.
  rewrite constant_to_value_miss by done.
  set (U := pytd.UnionType (map position_type positions)) in *.
  set (call := fun p s n =>
         constant_to_value cv (_constant_to_value cv ext) (S (S fuel))
                           p s (Some n)).
  change (_constant_to_value cv ext (Type_ U) subst)
    with (do options <-
            mapM (fun t => call_constant_to_value (Type_ t) subst (root cv))
                 (map position_type positions);
          match options with
          | [] => Raise IndexError
          | [o] => Ret o
          | _ => new (Union options)
          end).
  rewrite exec_bind.
  destruct (exec_mapM call (or_root cv node)
              (fun t => call_constant_to_value (Type_ t) subst (root cv))
              (fun st => Forall (class_known st) positions)
              (map position_type positions) (map p_class positions))
    with (need := Datatypes.false) (st := set_constant (key_of (Type_ U)) None st)
    as (need' & st1 & -> & _).
  - apply Forall2_fmap, Forall_Forall2_diag, Forall_forall.
    intros pos Hpos need st2 Hst2.
    assert (class_known st2 pos) as Hpos2
      by (eapply Forall_forall in Hst2; done).
    destruct (class_type_conversion fuel pos subst (Some (root cv)) st2 Hpos2)
      as (st3 & Hrun & Hframe & Hnew & _).
    simpl. unfold call. unfold to_value in Hrun. rewrite Hrun. simpl.
    exists need, st3. split; [done |].
    by eapply class_known_after.
  - eapply Forall_impl; [exact Hknown |].
    intros pos (Hcls & Hdecl & Htype). split; [done |].
    split; cache; destruct (constant_key_eq_dec _ _) as [E | _];
      try (by apply key_of_inj in E); done.
  - destruct positions as [| p1 [| p2 rest]]; simpl in Hlen; try lia.
    simpl. destruct (negb need' || _); eauto.
Qed.

(** No operation on the cache of the other keys or on the log touches
    the freshness of wrappers; a new identity keeps it. *)
Lemma fresh_wrappers_step st tag n :
  fresh_wrappers st ->
  tag < S (S (next_id st)) ->
  fresh_wrappers
    (set_constant (key_of (AsInstance tag (Type_ (pytd.ClassType n))))
       (Some (unsolvable cv))
       (bump (bump st)))
  /\ forall e,
      fresh_wrappers
        (set_constant (key_of (AsInstance tag (Type_ (pytd.ClassType n)))) e
           (set_constant (key_of (AsInstance tag (Type_ (pytd.ClassType n))))
              None (bump (bump st)))).
Proof.
  intros Hfresh Htag.
  split; [| intros e]; intros tag' n' Hle; simpl in Hle; cache;
    repeat (destruct (constant_key_eq_dec _ _) as [E | _];
            [apply key_of_inj in E; injection E as E _; lia |]);
    apply Hfresh; lia.
Qed.

(** One element of the content of a tuple instance: the variable of the
    instance of the position, bound at the node of the call. *)
Lemma tuple_element fuel positions pos subst node need st :
  Forall (instance_known st) positions -> fresh_wrappers st ->
  instance_known st pos ->
  exists need' st',
    exec (fun p s n =>
            constant_to_value cv (_constant_to_value cv ext) (S fuel)
                              p s (Some n))
         node
         (do wrapped <- AsInstance_ (Type_ (position_type pos));
          do node <- get_node;
          constant_to_var cv wrapped subst (Some node) [] Datatypes.false)
         need st
    = Done (to_variable (p_instance pos) node, need') st'
    /\ (Forall (instance_known st') positions /\ fresh_wrappers st').
Proof.
  intros Hall Hfresh (Hcls & Hinst).
  remember (fun p s n =>
              constant_to_value cv (_constant_to_value cv ext) (S fuel)
                                p s (Some n)) as call eqn:Hcall.
  simpl. subst call. cbv beta.
  pose proof (cached_instance fuel (S (next_id st))
                (Type_ (position_type pos)) (p_decl pos) (p_instance pos)
                subst (Some node) (bump (bump st))) as Hrun.
  unfold to_value in Hrun. rewrite Hrun; clear Hrun.
  - simpl. eexists _, _. split; [reflexivity |]. split.
    + eapply Forall_impl; [exact Hall |]. by intros pos' (? & ?).
    + apply fresh_wrappers_step; [done | lia].
  - right. by exists (p_name pos).
  - cache. apply Hfresh. lia.
  - by cache.
Qed.

(** The instance of a tuple type: its content holds, position by
    position, the instance of the class of the position. *)
Lemma tuple_instance_conversion
    fuel base bc positions tag subst node st :
  class_of ext base = Some bc ->
  pytd.name bc <> "__builtin__.type" ->
  Forall (instance_known st) positions -> fresh_wrappers st ->
  constants st (key_of (AsInstance tag (Type_ (tuple_type base positions))))
  = None ->
  exists oid st',
    to_value cv ext (S (S fuel))
             (AsInstance tag (Type_ (tuple_type base positions)))
             subst (Some node) st
    = Done (Obj oid
              (Tuple (map (fun pos => to_variable (p_instance pos) node)
                          positions))) st'.
Proof.
  intros Hbase Hname Hknown Hfresh Hkey. unfold to_value.
  rewrite constant_to_value_miss by done.
  set (call := fun p s n =>
         constant_to_value cv (_constant_to_value cv ext) (S fuel)
                           p s (Some n)).
  set (key := key_of (AsInstance tag (Type_ (tuple_type base positions)))).
  change (_constant_to_value cv ext
            (AsInstance tag (Type_ (tuple_type base positions))) subst)
    with (as_instance_to_value cv ext (Type_ (tuple_type base positions))
                               subst).
  unfold as_instance_to_value, tuple_type. rewrite Hbase.
  replace (String.eqb (pytd.name bc) "__builtin__.type")
    with Datatypes.false by (symmetry; by apply String.eqb_neq).
  rewrite exec_bind.
  destruct (exec_mapM call (or_root cv (Some node))
              (fun p =>
                 do wrapped <- AsInstance_ (Type_ p);
                 do node <- get_node;
                 constant_to_var cv wrapped subst (Some node) []
                                 Datatypes.false)
              (fun st => Forall (instance_known st) positions
                         /\ fresh_wrappers st)
              (map position_type positions)
              (map (fun pos => to_variable (p_instance pos) node)
                   positions))
    with (need := Datatypes.false) (st := set_constant key None st)
    as (need' & st1 & -> & _).
  - apply Forall2_fmap, Forall_Forall2_diag, Forall_forall.
    intros pos Hpos need st2 (Hst2 & Hfresh2).
    apply (tuple_element fuel positions pos subst node need st2);
      [done | done |].
    eapply Forall_forall in Hst2; done.
  - split.
    + eapply Forall_impl; [exact Hknown |]. by intros pos (? & ?).
    + intros tag' n' Hle. cache.
      destruct (constant_key_eq_dec _ _) as [E | _];
        [by apply key_of_inj in E |].
      by apply Hfresh.
  - simpl. destruct (negb need' || _); eauto.
Qed.

(** C8.  Take a tuple type over two or more positions whose classes and
    instances the converter holds, as it does for [str] and [int] after
    [__init__].  Its class representation is a tuple class over the base
    class whose type parameters are, for every position, the class type
    declared at that position under the index of the position, and under
    [T] the union of the types of all positions.  Read, the parameter of
    a position is the class of that position, and [T] is the union of the
    classes of all positions.  Its instance representation is a tuple
    whose content holds, position by position, the instance of the class
    of the position. *)
Theorem heterogeneous_tuple
    fuel base bc base_cls positions subst st :
  class_of ext base = Some bc ->
  pytd.name bc <> "__builtin__.type" ->
  constants st (key_of (Class bc)) = Some (Some base_cls) ->
  is_Class base_cls = Datatypes.true ->
  Forall (class_known st) positions ->
  Forall (instance_known st) positions ->
  fresh_wrappers st ->
  2 <= length positions ->
  (forall node,
     constants st (key_of (Type_ (tuple_type base positions))) = None ->
     exists st',
       to_value cv ext (S (S fuel)) (Type_ (tuple_type base positions))
                subst node st
       = Done (Obj (next_id st)
                   (ParameterizedClass
                      pytd.TupleKind base_cls
                      (imap (fun i pos =>
                               (PIndex i,
                                LazyItem (Type_ (position_type pos)) subst
                                         (root cv)))
                            positions
                       ++ [(T,
                            LazyItem
                              (Type_ (pytd.UnionType
                                        (map position_type positions)))
                              subst (root cv))]))) st')
  /\ (forall pos,
       pos ∈ positions ->
       exists st',
         lazy_get cv ext (S (S fuel))
                  (LazyItem (Type_ (position_type pos)) subst (root cv)) st
         = Done (p_class pos) st')
  /\ (constants st (key_of (Type_ (pytd.UnionType
                                    (map position_type positions))))
      = None ->
      exists oid st',
        lazy_get cv ext (S (S (S fuel)))
                 (LazyItem (Type_ (pytd.UnionType
                                     (map position_type positions)))
                           subst (root cv)) st
        = Done (Obj oid (Union (map p_class positions))) st')
  /\ (forall tag node,
       constants st (key_of (AsInstance tag
                               (Type_ (tuple_type base positions))))
       = None ->
       exists oid st',
         to_value cv ext (S (S fuel))
                  (AsInstance tag (Type_ (tuple_type base positions)))
                  subst (Some node) st
         = Done (Obj oid
                   (Tuple (map (fun pos =>
                                  to_variable (p_instance pos) node)
                               positions))) st').
Proof.
  intros Hbase Hname Hcached Hclass Hclasses Hinstances Hfresh Hlen.
  split; [| split; [| split]].
  - intros node Hkey.
    destruct (tuple_class_conversion fuel base bc base_cls
                (map position_type positions) subst node st
                Hbase Hcached Hclass Hkey) as (st' & Hrun).
    exists st'. unfold tuple_type. rewrite Hrun. unfold tuple_slots.
    change (map position_type positions)
      with (position_type <$> positions).
    by rewrite imap_fmap.
  - intros pos Hpos. unfold lazy_get.
    assert (class_known st pos) as Hknown
      by (eapply Forall_forall in Hclasses; done).
    destruct (class_type_conversion fuel pos subst (Some (root cv)) st
                Hknown) as (st' & Hrun & _).
    eauto.
  - intros Hkey. unfold lazy_get. by apply union_slot_conversion.
  - intros tag node Hkey.
    by eapply tuple_instance_conversion.
Qed.

End tuples.

(** *** The cache across calls *)

Section cache_across_calls.

Variable cv : Converter.
Variable body : PyVal -> Subst -> prog value.


(** X2.  A conversion that misses the cache and ends with an exception does
    not take its sentinel back: the key keeps the sentinel, or the wildcard a
    re-entrant call put there.  So every later conversion of that constant
    returns the wildcard [unsolvable] instead of raising again. *)
Theorem failed_conversion_leaves_the_wildcard
    fuel pyval subst node st e st' :
  constants st (key_of pyval) = None ->
  constant_to_value cv body fuel pyval subst node st = Raised e st' ->
  (constants st' (key_of pyval) = Some None
   \/ constants st' (key_of pyval) = Some (Some (unsolvable cv)))
  /\ forall st'' fuel' subst' node',
       evolves cv st' st'' ->
       exists st3,
         constant_to_value cv body (S fuel') pyval subst' node' st''
         = Done (unsolvable cv) st3.
Proof.
  intros Hmiss Hrun.
  assert (constants st' (key_of pyval) = Some None
          \/ constants st' (key_of pyval) = Some (Some (unsolvable cv)))
    as Hkey.
  { destruct fuel as [| fuel]; [done |].
    rewrite constant_to_value_miss in Hrun by done.
    destruct (exec _ _ _ _ _) as [[value need] st2 | e2 st2 |] eqn:Hexec;
      [by destruct (_ || _) | | done].
    injection Hrun as <- <-.
    eapply stale_key_evolves.
    - eapply exec_evolves; [| by rewrite Hexec].
      intros p s n st1 st1'. apply constant_to_value_evolves.
    - left. apply constants_set_eq. }
  split; [exact Hkey |].
  intros st'' fuel' subst' node' Hev.
  apply stale_key_gives_wildcard. by eapply stale_key_evolves.
Qed.

(** X3.  However a conversion ends, with a value or with an exception, every
    value the cache held before is still there under its key, the instances
    and unknowns kept under the other keys too, no object identity is handed
    out twice and the error log has only grown. *)
Theorem conversion_keeps_what_is_cached fuel pyval subst node st st' :
  final (constant_to_value cv body fuel pyval subst node st) = Some st' ->
  (forall k v, constants st k = Some (Some v) ->
               constants st' k = Some (Some v))
  /\ (forall k v, others st k = Some v -> others st' k = Some v)
  /\ next_id st <= next_id st'
  /\ exists l, errorlog st' = errorlog st ++ l.
Proof.
  intros Hrun.
  destruct (constant_to_value_evolves cv body fuel pyval subst node st st'
              Hrun) as (Hconstants & Hothers & Hid & Hlog).
  split; [| done].
  intros k v Hk. by destruct (Hconstants _ _ Hk) as [H | [H _]].
Qed.

End cache_across_calls.

(** *** Unknowns and optional values *)

Section unknowns_and_optionals.

Variable cv : Converter.
Variable ext : Externals.

(** [x in options]: an element that is [x] itself or equal to it. *)
Definition contains (value_eqb : value -> value -> bool)
    (options : list value) (x : value) : bool :=
  existsb (fun o => Nat.eqb (oid o) (oid x) || value_eqb o x) options.

(** [Converter.optionalize], lines 263-269; [value_eqb] is the [==] of
    [abstract.py]. *)
Definition optionalize (value_eqb : value -> value -> bool) (v : value)
    : prog value :=
  match desc_of v with
  | Union options =>
      if contains value_eqb options (none_type cv) then Ret v
      else new (Union [v; none_type cv])
  | _ => new (Union [v; none_type cv])
  end.


(** X5.  [optionalize] is idempotent: the value it returns is optional
    already, so optionalizing it again returns it as it is and creates no
    further union. *)
Theorem optionalize_is_idempotent value_eqb call node v need st u need1 st1 :
  exec call node (optionalize value_eqb v) need st = Done (u, need1) st1 ->
  forall need2 st2,
    exec call node (optionalize value_eqb u) need2 st2 = Done (u, need2) st2.
Proof.
  intros Hrun need2 st2.
  assert (exists options,
            desc_of u = Union options
            /\ contains value_eqb options (none_type cv) = Datatypes.true)
    as (options & Hu & Hin).
  { assert (forall w, u = Obj (next_id st) (Union [w; none_type cv]) ->
              exists options,
                desc_of u = Union options
                /\ contains value_eqb options (none_type cv)
                   = Datatypes.true) as Hnew.
    { intros w ->. eexists. split; [reflexivity |].
      unfold contains. simpl. by rewrite Nat.eqb_refl, orb_true_r. }
    unfold optionalize in Hrun.
    destruct (desc_of v) eqn:Hv; simpl in Hrun;
      try (injection Hrun as <- _ _; by eapply Hnew).
    destruct (contains value_eqb options (none_type cv)) eqn:Hin;
      simpl in Hrun.
    - injection Hrun as <- _ _. by eexists.
    - injection Hrun as <- _ _. by eapply Hnew. }
  unfold optionalize. by rewrite Hu, Hin.
Qed.

End unknowns_and_optionals.

(** *** A converter after [__init__], with two declarations that inherit
    from each other *)

Module sample.

Definition prim_name (p : prim) : string :=
  match p with
  | p_int => "int" | p_float => "float" | p_str => "str"
  | p_unicode => "unicode" | p_object => "object"
  | p_NoneType => "NoneType" | p_complex => "complex" | p_bool => "bool"
  | p_slice => "slice" | p_CodeType => "code"
  | p_EllipsisType => "ellipsis" | p_ClassType => "classobj"
  | p_super => "super"
  end.

Definition prim_index (p : prim) : nat :=
  match p with
  | p_int => 0 | p_float => 1 | p_str => 2 | p_unicode => 3
  | p_object => 4 | p_NoneType => 5 | p_complex => 6 | p_bool => 7
  | p_slice => 8 | p_CodeType => 9 | p_EllipsisType => 10
  | p_ClassType => 11 | p_super => 12
  end.

(** The declaration of a builtin class without parents. *)
Definition builtin (name : string) (template : list string) : pytd.Class :=
  pytd.mkClass (String.append "__builtin__." name) [] template.

Definition prim_decl (p : prim) : pytd.Class := builtin (prim_name p) [].

Definition prim_class (p : prim) : value :=
  Obj (prim_index p)
      (PyTDClass (prim_name p) (prim_decl p) (Some "__builtin__")).

Definition none0 : value :=
  Obj 13 (AbstractOrConcreteValue PyNone (prim_class p_NoneType)).
Definition ellipsis0 : value :=
  Obj 16 (AbstractOrConcreteValue PyEllipsis (prim_class p_EllipsisType)).

Definition prim_instance (p : prim) : value :=
  match p with
  | p_NoneType => none0
  | p_EllipsisType => ellipsis0
  | _ => Obj (20 + prim_index p) (Instance (prim_class p) [])
  end.

Definition tuple_decl : pytd.Class := builtin "tuple" ["T"].
Definition tuple_class : value :=
  Obj 45 (PyTDClass "tuple" tuple_decl (Some "__builtin__")).

Definition cv0 : Converter :=
  {| root_cfg_node := 0;
     primitive_classes := prim_class;
     none := none0;
     true := Obj 14 (AbstractOrConcreteValue (PyBool Datatypes.true)
                                             (prim_class p_bool));
     false := Obj 15 (AbstractOrConcreteValue (PyBool Datatypes.false)
                                              (prim_class p_bool));
     ellipsis := ellipsis0;
     primitive_class_instances := prim_instance;
     object_type := Obj 40 Object;
     module_type :=
       Obj 41 (PyTDClass "ModuleType" (pytd.mkClass "types.ModuleType" [] [])
                         (Some "types"));
     list_type :=
       Obj 46 (PyTDClass "list" (builtin "list" ["T"]) (Some "__builtin__"));
     nothing := Obj 42 Nothing;
     unsolvable := Obj 43 Unsolvable;
     empty := Obj 44 Empty |}.

(** Two classes of a module [a], each the parent of the other. *)
Definition class_A : pytd.Class :=
  pytd.mkClass "a.A" [pytd.ClassType "a.B"] [].
Definition class_B : pytd.Class :=
  pytd.mkClass "a.B" [pytd.ClassType "a.A"] [].

Definition declarations : list pytd.Class :=
  map prim_decl all_prims ++ [tuple_decl; class_A; class_B].

Definition find_class (name : string) : option pytd.Class :=
  List.find (fun c => String.eqb (pytd.name c) name) declarations.

(** The code outside the converter.  The constructor of a declared class
    converts the parents of the class, which computing its
    method-resolution order needs, and succeeds. *)
Definition ext0 : Externals :=
  {| lookup_builtin := fun name => Class <$> find_class name;
     class_of := find_class;
     function_of := fun name => pytd.mkFunction name [] "method"
                                  Datatypes.false Datatypes.false;
     PyTDClass_init := fun _ c =>
       do _ <- mapM (fun parent =>
                       call_constant_to_value (Type_ parent) [] 0)
                    (pytd.parents c);
       Ret None;
     PyTDSignature_init := fun _ _ => Ret tt;
     merge_values := fun vs =>
       match vs with
       | [] => Ret (empty cv0)
       | [v] => Ret v
       | _ => new (Union vs)
       end;
     get_class_data := fun _ _ => [];
     f_globals_data := fun _ => None;
     is_type_new := fun _ => Datatypes.false;
     JoinTypes := fun ts =>
       match ts with
       | [] => pytd.NothingType
       | [t] => t
       | _ => pytd.UnionType ts
       end;
     cache_unknowns := Datatypes.true;
     frame_current_opcode := None |}.

(** A converter that has converted nothing yet. *)
Definition blank : state :=
  mkState [] [] 100 [].

(** The cache as [__init__] leaves it: the primitive classes and the
    tuple class under their declarations, the primitive instances under
    [(abstract.Instance, declaration)]. *)
Definition st0 : state :=
  fold_right
    (fun p st =>
       set_other (InstanceKey (prim_decl p)) (prim_instance p)
         (set_constant (key_of (Class (prim_decl p)))
                       (Some (prim_class p)) st))
    (set_constant (key_of (Class tuple_decl)) (Some tuple_class) blank)
    all_prims.

(** [Tuple[str, int]] *)
Definition tuple_str_int : pytd.Type_ :=
  pytd.GenericType pytd.TupleKind "__builtin__.tuple"
    [pytd.ClassType "__builtin__.str"; pytd.ClassType "__builtin__.int"].

(** The declarations of the module [a] and the types that name them. *)
Definition module_a : list PyVal :=
  [Class class_A; Class class_B;
   Type_ (pytd.ClassType "a.A"); Type_ (pytd.ClassType "a.B")].

Lemma module_a_closed p subst :
  In p module_a ->
  calls_in module_a value (_constant_to_value cv0 ext0 p subst).
Proof.
  intros [<- | [<- | [<- | [<- | []]]]]; cbv;
    repeat first
      [ apply ci_Ret
      | apply ci_ConstantToValue; [simpl; tauto | intros ?]
      | apply ci_NewObject; intros ? ].
Qed.

(** Converting the class [A], which inherits from [B], which inherits
    from [A]: the conversion ends and reports the recursion; its result
    is the class [A], not the wildcard, and the class is what the cache
    then holds. *)
Lemma cyclic_class_converts_to_a_class :
  exists v st',
    to_value cv0 ext0 10 (Class class_A) [] None st0 = Done v st'
    /\ errorlog st' = [recursion_error "a.A"]
    /\ desc_of v = PyTDClass "A" class_A (Some "a")
    /\ v <> unsolvable cv0
    /\ constants st' (key_of (Class class_A)) = Some (Some v).
Proof.
  eexists _, _. split; [vm_compute; reflexivity |].
  split; [reflexivity |]. split; [reflexivity |].
  split; [discriminate | vm_compute; reflexivity].
Qed.

Lemma recursion_guard_witness :
  In (Class class_A) module_a
  /\ to_value cv0 ext0 5 (Class class_A) [] None st0 <> OutOfFuel
  /\ to_value cv0 ext0 1 (Class class_A) [] None
              (set_constant (key_of (Class class_A)) None st0)
     = Done (unsolvable cv0)
         (set_constant (key_of (Class class_A)) (Some (unsolvable cv0))
            (report (recursion_error "a.A")
               (set_constant (key_of (Class class_A)) None st0))).
Proof.
  assert (In (Class class_A) module_a) as Hin by (simpl; tauto).
  split; [exact Hin |].
  split.
  - apply (recursion_guard cv0 ext0 module_a module_a_closed
             (Class class_A) [] None st0 Hin).
    vm_compute. lia.
  - apply (recursion_guard cv0 ext0 module_a module_a_closed
             (Class class_A) [] None
             (set_constant (key_of (Class class_A)) None st0) Hin).
    vm_compute. reflexivity.
Defined.

(** An instance of [Tuple[str, int]]. *)
Definition tuple_instance : PyVal := AsInstance 7 (Type_ tuple_str_int).

Lemma value_built_on_a_node_is_not_cached_witness :
  exists value st',
    constants st0 (key_of tuple_instance) = None
    /\ constant_to_value cv0 (_constant_to_value cv0 ext0) 10
                         tuple_instance [] (Some 5) st0
       = Done value st'
    /\ asks (fun p s n =>
               constant_to_value cv0 (_constant_to_value cv0 ext0) 9
                                 p s (Some n))
            (or_root cv0 (Some 5))
            (_constant_to_value cv0 ext0 tuple_instance [])
            (set_constant (key_of tuple_instance) None st0)
       = Datatypes.true
    /\ constants st' (key_of tuple_instance) = Some None
    /\ forall st'' fuel' subst' node',
         evolves cv0 st' st'' ->
         exists st3,
           constant_to_value cv0 (_constant_to_value cv0 ext0) (S fuel')
                             tuple_instance subst' node' st''
           = Done (unsolvable cv0) st3.
Proof.
  eexists _, _.
  split; [vm_compute; reflexivity |].
  split; [vm_compute; reflexivity |].
  split; [vm_compute; reflexivity |].
  split; [vm_compute; reflexivity |].
  pose proof (value_built_on_a_node_is_not_cached
                cv0 (_constant_to_value cv0 ext0) 9 tuple_instance []
                (Some 5) st0 _ _
                ltac:(vm_compute; reflexivity)
                ltac:(vm_compute; reflexivity)) as H.
  cbv zeta in H. destruct H as (st2 & _ & H).
  match type of H with
  | if ?c then _ else _ =>
      replace c with Datatypes.false in H by (vm_compute; reflexivity)
  end.
  destruct H as (_ & _ & H). exact H.
Defined.

(** The instance of [Tuple[str, int]] converted on node 5 and then once
    more: the first conversion asks for the node and leaves the sentinel
    behind; the second reports a recursion and gives the wildcard. *)
Lemma second_conversion_on_a_node :
  exists content st1 st2,
    to_value cv0 ext0 10 tuple_instance [] (Some 5) st0
    = Done (Obj 104 (Tuple content)) st1
    /\ constants st1 (key_of tuple_instance) = Some None
    /\ to_value cv0 ext0 10 tuple_instance [] (Some 5) st1
       = Done (unsolvable cv0) st2
    /\ errorlog st2 = [recursion_error "AsInstance"].
Proof.
  eexists _, _, _. split; [vm_compute; reflexivity |].
  split; [vm_compute; reflexivity |].
  split; vm_compute; reflexivity.
Qed.

Definition int_wrapper1 : PyVal := AsInstance 1 (Class (prim_decl p_int)).

Definition st1 : state :=
  set_constant (key_of int_wrapper1) (Some (prim_instance p_int))
               (set_constant (key_of int_wrapper1) None st0).


Lemma blank_integer_entries :
  entries_ok is_integer (converted_integer cv0) blank.
Proof. intros p e _ H. discriminate H. Defined.

Lemma small_integers_keep_their_value_witness :
  entries_ok is_integer (converted_integer cv0) blank
  /\ (exists v st',
        to_value cv0 ext0 1 (PyInt 12) [] (Some 5) blank = Done v st'
        /\ desc_of v = AbstractOrConcreteValue (PyInt 12) (int_type cv0))
  /\ (exists st',
        to_value cv0 ext0 1 (PyInt 13) [] (Some 5) blank
        = Done (prim_instance p_int) st')
  /\ (exists st',
        to_value cv0 ext0 1 (PyLong 5) [] (Some 5) blank
        = Done (prim_instance p_int) st').
Proof.
  split; [exact blank_integer_entries |].
  destruct (small_integers_keep_their_value cv0 ext0 0 [] (Some 5) blank
              blank_integer_entries) as (Hsmall & Hlarge & Hlong).
  split; [apply Hsmall; unfold MAX_IMPORT_DEPTH; lia |].
  split; [apply Hlarge; unfold MAX_IMPORT_DEPTH; lia | apply Hlong].
Defined.

(** The positions of [Tuple[str, int]]. *)
Definition position_of (p : prim) : position :=
  mkPosition (pytd.name (prim_decl p)) (prim_decl p) (prim_class p)
             (prim_instance p).

Definition str_int : list position := [position_of p_str; position_of p_int].

Lemma st0_fresh_wrappers : fresh_wrappers st0.
Proof. intros tag n _. vm_compute. reflexivity. Defined.

Lemma st0_class_known : Forall (class_known ext0 st0) str_int.
Proof.
  repeat constructor; try (vm_compute; reflexivity);
    left; vm_compute; reflexivity.
Defined.

Lemma st0_instance_known : Forall (instance_known ext0 st0) str_int.
Proof. repeat constructor; vm_compute; reflexivity. Defined.

Lemma heterogeneous_tuple_witness :
  (exists st',
     to_value cv0 ext0 2 (Type_ tuple_str_int) [] (Some 0) st0
     = Done (Obj 100
               (ParameterizedClass
                  pytd.TupleKind tuple_class
                  [(PIndex 0,
                    LazyItem (Type_ (pytd.ClassType "__builtin__.str")) [] 0);
                   (PIndex 1,
                    LazyItem (Type_ (pytd.ClassType "__builtin__.int")) [] 0);
                   (T,
                    LazyItem
                      (Type_ (pytd.UnionType
                                [pytd.ClassType "__builtin__.str";
                                 pytd.ClassType "__builtin__.int"]))
                      [] 0)])) st')
  /\ (exists oid st',
        lazy_get cv0 ext0 3
                 (LazyItem
                    (Type_ (pytd.UnionType
                              [pytd.ClassType "__builtin__.str";
                               pytd.ClassType "__builtin__.int"])) [] 0)
                 st0
        = Done (Obj oid (Union [prim_class p_str; prim_class p_int])) st')
  /\ (exists oid st',
        to_value cv0 ext0 2 tuple_instance [] (Some 5) st0
        = Done (Obj oid
                  (Tuple [to_variable (prim_instance p_str) 5;
                          to_variable (prim_instance p_int) 5])) st').
Proof.
  destruct (heterogeneous_tuple cv0 ext0 0 "__builtin__.tuple" tuple_decl
              tuple_class str_int [] st0)
    as (Hclass & _ & Hunion & Hinstance).
  - vm_compute; reflexivity.
  - discriminate.
  - vm_compute; reflexivity.
  - reflexivity.
  - exact st0_class_known.
  - exact st0_instance_known.
  - exact st0_fresh_wrappers.
  - simpl; lia.
  - split; [| split].
    + apply (Hclass (Some 0)). vm_compute; reflexivity.
    + apply Hunion. vm_compute; reflexivity.
    + apply (Hinstance 7 5). vm_compute; reflexivity.
Defined.

(** *** The cache across calls, unknowns and optionals *)


(** A set is no constant the converter knows. *)
Definition a_set : PyVal := PyOther "set" 1.

Lemma failed_conversion_leaves_the_wildcard_witness :
  exists st',
    to_value cv0 ext0 3 a_set [] None st0
    = Raised (NotImplementedError (t_other "set")) st'
    /\ exists st3,
         to_value cv0 ext0 1 a_set [] (Some 4) st' = Done (unsolvable cv0) st3.
Proof.
  eexists. split; [vm_compute; reflexivity |].
  edestruct (failed_conversion_leaves_the_wildcard
               cv0 (_constant_to_value cv0 ext0) 3 a_set [] None st0)
    as [_ Hlater].
  { vm_compute. reflexivity. }
  { vm_compute. reflexivity. }
  apply Hlater. apply evolves_refl.
Defined.

Lemma conversion_keeps_what_is_cached_witness :
  exists st',
    final (to_value cv0 ext0 5 (Class class_A) [] None st0) = Some st'
    /\ (forall k v, constants st0 k = Some (Some v) ->
                    constants st' k = Some (Some v))
    /\ next_id st0 <= next_id st'.
Proof.
  eexists. split; [vm_compute; reflexivity |].
  edestruct (conversion_keeps_what_is_cached
               cv0 (_constant_to_value cv0 ext0) 5 (Class class_A) [] None
               st0) as (Hconstants & _ & Hid & _).
  { vm_compute. reflexivity. }
  split; [exact Hconstants | exact Hid].
Defined.


Definition no_call (p : PyVal) (s : Subst) (n : cfg_node) (st : state)
    : outcome value := OutOfFuel.


Lemma optionalize_is_idempotent_witness :
  exists u st1,
    exec no_call 0 (optionalize cv0 (fun _ _ => Datatypes.false)
                                (prim_instance p_int))
         Datatypes.false st0
    = Done (u, Datatypes.false) st1
    /\ exec no_call 0 (optionalize cv0 (fun _ _ => Datatypes.false) u)
            Datatypes.false st1
       = Done (u, Datatypes.false) st1.
Proof.
  eexists _, _. split; [vm_compute; reflexivity |].
  eapply (optionalize_is_idempotent
            cv0 (fun _ _ => Datatypes.false) no_call 0 (prim_instance p_int)
            Datatypes.false st0).
  vm_compute. reflexivity.
Defined.

End sample.

End convert.

(** ** The virtual machine ([vm.py]): operators, calls, unpacking, frames *)

Module vm.

Import abstract cfg.

(** The two exceptions a call signals failure with.  Modelled from the
    spec: their classes are in [abstract.py]; a failed call is identified
    by a number. *)
Inductive call_error :=
| FailedFunctionCall (id : nat)
| DictKeyMissing (name : string).

Inductive exn :=
| CallError (e : call_error)
| AssertionError (msg : string)
| TypeError (msg : string)
| IndexError
| VirtualMachineError (msg : string)
| RecursionRaised
| OtherException (name : string).

(** [abstract.FunctionArgs] *)
Record FunctionArgs := mkArgs {
  posargs : list variable;
  namedargs : option value;
  starargs : option variable;
  starstarargs : option variable;
}.

(** Messages sent to the error log. *)
Inductive report :=
| key_error (name : string)
| invalid_function_call (error : option call_error)
| none_attr (name : string)
| attribute_error (obj : variable) (attr : string)
| attribute_or_module_error (obj : variable) (attr : string).

(** The calls the machine makes into the attribute handler and into the
    functions it simulates, in the order it makes them. *)
Inductive event :=
| GetAttribute (node : cfg_node) (obj : value) (name : string)
               (valself : binding)
| Call (func : binding) (node : cfg_node) (args : FunctionArgs).

Record state := mkState {
  next_node : cfg_node;
  edges : list (cfg_node * cfg_node);
  next_id : nat;
  errorlog : list report;
  trace : list event;
}.

Inductive result (A : Type) : Type :=
| Ok (a : A)
| Error (e : exn).

Arguments Ok {A} a.
Arguments Error {A} e.

(** A computation of the machine: it reads and changes the state, and
    returns or raises. *)
Definition M (A : Type) : Type := state -> result A * state.

Definition ret {A : Type} (a : A) : M A := fun st => (Ok a, st).
Definition raise {A : Type} (e : exn) : M A := fun st => (Error e, st).
Definition bind {A B : Type} (m : M A) (f : A -> M B) : M B :=
  fun st =>
    match m st with
    | (Ok a, st') => f a st'
    | (Error e, st') => (Error e, st')
    end.

Notation "'let*' x ':=' m 'in' f" := (bind m (fun x => f))
  (at level 10, x name, m at level 100, f at level 200).

Definition log (e : event) : M unit :=
  fun st => (Ok tt, mkState (next_node st) (edges st) (next_id st)
                            (errorlog st) (trace st ++ [e])).

Definition errorlog_add (r : report) : M unit :=
  fun st => (Ok tt, mkState (next_node st) (edges st) (next_id st)
                            (errorlog st ++ [r]) (trace st)).

(** A new node of the graph with edges from [nodes]. *)
Definition NewCFGNode (nodes : list cfg_node) : M cfg_node :=
  fun st => (Ok (next_node st),
             mkState (S (next_node st))
                     (edges st ++ map (fun n => (n, next_node st)) nodes)
                     (next_id st) (errorlog st) (trace st)).

(** A new abstract value. *)
Definition new (d : desc) : M value :=
  fun st => (Ok (Obj (next_id st) d),
             mkState (next_node st) (edges st) (S (next_id st))
                     (errorlog st) (trace st)).

(** [abstract.AMBIGUOUS_OR_EMPTY]: modelled from the spec, the wildcard
    values (unknown, unsolvable) and the empty sentinel. *)
Definition is_AMBIGUOUS_OR_EMPTY (v : value) : bool :=
  match desc_of v with
  | Unknown | Unsolvable | Empty => Datatypes.true
  | _ => Datatypes.false
  end.

Definition reversable_operators : list string :=
  ["__add__"; "__sub__"; "__mul__"; "__div__"; "__truediv__";
   "__floordiv__"; "__mod__"; "__divmod__"; "__pow__"; "__lshift__";
   "__rshift__"; "__and__"; "__or__"; "__xor__"; "__matmul__"].

(** [VirtualMachine.reverse_operator_name] *)
Definition reverse_operator_name (name : string) : option string :=
  if existsb (String.eqb name) reversable_operators
  then Some (String.append "__r"
               (String.substring 2 (String.length name - 2) name))
  else None.

(** *** Frames *)

(** [vm.Block] *)
Record Block := mkBlock {
  block_type : string;
  block_op : nat;
  handler : option nat;
  level : nat;
}.

(** What a state records as the exception being handled: the three operands
    of a [raise] statement, or the exception of the interpreter itself that
    [run_instruction] caught (its type and its message, no traceback). *)
Inductive exc_info :=
| ExcInfo (exctype val tb : option variable)
| ByteCodeError (exception_type message : string).

(** Modelled from the spec: [state.py] is not among the sources.  The state
    of a frame at an instruction: the node, the data stack (its top first),
    the block stack, the exception being handled and the reason [why] to
    leave the block. *)
Record FrameState := mkFrameState {
  node : cfg_node;
  data_stack : list variable;
  block_stack : list Block;
  exception : option exc_info;
  why : option string;
}.

(** [FrameState.init(node, vm)] *)
Definition FrameState_init (node : cfg_node) : FrameState :=
  mkFrameState node [] [] None None.

Definition set_why (s : FrameState) (reason : string) : FrameState :=
  mkFrameState (node s) (data_stack s) (block_stack s) (exception s)
               (Some reason).

Definition set_exception (s : FrameState) (exc : exc_info) : FrameState :=
  mkFrameState (node s) (data_stack s) (block_stack s) (Some exc) (why s).

Definition change_cfg_node (s : FrameState) (n : cfg_node) : FrameState :=
  mkFrameState n (data_stack s) (block_stack s) (exception s) (why s).

Definition push (s : FrameState) (v : variable) : FrameState :=
  mkFrameState (node s) (v :: data_stack s) (block_stack s) (exception s)
               (why s).

(** [state.pop()]; an empty stack raises. *)
Definition pop (s : FrameState) : M (FrameState * variable) :=
  match data_stack s with
  | [] => raise IndexError
  | v :: rest =>
      ret (mkFrameState (node s) rest (block_stack s) (exception s) (why s),
           v)
  end.

(** [state.pop_and_discard()] *)
Definition pop_and_discard (s : FrameState) : M FrameState :=
  let* r := pop s in ret (fst r).

(** [state.forward_cfg_node()]: the same state on a new node that follows
    the old one. *)
Definition forward_cfg_node (s : FrameState) : M FrameState :=
  let* n := NewCFGNode [node s] in ret (change_cfg_node s n).

(** [state.merge_into(other)]: without another state, the state itself;
    otherwise the depths of the stacks must agree, the two nodes are joined
    when they differ, and the stacks are merged position by position. *)
Definition merge_into (s : FrameState) (other : option FrameState)
    : M FrameState :=
  match other with
  | None => ret s
  | Some o =>
      if negb (Nat.eqb (length (data_stack s)) (length (data_stack o)))
         || negb (Nat.eqb (length (block_stack s)) (length (block_stack o)))
      then raise (AssertionError "stack depth")
      else
        let* n := if Nat.eqb (node s) (node o) then ret (node o)
                  else NewCFGNode [node o; node s] in
        ret (mkFrameState
               n
               (zip_with (fun a b => PasteVariable a b None [])
                         (data_stack o) (data_stack s))
               (block_stack o) (exception o) (why o))
  end.

(** An instruction ([pyc.opcodes.Opcode]): its position in the code, its
    name and argument, the jump target and the next instruction if any, and
    whether control carries on to the next instruction. *)
Record opcode := mkOpcode {
  index : nat;
  op_name : string;
  arg : nat;
  target : option nat;
  next : option nat;
  carry_on_to_next : bool;
}.

(** A frame ([state.Frame]): the blocks of its code in order, the first
    instruction of the code, the states recorded per instruction, the return
    variable and the expected return type. *)
Record Frame := mkFrame {
  order : list (list opcode);
  co_code_0 : nat;
  states : gmap nat FrameState;
  return_variable : variable;
  allowed_returns : option value;
}.

Definition set_states (frame : Frame) (m : gmap nat FrameState) : Frame :=
  mkFrame (order frame) (co_code_0 frame) m (return_variable frame)
          (allowed_returns frame).

Definition set_return_variable (frame : Frame) (v : variable) : Frame :=
  mkFrame (order frame) (co_code_0 frame) (states frame) v
          (allowed_returns frame).

(** How the function of an instruction ends: with the next state, or by
    raising.  The frame is an object the function changes in place, so the
    endings after which the frame is still run carry it. *)
Inductive ending :=
| Next (s : FrameState) (frame : Frame)
| RecursionException (frame : Frame)
| ByteCodeException (exception_type message : string) (frame : Frame)
| Raises (e : exn).

Definition bytecode := FrameState -> opcode -> Frame -> state -> ending * state.

(** The ending of a function that raises nothing the runner catches. *)
Definition plain (m : M (FrameState * Frame)) : state -> ending * state :=
  fun st =>
    match m st with
    | (Ok (s, frame), st) => (Next s frame, st)
    | (Error e, st) => (Raises e, st)
    end.

Section machine.

(** The converter of the machine. *)
Variable cv : convert.Converter.

(** What [abstract.py], [attribute.py] and [cfg.py] answer; none is
    among the sources. *)
(** [attribute_handler.get_attribute_generic(node, obj, name, valself)] *)
Variable get_attribute_generic :
  cfg_node -> value -> string -> binding -> cfg_node * option variable.
(** [func.call(node, funcv, args)]: a computation of the machine.  It
    returns a node and a variable, or raises: a call error
    ([DictKeyMissing], [FailedFunctionCall]), the [RecursionException] of
    [make_frame] ([RecursionRaised]) or anything else; and it may change the
    machine state (new nodes and objects, messages in the error log). *)
Variable call :
  value -> cfg_node -> binding -> FunctionArgs -> M (cfg_node * variable).
(** [e > error], the ranking of failures *)
Variable error_gt : call_error -> option call_error -> bool.
(** [v.cls], [cls.mro], [cls.is_lazy], [cls.members],
    [cls.members] after [cls.load_lazy_attribute(attr)], [a == b],
    [func.name] *)
Variable cls : value -> option variable.
Variable mro : value -> list value.
Variable is_lazy : value -> bool.
Variable members : value -> list (string * variable).
Variable load_lazy_attribute : value -> string -> list (string * variable).
Variable value_eqb : value -> value -> bool.
Variable name_of : value -> string.
(** Whether a binding is visible at a node ([var.Bindings(node)]), and
    [node.HasCombination(bindings)] *)
Variable visible : cfg_node -> binding -> bool.
Variable HasCombination : cfg_node -> list binding -> bool.

Definition unsolvable : value := convert.unsolvable cv.

(** [var.Bindings(node)] *)
Definition Bindings (var : variable) (node : cfg_node) : list binding :=
  List.filter (visible node) (bindings var).

(** [Converter.create_new_unsolvable] *)
Definition create_new_unsolvable (node : cfg_node) : variable :=
  to_variable unsolvable node.

(** [VirtualMachine.join_cfg_nodes] *)
Definition join_cfg_nodes (nodes : list cfg_node) : M cfg_node :=
  match nodes with
  | [] => raise (AssertionError "nodes")
  | [n] => ret n
  | _ => NewCFGNode nodes
  end.

(** [VirtualMachine._base] *)
Definition _base (c : value) : value :=
  match desc_of c with
  | ParameterizedClass _ base_cls _ => base_cls
  | _ => c
  end.

(** [VirtualMachine._yield_subclass_superclass_pairs] *)
Definition _yield_subclass_superclass_pairs
    (subcls_var supercls_var : option variable) : list (value * value) :=
  match subcls_var, supercls_var with
  | Some subcls_var, Some supercls_var =>
      flat_map
        (fun subcls =>
           flat_map
             (fun supercls =>
                if existsb (fun c => value_eqb c supercls) (mro subcls)
                then [(_base subcls, _base supercls)]
                else [])
             (data supercls_var))
        (data subcls_var)
  | _, _ => []
  end.

(** The inner loop of [_overrides]: the classes of the
    method-resolution order before [supercls]. *)
Fixpoint defined_before (node : cfg_node) (supercls : value)
    (attr : string) (classes : list value) : bool :=
  match classes with
  | [] => Datatypes.false
  | c :: rest =>
      if value_eqb c supercls then Datatypes.false
      else
        let ms := if is_lazy c then load_lazy_attribute c attr
                  else members c in
        match List.find (fun m => String.eqb (fst m) attr) ms with
        | Some (_, var) =>
            match Bindings var node with
            | [] => defined_before node supercls attr rest
            | _ => Datatypes.true
            end
        | None => defined_before node supercls attr rest
        end
  end.

(** [VirtualMachine._overrides] *)
Definition _overrides (node : cfg_node)
    (subcls_var supercls_var : option variable) (attr : string) : bool :=
  existsb (fun '(subcls, supercls) =>
             defined_before node supercls attr (mro subcls))
          (_yield_subclass_superclass_pairs subcls_var supercls_var).

(** [VirtualMachine._call_with_fake_args] *)
Definition _call_with_fake_args (node : cfg_node) (funcu : variable)
    : M (cfg_node * variable) :=
  ret (node, create_new_unsolvable node).

(** The callee run by the machine.  The trace is the record of what the
    functions of the machine themselves look up and call; what a callee
    does inside is not written to it. *)
Definition invoke (func : value) (node : cfg_node) (funcv : binding)
    (args : FunctionArgs) : M (cfg_node * variable) :=
  fun st =>
    let '(r, st') := call func node funcv args st in
    (r, mkState (next_node st') (edges st') (next_id st') (errorlog st')
                (trace st)).

(** One round of the loop of [call_function]: the call of one binding. *)
Definition attempt_call (node : cfg_node) (args : FunctionArgs)
    (funcv : binding) : M (cfg_node * variable) :=
  let* _ := log (Call funcv node args) in
  invoke (binding_data funcv) node funcv args.

(** The loop of [call_function] over the bindings of [funcu],
    lines 931-940: a call error is ranked and kept, any other exception
    leaves the loop. *)
Fixpoint call_bindings (node : cfg_node) (args : FunctionArgs)
    (funcvs : list binding) (result : variable) (nodes : list cfg_node)
    (error : option call_error)
    : M (variable * list cfg_node * option call_error) :=
  match funcvs with
  | [] => ret (result, nodes, error)
  | funcv :: rest =>
      fun st =>
        match attempt_call node args funcv st with
        | (Ok (new_node, one_result), st') =>
            call_bindings node args rest
                          (PasteVariable result one_result (Some new_node)
                                         [funcv])
                          (nodes ++ [new_node]) error st'
        | (Error (CallError e), st') =>
            call_bindings node args rest result nodes
                          (if error_gt e error then Some e else error) st'
        | (Error e, st') => (Error e, st')
        end
  end.

(** [VirtualMachine.call_function], lines 911-963. *)
Definition call_function (node : cfg_node) (funcu : variable)
    (args : FunctionArgs) (fallback_to_unsolvable : bool)
    : M (cfg_node * variable) :=
  match bindings funcu with
  | [] => raise (AssertionError "funcu.bindings")
  | _ =>
      let* called :=
        call_bindings node args (bindings funcu) (mkVariable []) [] None in
      let '(result, nodes, error) := called in
      match nodes with
      | _ :: _ =>
          let* node := join_cfg_nodes nodes in
          ret (node,
               match bindings result with
               | [] => AddBinding result unsolvable [] node
               | _ => result
               end)
      | [] =>
          if fallback_to_unsolvable then
            match error with
            | Some (DictKeyMissing name) =>
                let* _ := errorlog_add (key_error name) in
                ret (node, create_new_unsolvable node)
            | _ =>
                let* _ := errorlog_add (invalid_function_call error) in
                if forallb (fun func => String.eqb (name_of func) "__init__")
                           (data funcu)
                then _call_with_fake_args node funcu
                else ret (node, create_new_unsolvable node)
            end
          else
            match error with
            | Some e => raise (CallError e)
            | None => raise (TypeError "exceptions must derive from BaseException")
            end
      end
  end.

(** The loop of [_call_binop_on_bindings] over the options,
    lines 788-808. *)
Fixpoint try_options (node : cfg_node)
    (options : list (binding * binding * string))
    (error : option call_error) : M (cfg_node * option variable) :=
  match options with
  | [] =>
      match error with
      | Some e => raise (CallError e)
      | None => ret (node, None)
      end
  | (left_val, right_val, attr_name) :: rest =>
      let* _ := log (GetAttribute node (binding_data left_val) attr_name
                                  left_val) in
      let '(node, attr_var) :=
        get_attribute_generic node (binding_data left_val) attr_name
                              left_val in
      match attr_var with
      | Some (mkVariable (b :: bs) as attr_var) =>
          fun st =>
            match call_function
                    node attr_var
                    (mkArgs [AssignToNewVariable right_val None]
                            None None None)
                    Datatypes.false st with
            | (Ok (node', ret_var), st') => (Ok (node', Some ret_var), st')
            | (Error (CallError e), st') =>
                try_options node rest
                            (if error_gt e error then Some e else error)
                            st'
            | (Error e, st') => (Error e, st')
            end
      | _ => try_options node rest error
      end
  end.

(** The options of a binary operator in the order they are tried,
    lines 781-787. *)
Definition binop_options (node : cfg_node) (name : string)
    (xval yval : binding) : list (binding * binding * string) :=
  match reverse_operator_name name with
  | Some rname =>
      if _overrides node (cls (binding_data yval))
                    (cls (binding_data xval)) rname
      then [(yval, xval, rname); (xval, yval, name)]
      else [(xval, yval, name); (yval, xval, rname)]
  | None => [(xval, yval, name)]
  end.

(** [VirtualMachine._call_binop_on_bindings], lines 770-808. *)
Definition _call_binop_on_bindings (node : cfg_node) (name : string)
    (xval yval : binding) : M (cfg_node * option variable) :=
  match reverse_operator_name name with
  | Some _ =>
      if is_AMBIGUOUS_OR_EMPTY (binding_data xval)
      then ret (node, Some (NewVariable [unsolvable] [xval; yval] node))
      else try_options node (binop_options node name xval yval) None
  | None => try_options node (binop_options node name xval yval) None
  end.

(** *** What a run adds to the trace *)

Definition add_trace (evs : list event) (st : state) : state :=
  mkState (next_node st) (edges st) (next_id st) (errorlog st)
          (trace st ++ evs).

Lemma add_trace_nil st : add_trace [] st = st.
Proof. destruct st. unfold add_trace. simpl. by rewrite app_nil_r. Qed.

Lemma add_trace_app evs1 evs2 st :
  add_trace evs2 (add_trace evs1 st) = add_trace (evs1 ++ evs2) st.
Proof. unfold add_trace. simpl. by rewrite app_assoc. Qed.

(** The attribute lookups of a trace: the binding looked into and the
    name looked up. *)
Definition lookups (evs : list event) : list (binding * string) :=
  flat_map (fun e => match e with
                     | GetAttribute _ _ name valself => [(valself, name)]
                     | Call _ _ _ => []
                     end) evs.

Lemma lookups_app evs1 evs2 :
  lookups (evs1 ++ evs2) = lookups evs1 ++ lookups evs2.
Proof. apply flat_map_app. Qed.

Definition calls_of (node : cfg_node) (args : FunctionArgs)
    (funcvs : list binding) : list event :=
  map (fun funcv => Call funcv node args) funcvs.

Lemma lookups_calls_of node args funcvs :
  lookups (calls_of node args funcvs) = [].
Proof. induction funcvs as [| f funcvs IH]; [done | exact IH]. Qed.


(** *** The callees *)

(** How the call of a binding ends when it is made in the state [st]. *)
Definition outcome_of (node : cfg_node) (args : FunctionArgs)
    (funcv : binding) (st : state) : result (cfg_node * variable) :=
  fst (call (binding_data funcv) node funcv args st).

(** The call of a binding raises nothing but a call error. *)
Definition returns_or_fails (node : cfg_node) (args : FunctionArgs)
    (funcv : binding) : Prop :=
  forall st,
    match outcome_of node args funcv st with
    | Ok _ | Error (CallError _) => True
    | Error _ => False
    end.

(** The call of a binding fails: it raises a call error. *)
Definition fails (node : cfg_node) (args : FunctionArgs) (funcv : binding)
    : Prop :=
  forall st, exists e, outcome_of node args funcv st = Error (CallError e).

(** The call of a binding fails with a failed-call error. *)
Definition fails_the_call (node : cfg_node) (args : FunctionArgs)
    (funcv : binding) : Prop :=
  forall st, exists id,
    outcome_of node args funcv st = Error (CallError (FailedFunctionCall id)).

(** The call of a binding returns. *)
Definition returns (node : cfg_node) (args : FunctionArgs) (funcv : binding)
    : Prop :=
  forall st, exists r, outcome_of node args funcv st = Ok r.

(** The machine state after the calls of the bindings, one after the
    other. *)
Fixpoint after_calls (node : cfg_node) (args : FunctionArgs)
    (funcvs : list binding) (st : state) : state :=
  match funcvs with
  | [] => st
  | funcv :: rest =>
      after_calls node args rest (snd (attempt_call node args funcv st))
  end.

(** The failure that [call_function] ranks highest among the call errors
    of these calls. *)
Fixpoint ranked_error (node : cfg_node) (args : FunctionArgs)
    (funcvs : list binding) (error : option call_error) (st : state)
    : option call_error :=
  match funcvs with
  | [] => error
  | funcv :: rest =>
      let '(r, st') := attempt_call node args funcv st in
      ranked_error node args rest
                   match r with
                   | Error (CallError e) =>
                       if error_gt e error then Some e else error
                   | _ => error
                   end st'
  end.

Lemma attempt_call_outcome node args funcv st :
  fst (attempt_call node args funcv st)
  = outcome_of node args funcv (add_trace [Call funcv node args] st)
  /\ trace (snd (attempt_call node args funcv st))
     = trace st ++ [Call funcv node args].
Proof.
  unfold attempt_call, bind, log, invoke, outcome_of, add_trace.
  by destruct (call _ _ _ _ _).
Qed.

Lemma after_calls_trace node args funcvs :
  forall st,
    trace (after_calls node args funcvs st)
    = trace st ++ calls_of node args funcvs.
Proof.
  induction funcvs as [| funcv rest IH]; intros st; simpl.
  - by rewrite app_nil_r.
  - rewrite IH.
    destruct (attempt_call_outcome node args funcv st) as [_ ->].
    by rewrite <- app_assoc.
Qed.

Lemma fails_the_call_fails node args funcv :
  fails_the_call node args funcv -> fails node args funcv.
Proof. intros H st. destruct (H st) as [id Hid]. by eexists. Qed.

Lemma fails_returns_or_fails node args funcv :
  fails node args funcv -> returns_or_fails node args funcv.
Proof. intros H st. destruct (H st) as [e ->]. done. Qed.

(** The loop when no callee raises anything but a call error: every
    binding is called, the errors are ranked, and a call that returns
    gives a node. *)
Lemma call_bindings_spec node args funcvs :
  Forall (returns_or_fails node args) funcvs ->
  forall result nodes error st,
    exists R N,
      call_bindings node args funcvs result nodes error st
      = (Ok (R, N, ranked_error node args funcvs error st),
         after_calls node args funcvs st)
      /\ (nodes <> [] -> N <> [])
      /\ (Forall (fails node args) funcvs -> R = result /\ N = nodes)
      /\ (Exists (returns node args) funcvs -> N <> []).
Proof.
  induction 1 as [| funcv rest Hfuncv _ IH]; intros result nodes error st.
  - exists result, nodes. split; [done |]. split; [done |].
    split; [done |]. intros H. by apply Exists_nil in H.
  - simpl.
    destruct (attempt_call_outcome node args funcv st) as [Hout _].
    specialize (Hfuncv (add_trace [Call funcv node args] st)).
    rewrite <- Hout in Hfuncv.
    destruct (attempt_call node args funcv st) as [r st'] eqn:Hattempt.
    simpl in Hfuncv, Hout.
    destruct r as [[new_node one_result] | e].
    + destruct (IH (PasteVariable result one_result (Some new_node) [funcv])
                   (nodes ++ [new_node]) error st')
        as (R & N & Hrun & Hnodes & _ & _).
      exists R, N. split; [exact Hrun |].
      assert (N <> []) as HN by (apply Hnodes; by destruct nodes).
      split; [done |]. split; [| done].
      intros Hall. apply Forall_cons in Hall as [Hfails _].
      destruct (Hfails (add_trace [Call funcv node args] st)) as [e He].
      congruence.
    + destruct e as [e | | | | | |]; try done.
      destruct (IH result nodes (if error_gt e error then Some e else error)
                   st')
        as (R & N & Hrun & Hnodes & Hfail & Hsome).
      exists R, N. split; [exact Hrun |]. split; [exact Hnodes |].
      split.
      * intros Hall. apply Forall_cons in Hall as [_ Hall]. by apply Hfail.
      * intros Hex. apply Exists_cons in Hex as [Hret | Hex];
          [| by apply Hsome].
        destruct (Hret (add_trace [Call funcv node args] st)) as [r Hr].
        congruence.
Qed.

(** The loop, whatever the callees do: it calls the bindings in their
    order, and all of them unless a callee raises something else than a
    call error. *)
Lemma call_bindings_trace node args funcvs :
  forall result nodes error st,
    exists evs,
      trace (snd (call_bindings node args funcvs result nodes error st))
      = trace st ++ evs
      /\ evs `prefix_of` calls_of node args funcvs
      /\ match fst (call_bindings node args funcvs result nodes error st) with
         | Ok _ => evs = calls_of node args funcvs
         | Error (CallError _) => False
         | Error _ => True
         end.
Proof.
  induction funcvs as [| funcv rest IH]; intros result nodes error st.
  - exists []. simpl. by rewrite app_nil_r.
  - simpl.
    destruct (attempt_call_outcome node args funcv st) as [_ Htrace].
    destruct (attempt_call node args funcv st) as [r st'].
    simpl in Htrace.
    assert (forall result' nodes' error',
              exists evs,
                trace (snd (call_bindings node args rest result' nodes'
                                          error' st'))
                = trace st ++ evs
                /\ evs `prefix_of` Call funcv node args
                                     :: calls_of node args rest
                /\ match fst (call_bindings node args rest result' nodes'
                                            error' st') with
                   | Ok _ => evs = Call funcv node args
                                   :: calls_of node args rest
                   | Error (CallError _) => False
                   | Error _ => True
                   end)
      as Hrest.
    { intros result' nodes' error'.
      destruct (IH result' nodes' error' st') as (evs & Htr & Hpre & Hall).
      exists (Call funcv node args :: evs).
      rewrite Htr, Htrace, <- app_assoc. split; [done |].
      split; [by apply prefix_cons |].
      destruct (fst (call_bindings node args rest result' nodes' error' st'))
        as [r0 | [e0 | | | | | |]]; by try rewrite Hall. }
    destruct r as [[new_node one_result] | e]; [apply Hrest |].
    destruct e as [e | | | | | |]; [apply Hrest | ..];
      (exists [Call funcv node args]; simpl; split; [done |];
       split; [apply prefix_cons, prefix_nil | done]).
Qed.

Lemma lookups_prefix_of_calls node args funcvs evs :
  evs `prefix_of` calls_of node args funcvs -> lookups evs = [].
Proof.
  intros [k Hk].
  pose proof (lookups_calls_of node args funcvs) as H.
  rewrite Hk, lookups_app in H. by apply app_eq_nil in H as [? _].
Qed.

(** A call that returned, or raised a call error. *)
Definition returned_or_failed {A : Type} (r : result A) : Prop :=
  match r with
  | Ok _ | Error (CallError _) => True
  | Error _ => False
  end.

(** [call_function] looks up no attribute: it adds calls to the trace,
    nothing else; the calls are those of the bindings of the callee in their
    order, all of them when it returns or raises a call error. *)
Lemma call_function_trace node funcu args fallback st :
  exists evs,
    trace (snd (call_function node funcu args fallback st))
    = trace st ++ evs
    /\ lookups evs = []
    /\ evs `prefix_of` calls_of node args (bindings funcu)
    /\ (returned_or_failed (fst (call_function node funcu args fallback st))
        -> evs = calls_of node args (bindings funcu)).
Proof.
  unfold call_function.
  destruct (bindings funcu) as [| b bs] eqn:Hb.
  - exists []. simpl. by rewrite app_nil_r.
  - destruct (call_bindings_trace node args (b :: bs) (mkVariable []) [] None
                st) as (evs & Htrace & Hprefix & Hall).
    exists evs.
    assert (lookups evs = []) as Hlookups
      by (by eapply lookups_prefix_of_calls).
    set (m := call_bindings node args (b :: bs) (mkVariable []) [] None)
      in *.
    clearbody m.
    assert (forall k : variable * list cfg_node * option call_error ->
                       M (cfg_node * variable),
              bind m k st
              = match m st with
                | (Ok a, st') => k a st'
                | (Error e, st') => (Error e, st')
                end) as Hbind by done.
    rewrite !Hbind. clear Hbind.
    destruct (m st) as [[[[R N] E] | e] st1]; simpl in Htrace, Hall.
    + match goal with
      | |- trace (snd ?t) = _ /\ _ =>
          assert (trace (snd t) = trace st1) as Hm
      end.
      { destruct N as [| n [| n' ns]]; [| done | done].
        destruct fallback; [| by destruct E].
        destruct E as [[id | name] |]; unfold bind, errorlog_add; simpl;
          try destruct (forallb _ _); done. }
      rewrite Hm. by repeat split.
    + simpl. split; [done |]. split; [done |]. split; [done |].
      by destruct e.
Qed.


(** The binding and the name of an option. *)
Definition attempt (option : binding * binding * string)
    : binding * string :=
  let '(left_val, _, attr_name) := option in (left_val, attr_name).

(** The loop over the options looks the options up in their order,
    beginning with the first, and nothing else. *)
Lemma try_options_trace options :
  forall node error st,
    exists evs,
      trace (snd (try_options node options error st)) = trace st ++ evs
      /\ lookups evs `prefix_of` map attempt options
      /\ head (lookups evs) = head (map attempt options).
Proof.
  induction options as [| [[left_val right_val] attr_name] rest IH];
    intros node error st.
  - exists []. simpl. rewrite app_nil_r. by destruct error.
  - simpl. unfold bind at 1. unfold log.
    set (st1 := mkState _ _ _ _ _).
    assert (trace st1
            = trace st ++ [GetAttribute node (binding_data left_val)
                                        attr_name left_val]) as Hst1
      by done.
    clearbody st1.
    destruct (get_attribute_generic node (binding_data left_val) attr_name
                                    left_val) as [node' attr_var].
    assert (forall error',
              exists evs,
                trace (snd (try_options node' rest error' st1))
                = trace st ++ evs
                /\ lookups evs `prefix_of`
                     (left_val, attr_name) :: map attempt rest
                /\ head (lookups evs) = Some (left_val, attr_name))
      as Hrest.
    { intros error'. destruct (IH node' error' st1) as (evs & Htr & Hpre & _).
      eexists. rewrite Htr, Hst1, <- app_assoc. split; [reflexivity |].
      simpl. split; [by apply prefix_cons | done]. }
    destruct attr_var as [[[| b bs]] |]; [apply Hrest | | apply Hrest].
    destruct (call_function_trace
                node' (mkVariable (b :: bs))
                (mkArgs [AssignToNewVariable right_val None] None None None)
                Datatypes.false st1) as (calls & Hcalls & Hno & _).
    destruct (call_function node' (mkVariable (b :: bs)) _ Datatypes.false
                            st1) as [[[node'' ret_var] | e] st2];
      simpl in Hcalls.
    + eexists. simpl. rewrite Hcalls, Hst1, <- app_assoc.
      split; [reflexivity |]. rewrite lookups_app, Hno. simpl.
      split; [apply prefix_cons, prefix_nil | done].
    + assert (exists evs,
                trace st2 = trace st ++ evs
                /\ lookups evs = [(left_val, attr_name)])
        as (evs2 & Hst2 & Hlook2).
      { eexists. rewrite Hcalls, Hst1, <- app_assoc.
        split; [reflexivity |]. rewrite lookups_app, Hno. done. }
      destruct e as [e | | | | | |];
        try (exists evs2; simpl; rewrite Hlook2;
             split; [done |]; split; [apply prefix_cons, prefix_nil | done]).
      destruct (IH node' (if error_gt e error then Some e else error) st2)
        as (evs & Htr & Hpre & _).
      eexists. rewrite Htr, Hst2, <- app_assoc. split; [reflexivity |].
      rewrite lookups_app, Hlook2. simpl.
      split; [by apply prefix_cons | done].
Qed.

(** C5.  When the operator has a reflected form and the value of the
    left operand is a wildcard (or the empty sentinel), the dispatch
    returns at once a variable that holds only the wildcard
    [unsolvable]; the state, and so the trace of lookups and calls, is
    the one it was given: neither method is looked up or called.  That
    the right operand has the reflected method is not even tested. *)
Theorem ambiguous_left_operand node name rname xval yval st :
  reverse_operator_name name = Some rname ->
  is_AMBIGUOUS_OR_EMPTY (binding_data xval) = Datatypes.true ->
  _call_binop_on_bindings node name xval yval st
  = (Ok (node, Some (NewVariable [unsolvable] [xval; yval] node)), st)
  /\ data (NewVariable [unsolvable] [xval; yval] node) = [unsolvable].
Proof.
  intros Hr Hx. unfold _call_binop_on_bindings. by rewrite Hr, Hx.
Qed.

(** *** The order in which the two methods are tried *)









(** *** Running a frame *)

(** [python_version[0]] of the options. *)
Variable python_version_major : nat.

(** [VirtualMachine.init_class], for the declared return type of a frame:
    the variable of its instance. *)
Variable init_class : cfg_node -> value -> M variable.

(** The functions of the instructions that are not modelled below. *)
Variable byte_RAISE_VARARGS_PY3 : bytecode.
Variable byte_other : string -> option bytecode.

(** [VirtualMachine.store_jump]; a jump instruction has a target. *)
Definition store_jump (target : option nat) (s : FrameState) (frame : Frame)
    : M Frame :=
  match target with
  | None => raise (AssertionError "target")
  | Some target =>
      let* s := merge_into s (states frame !! target) in
      ret (set_states frame (<[target := s]> (states frame)))
  end.

Definition byte_POP_TOP : bytecode :=
  fun s op frame =>
    plain (let* s := pop_and_discard s in ret (s, frame)).

(** [byte_JUMP_FORWARD] and [byte_JUMP_ABSOLUTE] have the same body. *)
Definition byte_JUMP_ABSOLUTE : bytecode :=
  fun s op frame =>
    plain (let* s' := forward_cfg_node s in
           let* frame := store_jump (target op) s' frame in
           ret (s, frame)).

Definition byte_JUMP_FORWARD : bytecode := byte_JUMP_ABSOLUTE.

(** [byte_RAISE_VARARGS_PY2]: the operands are variables or absent, never
    instances of [BaseException], so the normalisation of line 2030 does
    nothing. *)
Definition byte_RAISE_VARARGS_PY2 : bytecode :=
  fun s op frame =>
    let raised (s : FrameState) (exc : exc_info) (tb : option variable) :=
      let s := set_exception s exc in
      match tb with
      | Some _ => set_why s "reraise"
      | None => set_why s "exception"
      end in
    match arg op with
    | 0 =>
        match exception s with
        | None =>
            fun st =>
              (ByteCodeException
                 "TypeError"
                 "exceptions must be old-style classes or derived from BaseException, not NoneType"
                 frame, st)
        | Some (ExcInfo exctype val tb) =>
            plain (ret (raised s (ExcInfo exctype val tb) tb, frame))
        | Some (ByteCodeError t m) =>
            plain (ret (raised s (ByteCodeError t m) None, frame))
        end
    | 1 =>
        plain (let* r := pop s in
               let '(s, exctype) := r in
               ret (raised s (ExcInfo (Some exctype) None None) None, frame))
    | 2 =>
        plain (let* r := pop s in
               let '(s, val) := r in
               let* r := pop s in
               let '(s, exctype) := r in
               ret (raised s (ExcInfo (Some exctype) (Some val) None) None,
                    frame))
    | 3 =>
        plain (let* r := pop s in
               let '(s, tb) := r in
               let* r := pop s in
               let '(s, val) := r in
               let* r := pop s in
               let '(s, exctype) := r in
               ret (raised s (ExcInfo (Some exctype) (Some val) (Some tb))
                           (Some tb),
                    frame))
    | _ => plain (ret (raised s (ExcInfo None None None) None, frame))
    end.

Definition byte_RAISE_VARARGS : bytecode :=
  if Nat.eqb python_version_major 2 then byte_RAISE_VARARGS_PY2
  else byte_RAISE_VARARGS_PY3.

(** [byte_RETURN_VALUE]; [_check_return] does nothing in this class. *)
Definition byte_RETURN_VALUE : bytecode :=
  fun s op frame =>
    plain (let* r := pop s in
           let '(s, var) := r in
           let* retvar :=
             match allowed_returns frame with
             | Some t => init_class (node s) t
             | None => ret var
             end in
           ret (set_why s "return",
                set_return_variable
                  frame
                  (PasteVariable (return_variable frame) retvar
                                 (Some (node s)) []))).

(** [getattr(self, "byte_%s" % op.name, None)] *)
Definition bytecode_fn (name : string) : option bytecode :=
  if String.eqb name "POP_TOP" then Some byte_POP_TOP
  else if String.eqb name "JUMP_FORWARD" then Some byte_JUMP_FORWARD
  else if String.eqb name "JUMP_ABSOLUTE" then Some byte_JUMP_ABSOLUTE
  else if String.eqb name "RAISE_VARARGS" then Some byte_RAISE_VARARGS
  else if String.eqb name "RETURN_VALUE" then Some byte_RETURN_VALUE
  else byte_other name.

(** [VirtualMachine.run_instruction], lines 234-270. *)
Definition run_instruction (op : opcode) (s : FrameState) (frame : Frame)
    : M (FrameState * Frame) :=
  fun st =>
    match bytecode_fn (op_name op) with
    | None =>
        (Error (VirtualMachineError
                  (String.append "Unknown opcode: " (op_name op))), st)
    | Some fn =>
        let '(e, st) := fn s op frame st in
        let reraised s' :=
          if bool_decide (why s' = Some "reraise")
          then set_why s' "exception" else s' in
        match e with
        | Next s' frame => (Ok (reraised s', frame), st)
        | RecursionException frame =>
            (Ok (reraised (set_why s "recursion"), frame), st)
        | ByteCodeException t m frame =>
            (Ok (reraised (set_why (set_exception s (ByteCodeError t m))
                                   "exception"),
                 frame), st)
        | Raises e => (Error e, st)
        end
    end.

(** The instructions of a block, lines 297-302: the state after the last
    instruction run, and that instruction. *)
Fixpoint run_ops (ops : list opcode) (last : option opcode)
    (s : FrameState) (frame : Frame)
    : M (FrameState * Frame * option opcode) :=
  match ops with
  | [] => ret (s, frame, last)
  | op :: rest =>
      let* r := run_instruction op s frame in
      let '(s, frame) := r in
      match why s with
      | Some _ => ret (s, frame, Some op)
      | None => run_ops rest (Some op) s frame
      end
  end.

(** The loop over the blocks, lines 290-310: the nodes of the blocks that
    ended with a reason. *)
Fixpoint run_blocks (blocks : list (list opcode)) (frame : Frame)
    (return_nodes : list cfg_node) : M (list cfg_node * Frame) :=
  match blocks with
  | [] => ret (return_nodes, frame)
  | block :: rest =>
      match block with
      | [] => raise IndexError
      | first :: _ =>
          match states frame !! index first with
          | None => run_blocks rest frame return_nodes
          | Some s =>
              let* r := run_ops block None s frame in
              let '(s, frame, op) := r in
              match why s, op with
              | Some _, _ =>
                  run_blocks rest frame (return_nodes ++ [node s])
              | None, Some op =>
                  if carry_on_to_next op then
                    let* s := forward_cfg_node s in
                    let* frame := store_jump (next op) s frame in
                    run_blocks rest frame return_nodes
                  else run_blocks rest frame return_nodes
              | None, None => raise (AssertionError "op")
              end
          end
      end
  end.

(** [VirtualMachine.run_frame], lines 284-318. *)
Definition run_frame (frame : Frame) (node : cfg_node)
    : M (cfg_node * variable * Frame) :=
  let frame :=
    set_states frame (<[co_code_0 frame := FrameState_init node]>
                        (states frame)) in
  let* r := run_blocks (order frame) frame [] in
  let '(return_nodes, frame) := r in
  match return_nodes with
  | [] =>
      match bindings (return_variable frame) with
      | [] =>
          let v := AddBinding (return_variable frame)
                              (convert.unsolvable cv) [] node in
          ret (node, v, set_return_variable frame v)
      | _ => raise (AssertionError "frame.return_variable.bindings")
      end
  | _ =>
      let* node := join_cfg_nodes return_nodes in
      ret (node, return_variable frame, frame)
  end.

(** *** Who writes the return variable *)

(** The frame an ending leaves to the runner. *)
Definition frame_left (e : ending) : option Frame :=
  match e with
  | Next _ frame | RecursionException frame | ByteCodeException _ _ frame =>
      Some frame
  | Raises _ => None
  end.

(** The function of an instruction that leaves the return variable of the
    frame as it finds it.  In [vm.py] the return variable is written at lines
    315 and 2372 only, by [run_frame] and by [byte_RETURN_VALUE]. *)
Definition keeps_return_variable (fn : bytecode) : Prop :=
  forall s op frame st,
    match frame_left (fst (fn s op frame st)) with
    | Some frame' => return_variable frame' = return_variable frame
    | None => True
    end.

(** The functions that are not modelled leave the return variable alone. *)
Definition others_keep_return_variable : Prop :=
  keeps_return_variable byte_RAISE_VARARGS_PY3
  /\ forall name fn, byte_other name = Some fn -> keeps_return_variable fn.

Definition is_RETURN_VALUE (op : opcode) : Prop :=
  op_name op = "RETURN_VALUE".

Lemma plain_keeps (m : M (FrameState * Frame)) frame st :
  (forall s' frame' st',
     m st = (Ok (s', frame'), st') ->
     return_variable frame' = return_variable frame) ->
  match frame_left (fst (plain m st)) with
  | Some frame' => return_variable frame' = return_variable frame
  | None => True
  end.
Proof.
  intros H. unfold plain.
  destruct (m st) as [[[s' frame'] | e] st'] eqn:Hm; [| done].
  simpl. by eapply H.
Qed.

Lemma store_jump_keeps target s frame st frame' st' :
  store_jump target s frame st = (Ok frame', st') ->
  return_variable frame' = return_variable frame.
Proof.
  unfold store_jump. destruct target as [target |]; [| done].
  unfold bind.
  destruct (merge_into s (states frame !! target) st) as [[s1 | e] st1];
    [| done].
  by intros [= <- _].
Qed.

Lemma byte_POP_TOP_keeps : keeps_return_variable byte_POP_TOP.
Proof.
  intros s op frame st. apply plain_keeps. intros s' frame' st'.
  unfold bind.
  destruct (pop_and_discard s st) as [[s1 | e] st1]; [| done].
  by intros [= _ <- _].
Qed.

Lemma byte_JUMP_ABSOLUTE_keeps : keeps_return_variable byte_JUMP_ABSOLUTE.
Proof.
  intros s op frame st. apply plain_keeps. intros s' frame' st'.
  unfold bind at 1.
  destruct (forward_cfg_node s st) as [[s1 | e] st1]; [| done].
  unfold bind.
  destruct (store_jump (target op) s1 frame st1) as [[frame1 | e] st2]
    eqn:Hjump; [| done].
  intros [= _ <- _]. by eapply store_jump_keeps.
Qed.

Lemma byte_RAISE_VARARGS_PY2_keeps :
  keeps_return_variable byte_RAISE_VARARGS_PY2.
Proof.
  intros s op frame st. unfold byte_RAISE_VARARGS_PY2.
  destruct (arg op) as [| [| [| [| n]]]].
  - destruct (exception s) as [[exctype val tb | t m] |]; done.
  - apply plain_keeps. intros s' frame' st'. unfold bind, pop.
    destruct (data_stack s) as [| v1 stack]; [done |].
    by intros [= _ <- _].
  - apply plain_keeps. intros s' frame' st'. unfold bind, pop. simpl.
    destruct (data_stack s) as [| v1 [| v2 stack]]; [done | done |].
    by intros [= _ <- _].
  - apply plain_keeps. intros s' frame' st'. unfold bind, pop. simpl.
    destruct (data_stack s) as [| v1 [| v2 [| v3 stack]]];
      [done | done | done |].
    by intros [= _ <- _].
  - done.
Qed.

(** One instruction: the return variable is left alone, unless the
    instruction is [RETURN_VALUE], which leaves the reason [return]. *)
Lemma run_instruction_return_variable op s frame st s' frame' st' :
  others_keep_return_variable ->
  run_instruction op s frame st = (Ok (s', frame'), st') ->
  return_variable frame' = return_variable frame
  \/ (is_RETURN_VALUE op /\ why s' = Some "return").
Proof.
  intros [Hpy3 Hother]. unfold run_instruction, bytecode_fn, is_RETURN_VALUE.
  assert (forall fn,
            keeps_return_variable fn ->
            (let '(e, st) := fn s op frame st in
             let reraised s' :=
               if bool_decide (why s' = Some "reraise")
               then set_why s' "exception" else s' in
             match e with
             | Next s' frame => (Ok (reraised s', frame), st)
             | RecursionException frame =>
                 (Ok (reraised (set_why s "recursion"), frame), st)
             | ByteCodeException t m frame =>
                 (Ok (reraised (set_why (set_exception s (ByteCodeError t m))
                                        "exception"),
                      frame), st)
             | Raises e => (Error e, st)
             end) = (Ok (s', frame'), st') ->
            return_variable frame' = return_variable frame) as Hkeeps.
  { intros fn Hfn. specialize (Hfn s op frame st).
    destruct (fn s op frame st) as [[s1 frame1 | frame1 | t m frame1 | e] st1];
      simpl in Hfn; [| | | done]; by intros [= _ <- _]. }
  destruct (String.eqb (op_name op) "POP_TOP");
    [intros H; left; by eapply Hkeeps; [apply byte_POP_TOP_keeps |] |].
  destruct (String.eqb (op_name op) "JUMP_FORWARD");
    [intros H; left; by eapply Hkeeps; [apply byte_JUMP_ABSOLUTE_keeps |] |].
  destruct (String.eqb (op_name op) "JUMP_ABSOLUTE");
    [intros H; left; by eapply Hkeeps; [apply byte_JUMP_ABSOLUTE_keeps |] |].
  destruct (String.eqb (op_name op) "RAISE_VARARGS").
  { intros H. left. eapply Hkeeps; [| exact H].
    unfold byte_RAISE_VARARGS.
    destruct (Nat.eqb python_version_major 2);
      [apply byte_RAISE_VARARGS_PY2_keeps | exact Hpy3]. }
  destruct (String.eqb (op_name op) "RETURN_VALUE") eqn:Hname.
  { apply String.eqb_eq in Hname. intros H. right. split; [exact Hname |].
    revert H. unfold byte_RETURN_VALUE, plain, pop. unfold bind at 1.
    destruct (data_stack s) as [| var stack]; [done |].
    unfold ret at 1. unfold bind.
    match goal with
    | |- context [match ?m st with _ => _ end] =>
        destruct (m st) as [[retvar | e] st1]; [| done]
    end.
    simpl. by intros [= <- _ _]. }
  destruct (byte_other (op_name op)) as [fn |] eqn:Hfn; [| done].
  intros H. left. eapply Hkeeps; [| exact H]. by eapply Hother.
Qed.

(** The instructions of a block: the return variable is left alone, unless
    the block has a [RETURN_VALUE] and ends with a reason. *)
Lemma run_ops_return_variable ops :
  others_keep_return_variable ->
  forall last s frame st s' frame' last' st',
    run_ops ops last s frame st = (Ok (s', frame', last'), st') ->
    return_variable frame' = return_variable frame
    \/ (Exists is_RETURN_VALUE ops /\ why s' <> None).
Proof.
  intros Hothers.
  induction ops as [| op rest IH];
    intros last s frame st s' frame' last' st'.
  - intros [= _ <- _ _]. by left.
  - simpl. unfold bind at 1.
    destruct (run_instruction op s frame st) as [[[s1 frame1] | e] st1]
      eqn:Hop; [| done].
    pose proof (run_instruction_return_variable _ _ _ _ _ _ _ Hothers Hop)
      as Hone.
    destruct (why s1) as [reason |] eqn:Hwhy.
    + intros [= <- <- _ _].
      destruct Hone as [Hkept | [Hret _]]; [by left |].
      right. split; [by apply Exists_cons_hd | by rewrite Hwhy].
    + intros Hrest. apply IH in Hrest.
      destruct Hone as [Hkept | [_ Hreturn]]; [| congruence].
      destruct Hrest as [Hkept' | [Hex Hreason]].
      * left. congruence.
      * right. split; [by apply Exists_cons_tl | done].
Qed.

(** The blocks of a frame: return nodes are only added, and the return
    variable is left alone unless a block with a [RETURN_VALUE] gave a return
    node. *)
Lemma run_blocks_return_variable blocks :
  others_keep_return_variable ->
  forall frame return_nodes st R frame1 st1,
    run_blocks blocks frame return_nodes st = (Ok (R, frame1), st1) ->
    exists more,
      R = return_nodes ++ more
      /\ (return_variable frame1 = return_variable frame
          \/ (Exists (Exists is_RETURN_VALUE) blocks /\ more <> [])).
Proof.
  intros Hothers.
  induction blocks as [| block rest IH];
    intros frame return_nodes st R frame1 st1.
  - intros [= <- <- _]. exists []. rewrite app_nil_r. by split; [| left].
  - simpl. destruct block as [| first ops] eqn:Hblock; [done |].
    rewrite <- Hblock.
    assert (forall frame2 st2,
              return_variable frame2 = return_variable frame ->
              run_blocks rest frame2 return_nodes st2 = (Ok (R, frame1), st1)
              -> exists more,
                R = return_nodes ++ more
                /\ (return_variable frame1 = return_variable frame
                    \/ (Exists (Exists is_RETURN_VALUE) (block :: rest)
                        /\ more <> []))) as Hskip.
    { intros frame2 st2 Hkept Hrest.
      apply IH in Hrest as (more & HR & Hrest).
      exists more. split; [exact HR |].
      destruct Hrest as [Hkept' | [Hex Hmore]].
      - left. congruence.
      - right. split; [by apply Exists_cons_tl | done]. }
    destruct (states frame !! index first) as [s |]; [| by apply Hskip].
    unfold bind at 1.
    destruct (run_ops block None s frame st)
      as [[[[s2 frame2] op] | e] st2] eqn:Hops; [| done].
    pose proof (run_ops_return_variable block Hothers _ _ _ _ _ _ _ _ Hops)
      as Hblockrv.
    destruct (why s2) as [reason |] eqn:Hwhy.
    + intros Hrest. apply IH in Hrest as (more & HR & Hrest).
      exists (node s2 :: more).
      split; [by rewrite HR, <- app_assoc |].
      destruct Hblockrv as [Hkept | [Hex _]].
      * destruct Hrest as [Hkept' | [Hex' _]].
        -- left. congruence.
        -- right. split; [by apply Exists_cons_tl | done].
      * right. split; [by apply Exists_cons_hd | done].
    + destruct Hblockrv as [Hkept | [_ Hreason]]; [| done].
      destruct op as [op |]; [| done].
      destruct (carry_on_to_next op); [| by apply Hskip].
      unfold bind at 1.
      destruct (forward_cfg_node s2 st2) as [[s3 | e] st3]; [| done].
      unfold bind at 1.
      destruct (store_jump (next op) s3 frame2 st3) as [[frame3 | e] st4]
        eqn:Hjump; [| done].
      apply Hskip. apply store_jump_keeps in Hjump. congruence.
Qed.

(** C4, as amended.  Only [RETURN_VALUE] writes the return variable of a
    frame while its blocks are run, and it ends its block with a reason.  So
    when the blocks have been run and none ended with a reason (no return
    node was collected), the return variable, empty when the frame began, is
    empty still: it gets exactly one binding, which holds the wildcard
    [unsolvable] at the entry node, and is returned with the entry node.
    When return nodes were collected, the return variable is returned as the
    instructions left it, with no binding added; when the code of the frame
    has no [RETURN_VALUE], it is the variable the frame began with, so a
    frame that began with an empty return variable and left its blocks by
    raising only returns an empty variable. *)
Theorem return_variable_of_a_frame frame node st return_nodes frame1 st1 :
  others_keep_return_variable ->
  run_blocks (order frame)
             (set_states frame (<[co_code_0 frame := FrameState_init node]>
                                  (states frame))) [] st
  = (Ok (return_nodes, frame1), st1) ->
  (return_nodes = [] ->
   bindings (return_variable frame) = [] ->
   exists v,
     run_frame frame node st
     = (Ok (node, v, set_return_variable frame1 v), st1)
     /\ bindings v = [Binding (convert.unsolvable cv) [] node])
  /\ (return_nodes <> [] ->
      (exists node' st2,
         run_frame frame node st
         = (Ok (node', return_variable frame1, frame1), st2))
      /\ (Forall (Forall (fun op => ~ is_RETURN_VALUE op)) (order frame) ->
          return_variable frame1 = return_variable frame)).
Proof.
  intros Hothers Hblocks.
  destruct (run_blocks_return_variable _ Hothers _ _ _ _ _ _ Hblocks)
    as (more & Hmore & Hrv).
  simpl in Hmore, Hrv. subst more. split.
  - intros -> Hempty.
    assert (bindings (return_variable frame1) = []) as Hempty1.
    { destruct Hrv as [-> | [_ ?]]; done. }
    unfold run_frame, bind. simpl. rewrite Hblocks, Hempty1.
    eexists. split; [reflexivity |].
    unfold AddBinding. by rewrite Hempty1.
  - intros Hnodes. split.
    + unfold run_frame, bind. simpl. rewrite Hblocks.
      destruct return_nodes as [| n [| n' ns]]; [done | |];
        simpl; eexists _, _; reflexivity.
    + intros Hnone. destruct Hrv as [Hkept | [Hex _]]; [exact Hkept |].
      apply Exists_exists in Hex as (block & Hin & Hex).
      apply Exists_exists in Hex as (op & Hop & Hret).
      rewrite Forall_forall in Hnone. specialize (Hnone block Hin).
      rewrite Forall_forall in Hnone. by destruct (Hnone op Hop).
Qed.

(** *** Attributes and iterators *)

(** The loop of [_retrieve_attr], lines 1065-1076. *)
Fixpoint retrieve_bindings (node : cfg_node) (attr : string)
    (vals : list binding) (result : variable) (nodes : list cfg_node)
    (values_without_attribute : list binding)
    : M (variable * list cfg_node * list binding) :=
  match vals with
  | [] => ret (result, nodes, values_without_attribute)
  | val :: rest =>
      let* _ := log (GetAttribute node (binding_data val) attr val) in
      let '(node2, attr_var) :=
        get_attribute_generic node (binding_data val) attr val in
      match attr_var with
      | Some (mkVariable (b :: bs) as attr_var) =>
          retrieve_bindings node attr rest
                            (PasteVariable result attr_var (Some node2) [])
                            (nodes ++ [node2]) values_without_attribute
      | _ =>
          retrieve_bindings node attr rest result nodes
                            (values_without_attribute ++ [val])
      end
  end.

(** [VirtualMachine._retrieve_attr], lines 1057-1080. *)
Definition _retrieve_attr (node : cfg_node) (obj : variable) (attr : string)
    : M (cfg_node * option variable * list binding) :=
  let* r := retrieve_bindings node attr (Bindings obj node)
                              (mkVariable []) [] [] in
  let '(result, nodes, values_without_attribute) := r in
  match nodes with
  | [] => ret (node, None, values_without_attribute)
  | _ =>
      let* node := join_cfg_nodes nodes in
      ret (node, Some result, values_without_attribute)
  end.

(** [_data_is_none], [_is_none], [_has_at_least_one_none] and
    [_is_only_none], lines 1082-1097. *)
Definition _data_is_none (x : value) : bool :=
  match cls x with
  | Some c =>
      match data c with
      | [d] => value_eqb d (convert.none_type cv)
      | _ => Datatypes.false
      end
  | None => Datatypes.false
  end.

Definition _is_none (node : cfg_node) (b : binding) : bool :=
  _data_is_none (binding_data b) || negb (HasCombination node [b]).

Definition _has_at_least_one_none (node : cfg_node) (obj : variable) : bool :=
  existsb (fun b => _data_is_none (binding_data b) && HasCombination node [b])
          (bindings obj).

Definition _is_only_none (node : cfg_node) (obj : variable) : bool :=
  forallb (_is_none node) (bindings obj) && _has_at_least_one_none node obj.

(** The reports of a loop, in its order. *)
Fixpoint report_each (rs : list report) : M unit :=
  match rs with
  | [] => ret tt
  | r :: rs => let* _ := errorlog_add r in report_each rs
  end.

(** [VirtualMachine.load_attr], lines 1104-1116. *)
Definition load_attr (s : FrameState) (obj : variable) (attr : string)
    : M (FrameState * variable) :=
  let* r := _retrieve_attr (node s) obj attr in
  let '(node', result, errors) := r in
  let each :=
    report_each
      (map (fun error =>
              attribute_or_module_error
                (AssignToNewVariable error (Some (convert.root_cfg_node cv)))
                attr)
           (List.filter (fun error => negb (_is_none (node s) error))
                        errors)) in
  let* _ :=
    match errors, bindings obj with
    | _ :: _, _ :: _ =>
        if _is_only_none (node s) obj then errorlog_add (none_attr attr)
        else each
    | _, _ => each
    end in
  ret (change_cfg_node s node',
       match result with
       | Some result => result
       | None => create_new_unsolvable node'
       end).

(** [VirtualMachine.load_attr_noerror], lines 1118-1121. *)
Definition load_attr_noerror (s : FrameState) (obj : variable)
    (attr : string) : M (FrameState * option variable) :=
  let* r := _retrieve_attr (node s) obj attr in
  let '(node', result, _) := r in
  ret (change_cfg_node s node', result).

(** [VirtualMachine.call_function_with_state], lines 897-905, with the
    default [fallback_to_unsolvable=True]. *)
Definition call_function_with_state (s : FrameState) (funcu : variable)
    (posargs : list variable) : M (FrameState * variable) :=
  let* r := call_function (node s) funcu (mkArgs posargs None None None)
                          Datatypes.true in
  let '(node', ret_var) := r in
  ret (change_cfg_node s node', ret_var).

(** [Converter.build_int] *)
Definition build_int (node : cfg_node) : variable :=
  to_variable (convert.primitive_class_instances cv convert.p_int) node.

(** [VirtualMachine._get_iter], lines 1240-1272. *)
Definition _get_iter (s : FrameState) (seq : variable)
    (report_errors : bool) : M (FrameState * option variable) :=
  let* r := load_attr_noerror s seq "__iter__" in
  let '(s, func) := r in
  match func with
  | Some func =>
      let* r := call_function_with_state s func [] in
      let '(s, itr) := r in
      ret (s, Some itr)
  | None =>
      let* r := _retrieve_attr (node s) seq "__getitem__" in
      let '(node', func, missing) := r in
      let s := change_cfg_node s node' in
      match func with
      | Some func =>
          let* r := call_function_with_state s func [build_int (node s)] in
          let '(s, item) := r in
          let* itr := new (Iterator item) in
          ret (s, Some (to_variable itr (node s)))
      | None =>
          if report_errors then
            let* _ :=
              report_each
                (map (fun m =>
                        if _data_is_none (binding_data m)
                        then none_attr "__iter__"
                        else attribute_error seq "__iter__")
                     (List.filter (fun m => HasCombination (node s) [m])
                                  missing)) in
            ret (s, Some (create_new_unsolvable (node s)))
          else ret (s, None)
      end
  end.

(** *** Unpacking a sequence *)

(** Lines 1737-1745 of [_get_literal_sequence]: the literal content of a
    value whose class derives from a heterogeneous tuple class, which
    [abstract.py] instantiates and merges. *)
Variable tuple_subclass_literal : value -> option (list variable).

(** [VirtualMachine._get_literal_sequence], lines 1728-1746.  The constants
    that are tuples or lists are the values [abstract.Tuple] and
    [abstract.List]; a concrete value holds a primitive or code. *)
Definition _get_literal_sequence (d : value) : option (list variable) :=
  match desc_of d with
  | Tuple content => Some content
  | List content => Some content
  | _ => tuple_subclass_literal d
  end.

(** [Converter.build_list] *)
Definition build_list (node : cfg_node) (content : list variable)
    : M variable :=
  let* v := new (List content) in ret (to_variable v node).

(** [Converter.build_list_of_type] *)
Definition build_list_of_type (node : cfg_node) (var : variable)
    : M variable :=
  let* v := new (Instance (convert.list_type cv) [(T, var)]) in
  ret (to_variable v node).

(** [Converter.build_content] *)
Definition build_content (elements : list variable) : variable :=
  match elements with
  | [v] => v
  | _ => fold_left (fun var v => PasteVariable var v None []) elements
                   (mkVariable [])
  end.

(** [VirtualMachine._restructure_tuple], lines 1748-1758. *)
Definition _restructure_tuple (node : cfg_node) (tup : list variable)
    (pre : nat) (post : Z) : M (list variable) :=
  let before := take pre tup in
  let '(after, rest) :=
    if (0 <? post)%Z
    then (drop (length tup - Z.to_nat post) tup,
          drop pre (take (length tup - Z.to_nat post) tup))
    else ([], drop pre tup) in
  let* rest := build_list node rest in
  ret (before ++ [rest] ++ after).

(** [zip] of all the options: the positions every option has, each with
    the elements of the options at it. *)
Fixpoint zip_star {A : Type} (options : list (list A)) : list (list A) :=
  match options with
  | [] => []
  | option :: rest =>
      match rest with
      | [] => map (fun x => [x]) option
      | _ => zip_with cons option (zip_star rest)
      end
  end.

(** The loop of [_unpack_sequence] over the bindings, lines 1782-1792. *)
Fixpoint unpack_bindings (node : cfg_node) (n_before : nat) (n_after : Z)
    (bs : list binding) (options : list (list variable))
    (nontuple_seq : variable) : M (list (list variable) * variable) :=
  let has_slurp := (-1 <? n_after)%Z in
  let count := Z.to_nat (Z.of_nat n_before + n_after + 1) in
  match bs with
  | [] => ret (options, nontuple_seq)
  | b :: rest =>
      let other :=
        unpack_bindings node n_before n_after rest options
                        (AddBinding nontuple_seq (binding_data b) [b] node) in
      match _get_literal_sequence (binding_data b) with
      | Some ((_ :: _) as tup) =>
          if has_slurp && (count <=? length tup) then
            let* option := _restructure_tuple node tup n_before n_after in
            unpack_bindings node n_before n_after rest (options ++ [option])
                            nontuple_seq
          else if length tup =? count then
            unpack_bindings node n_before n_after rest (options ++ [tup])
                            nontuple_seq
          else other
      | _ => other
      end
  end.

(** The variable pushed for a position, lines 1803-1810. *)
Definition or_empty (node : cfg_node) (value : variable) : variable :=
  match bindings value with
  | [] => to_variable (convert.empty cv) node
  | _ => value
  end.

(** [VirtualMachine._unpack_sequence], lines 1760-1813. *)
Definition _unpack_sequence (s : FrameState) (n_before : nat) (n_after : Z)
    : M FrameState :=
  if (n_after <? -1)%Z then raise (AssertionError "n_after >= -1")
  else
    let* r := pop s in
    let '(s, seq) := r in
    let has_slurp := (-1 <? n_after)%Z in
    let count := Z.to_nat (Z.of_nat n_before + n_after + 1) in
    let* r := unpack_bindings (node s) n_before n_after (bindings seq) []
                              (mkVariable []) in
    let '(options, nontuple_seq) := r in
    let* r :=
      match bindings nontuple_seq with
      | [] => ret (s, options)
      | _ =>
          let* r := _get_iter s nontuple_seq Datatypes.true in
          let '(s, itr) := r in
          match itr with
          | None => raise (AssertionError "isinstance(obj, Variable)")
          | Some itr =>
              let* r := load_attr s itr "next" in
              let '(s, f) := r in
              let* r := call_function_with_state s f [] in
              let '(s, result) := r in
              let option := replicate count result in
              let* option :=
                if has_slurp then
                  let* l := build_list_of_type (node s) result in
                  ret (<[n_before := l]> option)
                else ret option in
              ret (s, options ++ [option])
          end
      end in
    let '(s, options) := r in
    let values := map build_content (zip_star options) in
    ret (fold_left (fun s value => push s (or_empty (node s) value))
                   (rev values) s).

(** *** What unpacking calls *)

Lemma AddBinding_keeps_bindings var d source_set where_ :
  bindings var <> [] -> bindings (AddBinding var d source_set where_) <> [].
Proof.
  intros Hvar. unfold AddBinding. destruct (existsb _ _); [done |].
  simpl. by destruct (bindings var).
Qed.

Lemma PasteVariable_nonempty var other where_ additional_sources :
  bindings other <> [] ->
  bindings (PasteVariable var other where_ additional_sources) <> [].
Proof.
  unfold PasteVariable.
  set (f := fun (var : variable) (b : binding) => _).
  assert (forall bs var,
            bindings var <> [] -> bindings (fold_left f bs var) <> [])
    as Hkeeps.
  { induction bs as [| b bs IH]; intros v Hv; [done |].
    simpl. apply IH. unfold f.
    destruct where_; by apply AddBinding_keeps_bindings. }
  destruct (bindings other) as [| b bs]; [done |].
  intros _. simpl. apply Hkeeps. unfold f.
  destruct where_; apply AddBinding_nonempty.
Qed.

Lemma retrieve_bindings_spec node attr vals :
  forall result nodes missing st,
    (nodes <> [] -> bindings result <> []) ->
    exists R N E st',
      retrieve_bindings node attr vals result nodes missing st
      = (Ok (R, N, E), st')
      /\ (N <> [] -> bindings R <> []).
Proof.
  induction vals as [| val vals IH]; intros result nodes missing st Hinv.
  - by eexists _, _, _, _.
  - simpl. unfold bind, log.
    destruct (get_attribute_generic node (binding_data val) attr val)
      as [node2 [[[| b bs]] |]]; try by apply IH.
    apply IH. intros _. by apply PasteVariable_nonempty.
Qed.

Lemma _retrieve_attr_spec node obj attr st :
  exists node' result missing st',
    _retrieve_attr node obj attr st = (Ok (node', result, missing), st')
    /\ (forall r, result = Some r -> bindings r <> []).
Proof.
  unfold _retrieve_attr, bind.
  destruct (retrieve_bindings_spec node attr (Bindings obj node)
              (mkVariable []) [] [] st ltac:(done))
    as (R & N & E & st' & -> & Hinv).
  destruct N as [| n [| n' ns]].
  - by eexists _, _, _, _.
  - eexists _, _, _, _. split; [reflexivity |].
    intros r [= <-]. by apply Hinv.
  - eexists _, _, _, _. split; [reflexivity |].
    intros r [= <-]. by apply Hinv.
Qed.

Lemma report_each_ok rs st :
  exists st', report_each rs st = (Ok tt, st') /\ trace st' = trace st.
Proof.
  revert st. induction rs as [| r rs IH]; intros st; [by eexists |].
  simpl. unfold bind, errorlog_add.
  destruct (IH (mkState (next_node st) (edges st) (next_id st)
                        (errorlog st ++ [r]) (trace st)))
    as (st' & -> & Htrace).
  by eexists.
Qed.

Lemma load_attr_spec s obj attr st :
  exists node' f st',
    load_attr s obj attr st = (Ok (change_cfg_node s node', f), st')
    /\ bindings f <> [].
Proof.
  unfold load_attr. unfold bind at 1.
  destruct (_retrieve_attr_spec (node s) obj attr st)
    as (node' & result & missing & st' & -> & Hresult).
  set (each := report_each _).
  assert (exists st2,
            match missing, bindings obj with
            | _ :: _, _ :: _ =>
                if _is_only_none (node s) obj
                then errorlog_add (none_attr attr) else each
            | _, _ => each
            end st' = (Ok tt, st2)) as (st2 & Hreport).
  { destruct missing, (bindings obj); try destruct (_is_only_none _ _);
      try (destruct (report_each_ok
                       (map (fun error =>
                               attribute_or_module_error
                                 (AssignToNewVariable
                                    error (Some (convert.root_cfg_node cv)))
                                 attr)
                            (List.filter
                               (fun error => negb (_is_none (node s) error))
                               missing)) st') as (st2 & H2 & _);
           by eexists);
      try (destruct (report_each_ok
                       (map (fun error =>
                               attribute_or_module_error
                                 (AssignToNewVariable
                                    error (Some (convert.root_cfg_node cv)))
                                 attr)
                            (List.filter
                               (fun error => negb (_is_none (node s) error))
                               (b :: missing))) st') as (st2 & H2 & _);
           by eexists);
      by eexists. }
  unfold bind. rewrite Hreport.
  eexists _, _, _. split; [reflexivity |].
  destruct result as [r |]; [by apply Hresult | done].
Qed.

Lemma join_cfg_nodes_ok n ns st :
  exists node' st',
    join_cfg_nodes (n :: ns) st = (Ok node', st') /\ trace st' = trace st.
Proof. destruct ns; by eexists _, _. Qed.



Lemma change_cfg_node_twice s n n' :
  change_cfg_node (change_cfg_node s n) n' = change_cfg_node s n'.
Proof. done. Qed.


Lemma push_all (g : cfg_node -> variable -> variable) values :
  forall s,
    let s' := fold_left (fun s value => push s (g (node s) value)) values s in
    node s' = node s
    /\ data_stack s' = rev (map (g (node s)) values) ++ data_stack s.
Proof.
  induction values as [| v values IH]; intros s; [done |].
  simpl. destruct (IH (push s (g (node s) v))) as [Hnode Hstack].
  split; [by rewrite Hnode |].
  rewrite Hstack. simpl. by rewrite <- app_assoc.
Qed.


(** *** Attribute lookups, whatever the bindings *)

(** A binding lacks an attribute when the handler gives no variable for it,
    or one without bindings. *)
Definition lacks (node : cfg_node) (attr : string) (val : binding) : bool :=
  match snd (get_attribute_generic node (binding_data val) attr val) with
  | Some (mkVariable (_ :: _)) => Datatypes.false
  | _ => Datatypes.true
  end.

Definition lookups_of (node : cfg_node) (attr : string)
    (vals : list binding) : list event :=
  map (fun val => GetAttribute node (binding_data val) attr val) vals.

Lemma fails_dec_lacks node attr vals :
  Forall (fun val => lacks node attr val = Datatypes.true) vals
  \/ ~ Forall (fun val => lacks node attr val = Datatypes.true) vals.
Proof.
  induction vals as [| val vals [IH | IH]].
  - by left.
  - destruct (lacks node attr val) eqn:H.
    + left. by apply Forall_cons.
    + right. intros Hall. apply Forall_cons in Hall as [Hval _]. congruence.
  - right. intros Hall. by apply Forall_cons in Hall as [_ Hall].
Qed.

Lemma retrieve_bindings_full node attr vals :
  forall result nodes missing st,
    exists R N,
      retrieve_bindings node attr vals result nodes missing st
      = (Ok (R, N, missing ++ List.filter (lacks node attr) vals),
         add_trace (lookups_of node attr vals) st)
      /\ (Forall (fun val => lacks node attr val = Datatypes.true) vals ->
          R = result /\ N = nodes)
      /\ (~ Forall (fun val => lacks node attr val = Datatypes.true) vals ->
          N <> []).
Proof.
  induction vals as [| val vals IH]; intros result nodes missing st.
  - eexists _, _. simpl. rewrite app_nil_r, add_trace_nil.
    split; [reflexivity |]. split; [done |]. intros H. by destruct H.
  - simpl. unfold bind, log. unfold lacks at 1 2.
    set (st1 := mkState _ _ _ _ _).
    assert (forall st2,
              add_trace (lookups_of node attr vals) st1 = st2 ->
              add_trace
                (GetAttribute node (binding_data val) attr val
                 :: lookups_of node attr vals) st = st2) as Htrace.
    { intros st2 <-. unfold st1, add_trace. simpl.
      by rewrite <- app_assoc. }
    destruct (get_attribute_generic node (binding_data val) attr val)
      as [node2 attr_var] eqn:Hga. simpl.
    assert (attr_var = None \/ attr_var = Some (mkVariable [])
            \/ exists b bs, attr_var = Some (mkVariable (b :: bs)))
      as [-> | [-> | (b & bs & ->)]]
      by (destruct attr_var as [[[| b bs]] |]; eauto).
    + destruct (IH result nodes (missing ++ [val]) st1)
        as (R & N & Hrun & Hall & Hsome).
      exists R, N. rewrite <- app_assoc in Hrun. simpl in Hrun.
      rewrite Hrun. split; [by rewrite (Htrace _ eq_refl) |].
      split.
      * intros H. apply Hall. by apply Forall_cons in H as [_ H].
      * intros H. apply Hsome. intros H'. apply H. apply Forall_cons.
        split; [| done]. unfold lacks. by rewrite Hga.
    + destruct (IH result nodes (missing ++ [val]) st1)
        as (R & N & Hrun & Hall & Hsome).
      exists R, N. rewrite <- app_assoc in Hrun. simpl in Hrun.
      rewrite Hrun. split; [by rewrite (Htrace _ eq_refl) |].
      split.
      * intros H. apply Hall. by apply Forall_cons in H as [_ H].
      * intros H. apply Hsome. intros H'. apply H. apply Forall_cons.
        split; [| done]. unfold lacks. by rewrite Hga.
    + destruct (IH (PasteVariable result (mkVariable (b :: bs)) (Some node2)
                                  [])
                   (nodes ++ [node2]) missing st1)
        as (R & N & Hrun & Hall & Hsome).
      exists R, N. rewrite Hrun.
      split; [by rewrite (Htrace _ eq_refl) |].
      split.
      * intros H. apply Forall_cons in H as [H _].
        unfold lacks in H. by rewrite Hga in H.
      * intros _.
        destruct (fails_dec_lacks node attr vals) as [Hvals | Hvals].
        -- destruct (Hall Hvals) as [_ ->]. by destruct nodes.
        -- by apply Hsome.
Qed.

Lemma join_cfg_nodes_quiet n ns st :
  exists node' st',
    join_cfg_nodes (n :: ns) st = (Ok node', st')
    /\ trace st' = trace st /\ errorlog st' = errorlog st.
Proof. destruct ns; by eexists _, _. Qed.

Lemma _retrieve_attr_full node obj attr st :
  let vals := Bindings obj node in
  let st1 := add_trace (lookups_of node attr vals) st in
  exists node' result st',
    _retrieve_attr node obj attr st
    = (Ok (node', result, List.filter (lacks node attr) vals), st')
    /\ trace st' = trace st1
    /\ errorlog st' = errorlog st
    /\ (Forall (fun val => lacks node attr val = Datatypes.true) vals ->
        result = None /\ node' = node /\ st' = st1)
    /\ (~ Forall (fun val => lacks node attr val = Datatypes.true) vals ->
        exists r, result = Some r /\ bindings r <> []).
Proof.
  intros vals st1. unfold _retrieve_attr, bind.
  destruct (retrieve_bindings_full node attr vals (mkVariable []) [] [] st)
    as (R & N & Hrun & Hall & Hsome).
  destruct (retrieve_bindings_spec node attr vals (mkVariable []) [] [] st
              ltac:(done)) as (R' & N' & E' & st' & Hrun' & Hinv).
  fold vals. rewrite Hrun' in Hrun. injection Hrun as -> -> -> ->.
  rewrite Hrun'. simpl.
  destruct N as [| n ns].
  - eexists _, _, _. split; [reflexivity |]. split; [done |].
    split; [done |]. split; [done |]. intros H. by destruct (Hsome H).
  - destruct (join_cfg_nodes_quiet n ns st1)
      as (node' & st2 & Hjoin & Htrace & Hlog).
    fold st1. rewrite Hjoin.
    eexists _, _, _. split; [reflexivity |]. split; [done |].
    split; [done |]. split.
    + intros H. by destruct (Hall H) as [_ ?].
    + intros _. eexists. split; [reflexivity |]. by apply Hinv.
Qed.

(** X6.  [load_attr_noerror] looks the attribute up once in every binding of
    the object that is visible at the node, in their order, and does nothing
    else that can be seen: no call, no entry in the error log.  It gives no
    variable exactly when every such binding lacks the attribute (the node is
    then unchanged); otherwise the variable it gives has a binding. *)
Theorem load_attr_noerror_only_looks_up s obj attr st :
  let vals := Bindings obj (node s) in
  let all_lack :=
    Forall (fun val => lacks (node s) attr val = Datatypes.true) vals in
  exists node' result st',
    load_attr_noerror s obj attr st
    = (Ok (change_cfg_node s node', result), st')
    /\ trace st' = trace st ++ lookups_of (node s) attr vals
    /\ errorlog st' = errorlog st
    /\ (all_lack -> result = None /\ node' = node s)
    /\ (~ all_lack -> exists r, result = Some r /\ bindings r <> []).
Proof.
  intros vals all_lack. unfold load_attr_noerror, bind.
  destruct (_retrieve_attr_full (node s) obj attr st)
    as (node' & result & st' & -> & Htrace & Hlog & Hall & Hsome).
  eexists _, _, _. split; [reflexivity |]. split; [exact Htrace |].
  split; [exact Hlog |]. split; [| exact Hsome].
  intros H. by destruct (Hall H) as (? & ? & _).
Qed.

Lemma report_each_log rs st :
  exists st',
    report_each rs st = (Ok tt, st')
    /\ trace st' = trace st /\ errorlog st' = errorlog st ++ rs.
Proof.
  revert st. induction rs as [| r rs IH]; intros st.
  - eexists. simpl. by rewrite app_nil_r.
  - simpl. unfold bind, errorlog_add.
    destruct (IH (mkState (next_node st) (edges st) (next_id st)
                          (errorlog st ++ [r]) (trace st)))
      as (st' & -> & Htrace & Hlog).
    eexists. split; [reflexivity |]. split; [done |].
    rewrite Hlog. simpl. by rewrite <- app_assoc.
Qed.

(** X7.  [load_attr] never raises and never returns an empty variable: the
    frame state changes in its node only, and when no visible binding has the
    attribute the result is a new variable that holds the wildcard.  It calls
    nothing.  When every visible binding has the attribute nothing is
    reported; otherwise there is either the one message that the object is
    [None], or one message for each binding without the attribute that is not
    [None] and is reachable. *)
Theorem load_attr_always_gives_a_variable s obj attr st :
  let vals := Bindings obj (node s) in
  let errors := List.filter (lacks (node s) attr) vals in
  exists node' f st',
    load_attr s obj attr st = (Ok (change_cfg_node s node', f), st')
    /\ bindings f <> []
    /\ trace st' = trace st ++ lookups_of (node s) attr vals
    /\ (errors = vals -> f = create_new_unsolvable (node s))
    /\ (errors = [] -> errorlog st' = errorlog st)
    /\ (errorlog st' = errorlog st ++ [none_attr attr]
        \/ errorlog st'
           = errorlog st
             ++ map (fun error =>
                       attribute_or_module_error
                         (AssignToNewVariable
                            error (Some (convert.root_cfg_node cv)))
                         attr)
                    (List.filter
                       (fun error => negb (_is_none (node s) error))
                       errors)).
Proof.
  clear python_version_major init_class byte_other.
  intros vals errors. unfold load_attr. unfold bind at 1.
  destruct (_retrieve_attr_full (node s) obj attr st)
    as (node' & result & st1 & -> & Htrace & Hlog & Hall & Hsome).
  fold vals. fold errors.
  set (rs := map _ (List.filter _ errors)).
  destruct (report_each_log rs st1) as (st2 & Heach & Htrace2 & Hlog2).
  assert (exists st',
            match errors, bindings obj with
            | _ :: _, _ :: _ =>
                if _is_only_none (node s) obj
                then errorlog_add (none_attr attr) else report_each rs
            | _, _ => report_each rs
            end st1 = (Ok tt, st')
            /\ trace st' = trace st1
            /\ (errors = [] -> errorlog st' = errorlog st1)
            /\ (errorlog st' = errorlog st1 ++ [none_attr attr]
                \/ errorlog st' = errorlog st1 ++ rs))
    as (st' & Hreport & Htrace' & Hquiet & Hlog').
  { assert (errors = [] -> errorlog st2 = errorlog st1) as Hnone.
    { intros He. rewrite Hlog2. unfold rs. rewrite He. simpl.
      by rewrite app_nil_r. }
    assert (exists st',
              report_each rs st1 = (Ok tt, st')
              /\ trace st' = trace st1
              /\ (errors = [] -> errorlog st' = errorlog st1)
              /\ (errorlog st' = errorlog st1 ++ [none_attr attr]
                  \/ errorlog st' = errorlog st1 ++ rs)) as Heach'.
    { exists st2. split; [exact Heach |]. split; [exact Htrace2 |].
      split; [exact Hnone |]. by right. }
    clearbody rs.
    destruct errors as [| e es]; [exact Heach' |].
    destruct (bindings obj) as [| b bs]; [exact Heach' |].
    destruct (_is_only_none (node s) obj); [| exact Heach'].
    eexists. split; [reflexivity |]. split; [done |]. split; [done |].
    by left. }
  unfold bind. rewrite Hreport.
  eexists _, _, _. split; [reflexivity |].
  split.
  { destruct (fails_dec_lacks (node s) attr vals) as [H | H].
    - by destruct (Hall H) as (-> & _).
    - by destruct (Hsome H) as (r & -> & Hr). }
  split; [by rewrite Htrace', Htrace |].
  split.
  { intros He.
    assert (Forall (fun val => lacks (node s) attr val = Datatypes.true)
                   vals) as H.
    { rewrite <- He. unfold errors. apply List.Forall_forall.
      intros val Hval. apply filter_In in Hval. tauto. }
    by destruct (Hall H) as (-> & -> & _). }
  split.
  - intros He. rewrite <- Hlog. by apply Hquiet.
  - rewrite <- Hlog. exact Hlog'.
Qed.

(** *** Calls, whatever the fallback *)

(** A callee that leaves the error log as it finds it. *)
Definition quiet (node : cfg_node) (args : FunctionArgs) (funcv : binding)
    : Prop :=
  forall st,
    errorlog (snd (call (binding_data funcv) node funcv args st))
    = errorlog st.

Lemma after_calls_errorlog node args funcvs :
  Forall (quiet node args) funcvs ->
  forall st, errorlog (after_calls node args funcvs st) = errorlog st.
Proof.
  induction 1 as [| funcv rest Hquiet _ IH]; intros st; [done |].
  simpl. rewrite IH.
  unfold attempt_call, bind, log, invoke.
  specialize (Hquiet (add_trace [Call funcv node args] st)).
  unfold add_trace in Hquiet.
  by destruct (call _ _ _ _ _).
Qed.

(** X8.  Without the fallback, a call in which every binding of the callee
    fails raises the failure ranked highest, after having called every
    binding once, in order; nothing goes to the error log: the state is the
    one the calls left, and the error log that of the beginning when the
    callees leave it alone. *)
Theorem call_without_fallback_raises node funcu args st :
  bindings funcu <> [] ->
  Forall (fails node args) (bindings funcu) ->
  let st' := after_calls node args (bindings funcu) st in
  call_function node funcu args Datatypes.false st
  = (Error match ranked_error node args (bindings funcu) None st with
           | Some e => CallError e
           | None => TypeError "exceptions must derive from BaseException"
           end, st')
  /\ trace st' = trace st ++ calls_of node args (bindings funcu)
  /\ (Forall (quiet node args) (bindings funcu) ->
      errorlog st' = errorlog st).
Proof.
  intros Hbindings Hall. simpl.
  split; [| split; [apply after_calls_trace |]];
    [| intros Hquiet; by apply after_calls_errorlog].
  assert (Forall (returns_or_fails node args) (bindings funcu)) as Hcallees.
  { eapply Forall_impl; [exact Hall |]. apply fails_returns_or_fails. }
  destruct (call_bindings_spec node args (bindings funcu) Hcallees
              (mkVariable []) [] None st)
    as (R & N & Hrun & _ & Hfail & _).
  destruct (Hfail Hall) as (-> & ->).
  unfold call_function.
  destruct (bindings funcu) as [| b bs] eqn:Hb; [done |].
  unfold bind. rewrite Hrun.
  by destruct (ranked_error node args (b :: bs) None st).
Qed.

(** X9.  When no callee raises anything but a call error and the call of at
    least one binding of the callee returns, the failures of the other
    bindings are dropped: with or without the fallback the call returns a
    variable that has a binding, every binding has been called once, in
    order, and the call itself adds nothing to the error log that the calls
    left. *)
Theorem one_successful_call_is_enough node funcu args fallback st :
  Forall (returns_or_fails node args) (bindings funcu) ->
  Exists (returns node args) (bindings funcu) ->
  exists node' var st',
    call_function node funcu args fallback st = (Ok (node', var), st')
    /\ bindings var <> []
    /\ trace st' = trace st ++ calls_of node args (bindings funcu)
    /\ errorlog st'
       = errorlog (after_calls node args (bindings funcu) st).
Proof.
  intros Hcallees Hsome.
  destruct (call_bindings_spec node args (bindings funcu) Hcallees
              (mkVariable []) [] None st)
    as (R & N & Hrun & _ & _ & Hnodes).
  pose proof (after_calls_trace node args (bindings funcu) st) as Hcalls.
  unfold call_function.
  destruct (bindings funcu) as [| b bs] eqn:Hb;
    [by apply Exists_nil in Hsome |].
  unfold bind at 1. rewrite Hrun.
  destruct N as [| n ns]; [by destruct (Hnodes Hsome) |].
  unfold bind.
  destruct (join_cfg_nodes_quiet n ns (after_calls node args (b :: bs) st))
    as (node' & st' & -> & Htrace & Hlog).
  eexists _, _, _. split; [reflexivity |].
  split; [| by rewrite Htrace, Hlog].
  destruct (bindings R) eqn:HR.
  - apply AddBinding_nonempty.
  - by rewrite HR.
Qed.

(** *** Iterators and unary operators *)

(** No callee raises anything but a call error. *)
Definition callees_return_or_fail : Prop :=
  forall node args funcv, returns_or_fails node args funcv.

Lemma call_function_returns node funcu args st :
  callees_return_or_fail ->
  bindings funcu <> [] ->
  exists node' var st',
    call_function node funcu args Datatypes.true st = (Ok (node', var), st')
    /\ bindings var <> [].
Proof.
  intros Hcallees Hbindings.
  assert (Forall (returns_or_fails node args) (bindings funcu)) as Hall
    by (apply List.Forall_forall; intros funcv _; apply Hcallees).
  destruct (call_bindings_spec node args (bindings funcu) Hall
              (mkVariable []) [] None st)
    as (R & N & Hrun & _).
  unfold call_function.
  destruct (bindings funcu) as [| b bs] eqn:Hb; [done |].
  unfold bind at 1. rewrite Hrun.
  destruct N as [| n ns].
  - destruct (ranked_error node args (b :: bs) None st) as [[id | name] |];
      unfold bind, errorlog_add, _call_with_fake_args, ret;
      try destruct (forallb _ _); by eexists _, _, _.
  - unfold bind.
    destruct (join_cfg_nodes_ok n ns (after_calls node args (b :: bs) st))
      as (node' & st' & -> & _).
    eexists _, _, _. split; [reflexivity |].
    destruct (bindings R) eqn:HR.
    + apply AddBinding_nonempty.
    + by rewrite HR.
Qed.

Lemma call_function_with_state_returns s funcu posargs st :
  callees_return_or_fail ->
  bindings funcu <> [] ->
  exists node' var st',
    call_function_with_state s funcu posargs st
    = (Ok (change_cfg_node s node', var), st')
    /\ bindings var <> [].
Proof.
  intros Hcallees Hbindings. unfold call_function_with_state, bind.
  destruct (call_function_returns (node s) funcu
              (mkArgs posargs None None None) st Hcallees Hbindings)
    as (node' & var & st' & -> & Hvar).
  by eexists _, _, _.
Qed.

(** With [report_errors] an iterator is always returned, and it has a
    binding. *)
Lemma _get_iter_returns s seq st :
  callees_return_or_fail ->
  exists n itr st',
    _get_iter s seq Datatypes.true st
    = (Ok (change_cfg_node s n, Some itr), st')
    /\ bindings itr <> [].
Proof.
  intros Hcallees.
  unfold _get_iter, load_attr_noerror. unfold bind at 1 2.
  destruct (_retrieve_attr_spec (node s) seq "__iter__" st)
    as (node1 & [func |] & missing & st1 & -> & Hfunc).
  - simpl. unfold bind at 1.
    destruct (call_function_with_state_returns
                (change_cfg_node s node1) func [] st1 Hcallees
                ltac:(by apply Hfunc))
      as (node2 & var & st2 & -> & Hvar).
    by eexists _, _, _.
  - simpl. unfold bind at 1.
    destruct (_retrieve_attr_spec node1 seq "__getitem__" st1)
      as (node2 & [func |] & missing2 & st2 & -> & Hfunc2).
    + unfold bind at 1.
      match goal with
      | |- context [call_function_with_state ?s0 func ?posargs st2] =>
          destruct (call_function_with_state_returns s0 func posargs st2
                      Hcallees ltac:(by apply Hfunc2))
            as (node3 & var & st3 & -> & _)
      end.
      by eexists _, _, _.
    + unfold bind.
      match goal with
      | |- context [report_each ?rs st2] =>
          destruct (report_each_ok rs st2) as (st3 & -> & _)
      end.
      by eexists _, _, _.
Qed.

(** [VirtualMachine.byte_GET_ITER], lines 1957-1962.  With [report_errors]
    the iterator is a variable, never [None]. *)
Definition byte_GET_ITER (s : FrameState) (op : opcode) : M FrameState :=
  let* r := pop s in
  let '(s, seq) := r in
  let* r := _get_iter s seq Datatypes.true in
  let '(s, itr) := r in
  match itr with
  | Some itr => ret (push s itr)
  | None => raise (AssertionError "itr")
  end.

(** [VirtualMachine.unary_operator], lines 1223-1228. *)
Definition unary_operator (s : FrameState) (name : string) : M FrameState :=
  let* r := pop s in
  let '(s, x) := r in
  let* r := load_attr s x name in
  let '(s, method) := r in
  let* r := call_function_with_state s method [] in
  let '(s, result) := r in
  ret (push s result).

(** The frame state [s] with [top] in place of the top of its stack, at
    [node]. *)
Definition with_top (s : FrameState) (top : variable) (n : cfg_node)
    : FrameState :=
  mkFrameState n (top :: tail (data_stack s)) (block_stack s) (exception s)
               (why s).

(** X10.  [GET_ITER] on an empty stack raises [IndexError].  On any other
    stack, when no callee raises anything but a call error, it does not
    raise, whatever is on top: it puts an iterator variable that has a
    binding in place of the top of the stack and changes nothing of the frame
    state but the node. *)
Theorem get_iter_replaces_the_top s op st :
  callees_return_or_fail ->
  (data_stack s = [] -> byte_GET_ITER s op st = (Error IndexError, st))
  /\ (data_stack s <> [] ->
      exists itr n st',
        byte_GET_ITER s op st = (Ok (with_top s itr n), st')
        /\ bindings itr <> []).
Proof.
  intros Hcallees. unfold byte_GET_ITER, pop. split.
  - by intros ->.
  - destruct (data_stack s) as [| seq stack] eqn:Hs; [done |]. intros _.
    unfold bind at 1. unfold ret at 1. unfold bind at 1.
    set (s0 := mkFrameState _ _ _ _ _).
    destruct (_get_iter_returns s0 seq st Hcallees)
      as (n & itr & st' & -> & Hitr).
    exists itr, n, st'. split; [| exact Hitr].
    unfold with_top. by rewrite Hs.
Qed.

(** X11.  A unary operator on an empty stack raises [IndexError].  On any
    other stack, when no callee raises anything but a call error, it does not
    raise, whether or not the operand has the method and whether the call
    returns or fails: it puts a variable that has a binding in place of the
    top of the stack and changes nothing of the frame state but the node. *)
Theorem unary_operator_replaces_the_top s name st :
  callees_return_or_fail ->
  (data_stack s = [] -> unary_operator s name st = (Error IndexError, st))
  /\ (data_stack s <> [] ->
      exists result n st',
        unary_operator s name st = (Ok (with_top s result n), st')
        /\ bindings result <> []).
Proof.
  intros Hcallees. unfold unary_operator, pop. split.
  - by intros ->.
  - destruct (data_stack s) as [| x stack] eqn:Hs; [done |]. intros _.
    unfold bind at 1. unfold ret at 1. unfold bind at 1.
    set (s0 := mkFrameState _ _ _ _ _).
    destruct (load_attr_spec s0 x name st) as (n1 & f & st1 & -> & Hf).
    unfold bind.
    destruct (call_function_with_state_returns (change_cfg_node s0 n1) f []
                st1 Hcallees Hf) as (n2 & result & st2 & -> & Hresult).
    exists result, n2, st2. split; [| exact Hresult].
    unfold with_top. by rewrite Hs.
Qed.

(** *** Unpacking, whatever the sequence *)

Lemma _restructure_tuple_run node tup pre post st :
  (0 <= post)%Z ->
  pre + Z.to_nat post <= length tup ->
  let middle := drop pre (take (length tup - Z.to_nat post) tup) in
  let after := drop (length tup - Z.to_nat post) tup in
  _restructure_tuple node tup pre post st
  = (Ok (take pre tup
           ++ [to_variable (Obj (next_id st) (List middle)) node] ++ after),
     mkState (next_node st) (edges st) (S (next_id st)) (errorlog st)
             (trace st)).
Proof.
  intros Hpost Hlen. simpl. unfold _restructure_tuple.
  destruct (0 <? post)%Z eqn:Hpos.
  - reflexivity.
  - apply Z.ltb_ge in Hpos. replace (Z.to_nat post) with 0 by lia.
    rewrite Nat.sub_0_r, firstn_all, drop_all. reflexivity.
Qed.

(** X12.  [_restructure_tuple] on a tuple long enough for the targets keeps
    every element once and in order: the elements before the starred target,
    one new list variable, holding exactly the elements in the middle, and
    the [post] elements after it; the result has one element per target. *)
Theorem restructure_tuple_keeps_the_elements node tup pre post st :
  (0 <= post)%Z ->
  pre + Z.to_nat post <= length tup ->
  exists middle after l st',
    _restructure_tuple node tup pre post st
    = (Ok (take pre tup ++ [l] ++ after), st')
    /\ bindings l = [Binding (Obj (next_id st) (List middle)) [] node]
    /\ take pre tup ++ middle ++ after = tup
    /\ length after = Z.to_nat post
    /\ length (take pre tup ++ [l] ++ after) = pre + 1 + Z.to_nat post.
Proof.
  intros Hpost Hlen.
  eexists _, _, _, _. split; [by apply _restructure_tuple_run |].
  split; [reflexivity |].
  assert (length (drop (length tup - Z.to_nat post) tup) = Z.to_nat post)
    as Hafter by (rewrite length_drop; lia).
  split; [| split; [exact Hafter |]].
  - transitivity (take (length tup - Z.to_nat post) tup
                  ++ drop (length tup - Z.to_nat post) tup);
      [| apply take_drop].
    rewrite app_assoc. f_equal.
    replace (take pre tup)
      with (take pre (take (length tup - Z.to_nat post) tup))
      by (rewrite take_take; f_equal; lia).
    apply take_drop.
  - rewrite !length_app, length_take, Hafter. simpl. lia.
Qed.

Lemma zip_star_length {A : Type} (options : list (list A)) n :
  options <> [] ->
  Forall (fun option => length option = n) options ->
  length (zip_star options) = n.
Proof.
  induction options as [| option rest IH]; [done |].
  intros _ Hall. apply Forall_cons in Hall as [Hoption Hrest].
  destruct rest as [| option' rest].
  - simpl. by rewrite length_map.
  - change (zip_star (option :: option' :: rest))
      with (zip_with cons option (zip_star (option' :: rest))).
    rewrite length_zip_with, Hoption, IH by done. lia.
Qed.

(** The loop over the bindings returns; every option has one element per
    target, and a binding that gave no option is in [nontuple_seq]. *)
Lemma unpack_bindings_spec node n_before n_after bs :
  (-1 <= n_after)%Z ->
  let count := Z.to_nat (Z.of_nat n_before + n_after + 1) in
  forall options nontuple_seq st,
    Forall (fun option => length option = count) options ->
    exists O NT st',
      unpack_bindings node n_before n_after bs options nontuple_seq st
      = (Ok (O, NT), st')
      /\ Forall (fun option => length option = count) O
      /\ (bs <> [] \/ options <> [] \/ bindings nontuple_seq <> [] ->
          O <> [] \/ bindings NT <> []).
Proof.
  intros Hafter count.
  induction bs as [| b bs IH]; intros options nontuple_seq st Hall.
  - eexists _, _, _. split; [reflexivity |]. split; [done |].
    intros [H | H]; [done | exact H].
  - assert (exists O NT st',
              unpack_bindings node n_before n_after bs options
                (AddBinding nontuple_seq (binding_data b) [b] node) st
              = (Ok (O, NT), st')
              /\ Forall (fun option => length option = count) O
              /\ (O <> [] \/ bindings NT <> [])) as Hother.
    { destruct (IH options
                   (AddBinding nontuple_seq (binding_data b) [b] node) st
                   Hall) as (O & NT & st' & Hrun & HO & Hsome).
      exists O, NT, st'. split; [done |]. split; [done |].
      apply Hsome. right. right.
      destruct (bindings nontuple_seq) eqn:Hnt.
      - destruct nontuple_seq. simpl in Hnt. subst.
        apply AddBinding_nonempty.
      - apply AddBinding_keeps_bindings. by rewrite Hnt. }
    assert (forall option st1,
              length option = count ->
              exists O NT st',
                unpack_bindings node n_before n_after bs (options ++ [option])
                                nontuple_seq st1
                = (Ok (O, NT), st')
                /\ Forall (fun option => length option = count) O
                /\ (O <> [] \/ bindings NT <> [])) as Hoption.
    { intros option st1 Hlen.
      destruct (IH (options ++ [option]) nontuple_seq st1)
        as (O & NT & st' & Hrun & HO & Hsome).
      { apply Forall_app. split; [done |]. by apply Forall_singleton. }
      exists O, NT, st'. split; [done |]. split; [done |].
      apply Hsome. right. left. by destruct options. }
    assert (forall R : result (list (list variable) * variable) * state,
              (exists O NT st',
                 R = (Ok (O, NT), st')
                 /\ Forall (fun option => length option = count) O
                 /\ (O <> [] \/ bindings NT <> [])) ->
              exists O NT st',
                R = (Ok (O, NT), st')
                /\ Forall (fun option => length option = count) O
                /\ (b :: bs <> [] \/ options <> []
                    \/ bindings nontuple_seq <> [] ->
                    O <> [] \/ bindings NT <> [])) as Hweaken.
    { intros R (O & NT & st' & ? & ? & ?). by exists O, NT, st'. }
    apply Hweaken. simpl. fold count.
    destruct (_get_literal_sequence (binding_data b)) as [[| x tup] |];
      [exact Hother | | exact Hother].
    destruct ((-1 <? n_after)%Z && (count <=? length (x :: tup))) eqn:Hslurp.
    + apply andb_prop in Hslurp as [Hs Hc].
      apply Z.ltb_lt in Hs. apply Nat.leb_le in Hc.
      unfold bind.
      rewrite _restructure_tuple_run by (unfold count in Hc; lia).
      apply Hoption.
      rewrite !length_app, length_take, length_drop. simpl.
      unfold count in *. simpl in Hc. lia.
    + destruct (length (x :: tup) =? count) eqn:Hlen; [| exact Hother].
      apply Hoption. by apply Nat.eqb_eq in Hlen.
Qed.

Lemma bind_ok {A B : Type} (m : M A) (k : A -> M B) st a st' :
  m st = (Ok a, st') -> bind m k st = k a st'.
Proof. intros H. unfold bind. by rewrite H. Qed.

Lemma push_all_rest (g : cfg_node -> variable -> variable) values :
  forall s,
    let s' := fold_left (fun s value => push s (g (node s) value)) values s in
    block_stack s' = block_stack s
    /\ exception s' = exception s
    /\ why s' = why s.
Proof.
  induction values as [| v values IH]; intros s; [done |].
  simpl. by destruct (IH (push s (g (node s) v))) as (-> & -> & ->).
Qed.

Lemma or_empty_nonempty n value : bindings (or_empty n value) <> [].
Proof.
  unfold or_empty. destruct (bindings value) eqn:H; [done |]. by rewrite H.
Qed.

(** When no callee raises anything but a call error, unpacking a variable
    that has a binding puts one value that has a binding per target in place
    of the top of the stack. *)
Lemma _unpack_sequence_pushes s seq stack n_before n_after st :
  callees_return_or_fail ->
  (-1 <= n_after)%Z ->
  data_stack s = seq :: stack ->
  bindings seq <> [] ->
  exists values s' st',
    _unpack_sequence s n_before n_after st = (Ok s', st')
    /\ data_stack s' = values ++ stack
    /\ length values = Z.to_nat (Z.of_nat n_before + n_after + 1)
    /\ Forall (fun value => bindings value <> []) values
    /\ block_stack s' = block_stack s
    /\ exception s' = exception s
    /\ why s' = why s.
Proof.
  intros Hcallees Hafter Hstack Hseq.
  set (count := Z.to_nat (Z.of_nat n_before + n_after + 1)).
  unfold _unpack_sequence.
  replace (n_after <? -1)%Z with Datatypes.false
    by (symmetry; apply Z.ltb_ge; lia).
  unfold pop. rewrite Hstack. unfold bind at 1. unfold ret at 1.
  set (s0 := mkFrameState _ _ _ _ _).
  destruct (unpack_bindings_spec (node s0) n_before n_after (bindings seq)
              Hafter [] (mkVariable []) st ltac:(done))
    as (O & NT & st1 & Hloop & HO & Hsome).
  unfold bind at 1. rewrite Hloop. fold count in HO |- *.
  match goal with
  | |- context [bind ?m _ st1] =>
      assert (exists n options st2,
                m st1 = (Ok (change_cfg_node s0 n, options), st2)
                /\ options <> []
                /\ Forall (fun option => length option = count) options)
        as (n & options & st2 & Hmid & Hoptions & Hall)
  end.
  { destruct (bindings NT) as [| b bs] eqn:HNT.
    - exists (node s0), O, st1. split; [done |]. split; [| done].
      by destruct (Hsome ltac:(by left)).
    - destruct (_get_iter_returns s0 NT st1 Hcallees)
        as (n1 & itr & st2 & Hiter & _).
      unfold bind at 1. rewrite Hiter.
      destruct (load_attr_spec (change_cfg_node s0 n1) itr "next" st2)
        as (n2 & f & st3 & Hload & Hf).
      unfold bind at 1. rewrite Hload.
      destruct (call_function_with_state_returns
                  (change_cfg_node (change_cfg_node s0 n1) n2) f [] st3
                  Hcallees Hf)
        as (n3 & result & st4 & Hcall & _).
      unfold bind at 1. rewrite Hcall.
      assert (forall option,
                length option = count ->
                O ++ [option] <> []
                /\ Forall (fun option => length option = count)
                          (O ++ [option])) as Hnew.
      { intros option Hlen. split; [by destruct O |].
        apply Forall_app. split; [done |]. by apply Forall_singleton. }
      destruct (-1 <? n_after)%Z.
      + eexists _, _, _. split; [reflexivity |].
        apply Hnew. by rewrite length_insert, length_replicate.
      + eexists _, _, _. split; [reflexivity |].
        apply Hnew. by rewrite length_replicate. }
  rewrite (bind_ok _ _ _ _ _ Hmid).
  set (values := map build_content (zip_star options)).
  destruct (push_all or_empty (rev values) (change_cfg_node s0 n))
    as [_ Hpushed].
  destruct (push_all_rest or_empty (rev values) (change_cfg_node s0 n))
    as (Hblocks & Hexception & Hwhy).
  eexists _, _, _. split; [reflexivity |].
  split; [rewrite Hpushed, <- map_rev, rev_involutive; reflexivity |].
  split; [| split; [| done]].
  - unfold values. rewrite !length_map. by apply zip_star_length.
  - apply List.Forall_forall. intros value Hin.
    apply in_map_iff in Hin as (v & <- & _). apply or_empty_nonempty.
Qed.

(** [byte_UNPACK_SEQUENCE] and [byte_UNPACK_EX], lines 1815-1821. *)
Definition byte_UNPACK_SEQUENCE (s : FrameState) (op : opcode)
    : M FrameState :=
  _unpack_sequence s (arg op) (-1).

Definition byte_UNPACK_EX (s : FrameState) (op : opcode) : M FrameState :=
  let n_before := Z.to_nat (Z.land (Z.of_nat (arg op)) 255) in
  let n_after := Z.shiftr (Z.of_nat (arg op)) 8 in
  _unpack_sequence s n_before n_after.

(** X13.  [UNPACK_SEQUENCE] with [n] targets, on a stack whose top variable
    has a binding, does not raise when no callee raises anything but a call
    error: in place of the top it leaves exactly [n] values, each with a
    binding, whatever the alternatives of the sequence are (literals of the
    right or of another length, iterables, objects that cannot be iterated);
    the rest of the frame state but the node is unchanged. *)
Theorem unpack_sequence_pushes_one_value_per_target s op seq stack st :
  callees_return_or_fail ->
  data_stack s = seq :: stack ->
  bindings seq <> [] ->
  exists values s' st',
    byte_UNPACK_SEQUENCE s op st = (Ok s', st')
    /\ data_stack s' = values ++ stack
    /\ length values = arg op
    /\ Forall (fun value => bindings value <> []) values
    /\ block_stack s' = block_stack s.
Proof.
  intros Hcallees Hstack Hseq.
  destruct (_unpack_sequence_pushes s seq stack (arg op) (-1) st
              Hcallees ltac:(lia) Hstack Hseq)
    as (values & s' & st' & Hrun & Hvalues & Hlen & Hall & Hblocks & _).
  exists values, s', st'. split; [exact Hrun |]. split; [exact Hvalues |].
  split; [lia |]. by split.
Qed.

(** X14.  [UNPACK_EX] reads the number of targets before the starred one from
    the low byte of its argument and the number after it from the bits above:
    for the argument [n_before + 256 * n_after] with [n_before < 256] it
    unpacks with these two numbers, and so, when no callee raises anything
    but a call error, leaves [n_before + 1 + n_after] values in place of the
    top. *)
Theorem unpack_ex_decodes_its_argument s op n_before n_after seq stack st :
  callees_return_or_fail ->
  arg op = n_before + 256 * n_after ->
  n_before < 256 ->
  data_stack s = seq :: stack ->
  bindings seq <> [] ->
  byte_UNPACK_EX s op = _unpack_sequence s n_before (Z.of_nat n_after)
  /\ exists values s' st',
       byte_UNPACK_EX s op st = (Ok s', st')
       /\ data_stack s' = values ++ stack
       /\ length values = n_before + 1 + n_after
       /\ Forall (fun value => bindings value <> []) values.
Proof.
  intros Hcallees Harg Hbefore Hstack Hseq.
  assert (byte_UNPACK_EX s op
          = _unpack_sequence s n_before (Z.of_nat n_after)) as Hdecode.
  { unfold byte_UNPACK_EX. rewrite Harg.
    change 255%Z with (Z.ones 8).
    rewrite Z.land_ones, Z.shiftr_div_pow2 by lia.
    change (2 ^ 8)%Z with 256%Z.
    replace (Z.of_nat (n_before + 256 * n_after))
      with (Z.of_nat n_before + Z.of_nat n_after * 256)%Z by lia.
    rewrite Z.mod_add, Z.div_add by lia.
    rewrite Z.mod_small, Z.div_small by lia.
    f_equal; lia. }
  split; [exact Hdecode |]. rewrite Hdecode.
  destruct (_unpack_sequence_pushes s seq stack n_before (Z.of_nat n_after)
              st Hcallees ltac:(lia) Hstack Hseq)
    as (values & s' & st' & Hrun & Hvalues & Hlen & Hall & _).
  exists values, s', st'. split; [exact Hrun |]. split; [exact Hvalues |].
  split; [lia | exact Hall].
Qed.

(** *** Instructions that end a block *)

(** X15.  A state that [run_instruction] returns never has the reason
    [reraise]: whatever the function of the instruction does, a re-raise
    leaves the instruction as the reason [exception]. *)
Theorem run_instruction_never_leaves_reraise op s frame st s' frame' st' :
  run_instruction op s frame st = (Ok (s', frame'), st') ->
  why s' <> Some "reraise".
Proof.
  unfold run_instruction.
  destruct (bytecode_fn (op_name op)) as [fn |]; [| done].
  destruct (fn s op frame st) as [e st1].
  assert (forall s0,
            why (if bool_decide (why s0 = Some "reraise")
                 then set_why s0 "exception" else s0)
            <> Some "reraise") as Hreraised.
  { intros s0. by destruct (bool_decide_reflect (why s0 = Some "reraise")). }
  destruct e; [| | | done]; intros [= <- _ _];
    first [apply Hreraised | done].
Qed.

(** The operands [RAISE_VARARGS] pops: its argument, when that is at most
    three. *)
Definition raise_operands (op : opcode) : nat :=
  if arg op <=? 3 then arg op else 0.

(** X16.  In Python 2, [RAISE_VARARGS] always ends its block: when the stack
    holds its operands the instruction returns a state with the reason
    [exception] (also for a re-raise with a traceback, and for a bare [raise]
    with no exception being handled) and with an exception recorded; the
    operands are gone from the stack, and neither the frame nor the machine
    state has changed.  When the stack is too short it raises
    [IndexError]. *)
Theorem raise_varargs_ends_the_block op s frame st :
  python_version_major = 2 ->
  op_name op = "RAISE_VARARGS" ->
  (raise_operands op <= length (data_stack s) ->
   exists s',
     run_instruction op s frame st = (Ok (s', frame), st)
     /\ why s' = Some "exception"
     /\ exception s' <> None
     /\ data_stack s' = drop (raise_operands op) (data_stack s)
     /\ node s' = node s
     /\ block_stack s' = block_stack s)
  /\ (length (data_stack s) < raise_operands op ->
      run_instruction op s frame st = (Error IndexError, st)).
Proof.
  intros Hversion Hname.
  unfold run_instruction, raise_operands. rewrite Hname. simpl.
  unfold byte_RAISE_VARARGS. rewrite Hversion. simpl.
  unfold byte_RAISE_VARARGS_PY2, pop.
  destruct (arg op) as [| [| [| [| n]]]]; simpl.
  - split; [| lia]. intros _.
    destruct (exception s) as [[exctype val [tb |] | t m] |];
      by eexists.
  - destruct (data_stack s) as [| v1 stack]; simpl.
    + split; [lia | done].
    + split; [| lia]. intros _. by eexists.
  - destruct (data_stack s) as [| v1 [| v2 stack]]; simpl.
    + split; [lia | done].
    + split; [lia | done].
    + split; [| lia]. intros _. by eexists.
  - destruct (data_stack s) as [| v1 [| v2 [| v3 stack]]]; simpl.
    + split; [lia | done].
    + split; [lia | done].
    + split; [lia | done].
    + split; [| lia]. intros _. by eexists.
  - split; [| lia]. intros _. by eexists.
Qed.

(** X21.  [RETURN_VALUE] in a frame without a declared return type, with a
    variable that has a binding on top of the stack: the instruction ends its
    block with the reason [return], takes the variable off the stack, and the
    return variable of the frame has a binding afterwards; the states
    recorded in the frame and the machine state are unchanged. *)
Theorem return_value_fills_the_return_variable op s frame st var stack :
  op_name op = "RETURN_VALUE" ->
  allowed_returns frame = None ->
  data_stack s = var :: stack ->
  bindings var <> [] ->
  exists s' frame',
    run_instruction op s frame st = (Ok (s', frame'), st)
    /\ why s' = Some "return"
    /\ data_stack s' = stack
    /\ bindings (return_variable frame') <> []
    /\ states frame' = states frame
    /\ order frame' = order frame.
Proof.
  intros Hname Hreturns Hstack Hvar.
  unfold run_instruction. rewrite Hname. simpl.
  unfold byte_RETURN_VALUE, plain, pop, bind, ret.
  rewrite Hstack, Hreturns. simpl.
  eexists _, _. split; [reflexivity |]. split; [done |]. split; [done |].
  split; [| done]. simpl. by apply PasteVariable_nonempty.
Qed.

(** *** Unwinding the block stack *)

(** [while block.level < len(state.data_stack): pop_and_discard]; the top
    of the stack is the head of the list. *)
Fixpoint discard_to_level (level : nat) (stack : list variable)
    : list variable :=
  match stack with
  | [] => []
  | _ :: rest =>
      if level <? length stack then discard_to_level level rest else stack
  end.

(** The loop of [_revert_state_to]: the top block is popped, and the data
    stack cut to its level, until the top block has the type [name];
    [block_stack[-1]] of an empty block stack raises. *)
Fixpoint revert_blocks (name : string) (blocks : list Block)
    (stack : list variable) : M (list Block * list variable) :=
  match blocks with
  | [] => raise IndexError
  | block :: rest =>
      if String.eqb (block_type block) name then ret (blocks, stack)
      else revert_blocks name rest (discard_to_level (level block) stack)
  end.

(** [VirtualMachine._revert_state_to], lines 1973-1978. *)
Definition _revert_state_to (s : FrameState) (name : string)
    : M FrameState :=
  let* r := revert_blocks name (block_stack s) (data_stack s) in
  let '(blocks, stack) := r in
  ret (mkFrameState (node s) stack blocks (exception s) (why s)).

Lemma discard_to_level_spec level stack :
  discard_to_level level stack
  = drop (length stack - level) stack.
Proof.
  induction stack as [| v stack IH]; [done |].
  simpl. destruct (level <? S (length stack)) eqn:H.
  - apply Nat.ltb_lt in H. rewrite IH.
    by replace (S (length stack) - level)
      with (S (length stack - level)) by lia.
  - apply Nat.ltb_ge in H.
    by replace (S (length stack) - level) with 0 by lia.
Qed.

(** X17.  [_revert_state_to] unwinds to the nearest block of the type asked
    for: the blocks above it are popped, it stays on top with everything
    below it, and the data stack is cut from the top to a depth that is at
    most the level of every block popped (it is left as it is when it is
    already that short).  When no block has that type the function raises
    [IndexError]. *)
Theorem revert_state_to_the_nearest_block s name st :
  (forall popped block rest,
     block_stack s = popped ++ block :: rest ->
     Forall (fun b => block_type b <> name) popped ->
     block_type block = name ->
     exists stack,
       _revert_state_to s name st
       = (Ok (mkFrameState (node s) stack (block :: rest) (exception s)
                           (why s)), st)
       /\ stack `suffix_of` data_stack s
       /\ Forall (fun b => length stack <= level b) popped
       /\ (Forall (fun b => length (data_stack s) <= level b) popped ->
           stack = data_stack s))
  /\ (Forall (fun b => block_type b <> name) (block_stack s) ->
      _revert_state_to s name st = (Error IndexError, st)).
Proof.
  unfold _revert_state_to, bind. split.
  - intros popped block rest -> Hpopped Hblock.
    generalize (data_stack s) as stack0.
    induction popped as [| b popped IH]; intros stack0.
    + simpl. apply String.eqb_eq in Hblock. rewrite Hblock.
      exists stack0. by split.
    + apply Forall_cons in Hpopped as [Hb Hpopped].
      simpl. apply String.eqb_neq in Hb. rewrite Hb.
      destruct (IH Hpopped (discard_to_level (level b) stack0))
        as (stack & Hrun & Hsuffix & Hlevels & Hsame).
      exists stack. split; [exact Hrun |].
      rewrite discard_to_level_spec in Hsuffix, Hsame.
      assert (stack `suffix_of` stack0) as Hsuffix0.
      { etransitivity; [exact Hsuffix |]. apply suffix_drop. }
      split; [exact Hsuffix0 |]. split.
      * apply Forall_cons. split; [| exact Hlevels].
        apply suffix_length in Hsuffix. rewrite length_drop in Hsuffix.
        lia.
      * intros Hshort. apply Forall_cons in Hshort as [Hb0 Hshort].
        replace (length stack0 - level b) with 0 in Hsame by lia.
        by apply Hsame.
  - generalize (data_stack s) as stack0.
    induction (block_stack s) as [| b blocks IH]; intros stack0 Hall;
      [done |].
    apply Forall_cons in Hall as [Hb Hall].
    simpl. apply String.eqb_neq in Hb. rewrite Hb.
    by apply IH.
Qed.

(** *** More on the dispatch of operators *)

(** X18.  Operands of one and the same class: the class does not override
    itself, so the forward method on the left operand is the first option
    and the reflected method on the right operand the second.  (The
    method-resolution order of a class begins with the class, and a class is
    equal to itself.) *)
Theorem same_class_forward_first node name rname xval yval c xcls ycls :
  reverse_operator_name name = Some rname ->
  cls (binding_data xval) = Some xcls ->
  cls (binding_data yval) = Some ycls ->
  data xcls = [c] ->
  data ycls = [c] ->
  (exists rest, mro (_base c) = _base c :: rest) ->
  value_eqb (_base c) (_base c) = Datatypes.true ->
  _overrides node (cls (binding_data yval)) (cls (binding_data xval)) rname
  = Datatypes.false
  /\ binop_options node name xval yval
     = [(xval, yval, name); (yval, xval, rname)].
Proof.
  intros Hr Hx Hy Hxc Hyc [rest Hmro] Heq.
  assert (_overrides node (cls (binding_data yval))
                     (cls (binding_data xval)) rname = Datatypes.false)
    as Hover.
  { unfold _overrides, _yield_subclass_superclass_pairs.
    rewrite Hx, Hy, Hxc, Hyc. simpl.
    destruct (existsb _ (mro c)); [| done].
    simpl. by rewrite Hmro, orb_false_r; simpl; rewrite Heq. }
  split; [exact Hover |].
  unfold binop_options. by rewrite Hr, Hover.
Qed.

(** X19.  An operator without a reflected form is dispatched to the left
    operand only, wildcard or not: its method is looked up once on the left
    operand and nothing is ever looked up on the right operand. *)
Theorem no_reflected_form_one_lookup node name xval yval st :
  reverse_operator_name name = None ->
  exists evs,
    trace (snd (_call_binop_on_bindings node name xval yval st))
    = trace st ++ evs
    /\ lookups evs = [(xval, name)].
Proof.
  intros Hr. unfold _call_binop_on_bindings, binop_options. rewrite Hr.
  destruct (try_options_trace [(xval, yval, name)] node None st)
    as (evs & Htrace & Hprefix & Hhead).
  exists evs. split; [exact Htrace |].
  simpl in Hprefix, Hhead.
  destruct (lookups evs) as [| l ls]; [done |].
  injection Hhead as ->.
  destruct Hprefix as [k Hk]. destruct ls; [done | by destruct k].
Qed.

(** The loop over the options when no option has its attribute: every
    option is looked up, nothing is called, and the result is no variable. *)
Lemma try_options_none options :
  forall node error st,
    Forall (fun '(left_val, _, attr_name) =>
              forall n, lacks n attr_name left_val = Datatypes.true)
           options ->
    exists node' evs,
      try_options node options error st
      = match error with
        | Some e => (Error (CallError e), add_trace evs st)
        | None => (Ok (node', None), add_trace evs st)
        end
      /\ lookups evs = map attempt options
      /\ Forall (fun e => match e with
                          | GetAttribute _ _ _ _ => True
                          | Call _ _ _ => False
                          end) evs.
Proof.
  induction options as [| [[left_val right_val] attr_name] rest IH];
    intros node error st Hall.
  - exists node, []. rewrite add_trace_nil. by destruct error.
  - apply Forall_cons in Hall as [Hlacks Hall].
    specialize (Hlacks node). unfold lacks in Hlacks.
    simpl. unfold bind at 1. unfold log.
    set (st1 := mkState _ _ _ _ _).
    destruct (get_attribute_generic node (binding_data left_val) attr_name
                                    left_val) as [node1 attr_var].
    simpl in Hlacks.
    assert (try_options node1 rest error st1
            = match attr_var with
              | Some (mkVariable (b :: bs) as attr_var) =>
                  try_options node1 rest error st1
              | _ => try_options node1 rest error st1
              end) as Hskip by (by destruct attr_var as [[[| b bs]] |]).
    destruct (IH node1 error st1 Hall) as (node' & evs & Hrun & Hlook & Hno).
    exists node',
      (GetAttribute node (binding_data left_val) attr_name left_val :: evs).
    replace (add_trace (GetAttribute node (binding_data left_val) attr_name
                                     left_val :: evs) st)
      with (add_trace evs st1)
      by (unfold add_trace, st1; simpl; by rewrite <- app_assoc).
    split; [| split].
    + destruct attr_var as [[[| b bs]] |]; [exact Hrun | done | exact Hrun].
    + simpl. by rewrite Hlook.
    + by apply Forall_cons.
Qed.

(** X20.  When neither operand has its method (the attribute handler gives
    nothing for the forward method on the left operand and nothing for the
    reflected method on the right operand), the dispatch of an operator with
    a reflected form on a left operand that is no wildcard returns no
    variable and raises nothing: both methods have been looked up, nothing
    has been called and nothing reported. *)
Theorem unsupported_operands_give_no_variable node name rname xval yval st :
  reverse_operator_name name = Some rname ->
  is_AMBIGUOUS_OR_EMPTY (binding_data xval) = Datatypes.false ->
  (forall n, lacks n name xval = Datatypes.true) ->
  (forall n, lacks n rname yval = Datatypes.true) ->
  exists node' evs,
    _call_binop_on_bindings node name xval yval st
    = (Ok (node', None), add_trace evs st)
    /\ length (lookups evs) = 2
    /\ Forall (fun e => match e with
                        | GetAttribute _ _ _ _ => True
                        | Call _ _ _ => False
                        end) evs
    /\ errorlog (add_trace evs st) = errorlog st.
Proof.
  intros Hr Hx Hforward Hreflected.
  unfold _call_binop_on_bindings. rewrite Hr, Hx.
  destruct (try_options_none (binop_options node name xval yval) node None
              st) as (node' & evs & Hrun & Hlook & Hno).
  { unfold binop_options. rewrite Hr.
    destruct (_overrides _ _ _ _);
      repeat (constructor; [assumption |]); constructor. }
  exists node', evs. split; [exact Hrun |].
  split; [| by split].
  rewrite Hlook. unfold binop_options. rewrite Hr.
  by destruct (_overrides _ _ _ _).
Qed.

End machine.

(** ** A small program for the machine *)

Module sample.

Definition cv0 : convert.Converter := convert.sample.cv0.

(** A class [A] that defines [__add__], a subclass [B] of it that defines
    [__radd__], a class [G] whose instances are iterated with [__iter__] and
    [next], and a class [C] whose [__init__] fails. *)
Definition method (id : nat) (name : string) : value :=
  Obj id (PyTDFunction Datatypes.false name [("self", 1)] "method"
                       Datatypes.false).

Definition class_A : value :=
  Obj 201 (PyTDClass "A" (pytd.mkClass "A" [] []) None).
Definition class_B : value :=
  Obj 202 (PyTDClass "B" (pytd.mkClass "B" [pytd.ClassType "A"] []) None).
Definition class_G : value :=
  Obj 203 (PyTDClass "G" (pytd.mkClass "G" [] []) None).

Definition a : value := Obj 210 (Instance class_A []).
Definition b : value := Obj 211 (Instance class_B []).
Definition g : value := Obj 212 (Instance class_G []).

Definition A_add : value := method 220 "__add__".
Definition B_radd : value := method 221 "__radd__".
Definition G_iter : value := method 222 "__iter__".
Definition G_next : value := method 223 "next".
Definition C_init : value := method 224 "__init__".

Definition cls0 (v : value) : option variable :=
  match desc_of v with
  | Instance c _ => Some (to_variable c 0)
  | AbstractOrConcreteValue _ c => Some (to_variable c 0)
  | _ => None
  end.

Definition value_eqb0 (v w : value) : bool := Nat.eqb (oid v) (oid w).

Definition mro0 (c : value) : list value :=
  if value_eqb0 c class_B then [class_B; class_A; convert.object_type cv0]
  else [c; convert.object_type cv0].

Definition members0 (c : value) : list (string * variable) :=
  if value_eqb0 c class_A then [("__add__", to_variable A_add 0)]
  else if value_eqb0 c class_B then [("__radd__", to_variable B_radd 0)]
  else if value_eqb0 c class_G
       then [("__iter__", to_variable G_iter 0);
             ("next", to_variable G_next 0)]
       else [].

Definition name_of0 (v : value) : string :=
  match desc_of v with
  | PyTDFunction _ name _ _ _ => name
  | PyTDClass name _ _ => name
  | _ => ""
  end.

(** The attribute of an instance is the member of the first class of the
    method-resolution order that has it. *)
Definition get_attribute_generic0 (node : cfg_node) (obj : value)
    (name : string) (valself : binding) : cfg_node * option variable :=
  match desc_of obj with
  | Instance c _ =>
      (node,
       head (flat_map
               (fun c =>
                  match List.find (fun m => String.eqb (fst m) name)
                                  (members0 c) with
                  | Some (_, var) => [var]
                  | None => []
                  end)
               (mro0 c)))
  | _ => (node, None)
  end.

(** [__add__] and [__radd__] give an [A], [__iter__] gives the iterated
    object itself and [next] an integer; [__init__] fails. *)
Definition call0 (func : value) (node : cfg_node) (funcv : binding)
    (args : FunctionArgs) : M (cfg_node * variable) :=
  if value_eqb0 func A_add || value_eqb0 func B_radd
  then ret (node, to_variable a node)
  else if value_eqb0 func G_iter then ret (node, to_variable g node)
  else if value_eqb0 func G_next
       then ret (node,
                 to_variable
                   (convert.primitive_class_instances cv0 convert.p_int)
                   node)
       else raise (CallError (FailedFunctionCall (oid func))).


Lemma call0_returns_or_fails : callees_return_or_fail call0.
Proof.
  intros node args funcv st. unfold outcome_of, call0.
  destruct (_ || _); [done |].
  destruct (value_eqb0 _ G_iter); [done |].
  by destruct (value_eqb0 _ G_next).
Qed.

Lemma call0_quiet node args funcv : quiet call0 node args funcv.
Proof.
  intros st. unfold call0.
  destruct (_ || _); [done |].
  destruct (value_eqb0 _ G_iter); [done |].
  by destruct (value_eqb0 _ G_next).
Qed.

Definition error_gt0 (e : call_error) (error : option call_error) : bool :=
  match error with
  | None => Datatypes.true
  | Some _ => Datatypes.false
  end.

Definition is_lazy0 (c : value) : bool := Datatypes.false.
Definition load_lazy_attribute0 (c : value) (attr : string)
    : list (string * variable) := members0 c.
Definition visible0 (node : cfg_node) (b : binding) : bool := Datatypes.true.
Definition HasCombination0 (node : cfg_node) (bs : list binding) : bool :=
  Datatypes.true.
Definition tuple_subclass_literal0 (v : value) : option (list variable) :=
  None.

Definition st0 : state := mkState 1 [] 300 [] [].

Definition xa : binding := Binding a [] 0.
Definition yb : binding := Binding b [] 0.
Definition wildcard : binding := Binding (convert.unsolvable cv0) [] 0.

Definition binop (name : string) (xval yval : binding) :=
  _call_binop_on_bindings cv0 get_attribute_generic0 call0 error_gt0 cls0
                          mro0 is_lazy0 members0 load_lazy_attribute0
                          value_eqb0 name_of0 visible0 0 name xval yval.



(** What [a + b] leaves in the trace: the lookup of [__radd__] in [b] and
    its call on [a]; [__add__] is not looked up. *)
Lemma a_plus_b_calls_radd :
  exists node' ret_var st',
    binop "__add__" xa yb st0 = (Ok (node', Some ret_var), st')
    /\ trace st'
       = [GetAttribute 0 b "__radd__" yb;
          Call (Binding B_radd [] 0) 0
               (mkArgs [AssignToNewVariable xa None] None None None)].
Proof. eexists _, _, _. split; vm_compute; reflexivity. Qed.

(** A wildcard plus [b]. *)
Lemma ambiguous_left_operand_witness :
  binop "__add__" wildcard yb st0
  = (Ok (0, Some (NewVariable [convert.unsolvable cv0] [wildcard; yb] 0)),
     st0)
  /\ data (NewVariable [convert.unsolvable cv0] [wildcard; yb] 0)
     = [convert.unsolvable cv0].
Proof.
  apply (ambiguous_left_operand
           cv0 get_attribute_generic0 call0 error_gt0 cls0 mro0 is_lazy0
           members0 load_lazy_attribute0 value_eqb0 name_of0 visible0
           0 "__add__" "__radd__" wildcard yb st0); reflexivity.
Defined.

Definition bare : FunctionArgs := mkArgs [] None None None.

Definition call (funcu : variable) :=
  call_function cv0 call0 error_gt0 name_of0 0 funcu bare Datatypes.true.



(** [while True: pass] *)
Definition loop_frame : Frame :=
  mkFrame [[mkOpcode 0 "JUMP_ABSOLUTE" 0 (Some 0) None Datatypes.false]]
          0 ∅ (mkVariable []) None.

(** A bare [raise] followed by the implicit [return None]. *)
Definition raise_frame : Frame :=
  mkFrame [[mkOpcode 0 "RAISE_VARARGS" 0 None (Some 1) Datatypes.false];
           [mkOpcode 1 "LOAD_CONST" 0 None (Some 2) Datatypes.true;
            mkOpcode 2 "RETURN_VALUE" 0 None None Datatypes.false]]
          0 ∅ (mkVariable []) None.

Definition init_class0 (node : cfg_node) (c : value) : M variable :=
  ret (to_variable (Obj 0 (Instance c [])) node).
Definition byte_RAISE_VARARGS_PY3_0 : bytecode :=
  fun s op frame st => (Next (set_why s "exception") frame, st).
Definition byte_other0 (name : string) : option bytecode := None.

Definition run (frame : Frame) :=
  run_frame cv0 2 init_class0 byte_RAISE_VARARGS_PY3_0 byte_other0 frame 0.


(** A frame whose only block ends by raising collects a return node, so no
    wildcard is added, and nothing was pasted into its return variable: the
    variable it returns has no binding. *)
Lemma a_frame_that_raises_returns_an_empty_variable :
  exists node frame st,
    run raise_frame st0 = (Ok (node, mkVariable [], frame), st).
Proof. eexists _, _, _. vm_compute. reflexivity. Qed.

(** A bare [raise] and nothing else. *)
Definition only_raise_frame : Frame :=
  mkFrame [[mkOpcode 0 "RAISE_VARARGS" 0 None None Datatypes.false]]
          0 ∅ (mkVariable []) None.

Lemma others_keep_return_variable0 :
  others_keep_return_variable byte_RAISE_VARARGS_PY3_0 byte_other0.
Proof. split; [by intros s op frame st | by intros name fn]. Qed.

(** The loop never leaves its block: the frame returns the wildcard.  The
    frame of a bare [raise] returns the empty variable it began with. *)
Lemma return_variable_of_a_frame_witness :
  (exists v frame st,
     run loop_frame st0 = (Ok (0, v, frame), st)
     /\ bindings v = [Binding (convert.unsolvable cv0) [] 0])
  /\ exists node frame st,
       run only_raise_frame st0
       = (Ok (node, return_variable frame, frame), st)
       /\ return_variable frame = mkVariable [].
Proof.
  split.
  - edestruct (return_variable_of_a_frame
                 cv0 2 init_class0 byte_RAISE_VARARGS_PY3_0 byte_other0
                 loop_frame 0 st0) as [Hloop _].
    { exact others_keep_return_variable0. }
    { vm_compute. reflexivity. }
    destruct (Hloop eq_refl eq_refl) as (v & Hrun & Hv).
    eexists _, _, _. split; [exact Hrun | exact Hv].
  - edestruct (return_variable_of_a_frame
                 cv0 2 init_class0 byte_RAISE_VARARGS_PY3_0 byte_other0
                 only_raise_frame 0 st0) as [_ Hraise].
    { exact others_keep_return_variable0. }
    { vm_compute. reflexivity. }
    destruct (Hraise ltac:(discriminate)) as ((node' & st2 & Hrun) & Hkept).
    eexists _, _, _. split; [exact Hrun |].
    apply Hkept. repeat constructor. discriminate.
Defined.

(** The state of [x, y, z = g]: the iterable is on the stack. *)
Definition s_g : FrameState :=
  mkFrameState 0 [to_variable g 0] [] None None.






(** *** Calls, unpacking, instructions and operators on the sample *)

(** A callee that is either [C.__init__], which fails, or [A.__add__]. *)
Definition init_or_add : variable :=
  mkVariable [Binding C_init [] 0; Binding A_add [] 0].

Lemma call_without_fallback_raises_witness :
  call_function cv0 call0 error_gt0 name_of0 0 (to_variable C_init 0) bare
                Datatypes.false st0
  = (Error (CallError (FailedFunctionCall 224)),
     add_trace [Call (Binding C_init [] 0) 0 bare] st0)
  /\ errorlog (add_trace [Call (Binding C_init [] 0) 0 bare] st0)
     = errorlog st0.
Proof.
  destruct (call_without_fallback_raises
              cv0 call0 error_gt0 name_of0 0 (to_variable C_init 0) bare st0)
    as (Hrun & _ & Hlog).
  - discriminate.
  - repeat constructor. intros st. by eexists.
  - split; [exact Hrun |].
    apply Hlog. constructor; [apply call0_quiet | constructor].
Defined.

Lemma one_successful_call_is_enough_witness :
  exists node' var st',
    call_function cv0 call0 error_gt0 name_of0 0 init_or_add bare
                  Datatypes.false st0
    = (Ok (node', var), st')
    /\ bindings var <> []
    /\ trace st' = trace st0 ++ calls_of 0 bare (bindings init_or_add)
    /\ errorlog st'
       = errorlog (after_calls call0 0 bare (bindings init_or_add) st0).
Proof.
  apply (one_successful_call_is_enough
           cv0 call0 error_gt0 name_of0 0 init_or_add bare Datatypes.false
           st0).
  - repeat constructor; apply call0_returns_or_fails.
  - apply Exists_cons_tl, Exists_cons_hd. intros st. by eexists.
Defined.

(** [iter(g)] and [-a] *)
Definition get_iter_op : opcode :=
  mkOpcode 0 "GET_ITER" 0 None (Some 1) Datatypes.true.

Lemma get_iter_replaces_the_top_witness :
  exists itr n st',
    byte_GET_ITER cv0 get_attribute_generic0 call0 error_gt0 cls0 value_eqb0
                  name_of0 visible0 HasCombination0
                  (mkFrameState 0 [to_variable g 0] [] None None)
                  get_iter_op st0
    = (Ok (with_top (mkFrameState 0 [to_variable g 0] [] None None) itr n),
       st')
    /\ bindings itr <> [].
Proof.
  destruct (get_iter_replaces_the_top
              cv0 get_attribute_generic0 call0 error_gt0 cls0 value_eqb0
              name_of0 visible0 HasCombination0
              (mkFrameState 0 [to_variable g 0] [] None None)
              get_iter_op st0 call0_returns_or_fails) as [_ Hiter].
  apply Hiter. discriminate.
Defined.

Lemma unary_operator_replaces_the_top_witness :
  exists result n st',
    unary_operator cv0 get_attribute_generic0 call0 error_gt0 cls0 value_eqb0
                   name_of0 visible0 HasCombination0
                   (mkFrameState 0 [to_variable a 0] [] None None)
                   "__neg__" st0
    = (Ok (with_top (mkFrameState 0 [to_variable a 0] [] None None)
                    result n),
       st')
    /\ bindings result <> [].
Proof.
  destruct (unary_operator_replaces_the_top
              cv0 get_attribute_generic0 call0 error_gt0 cls0 value_eqb0
              name_of0 visible0 HasCombination0
              (mkFrameState 0 [to_variable a 0] [] None None)
              "__neg__" st0 call0_returns_or_fails) as [_ Hneg].
  apply Hneg. discriminate.
Defined.

(** [a, *b, c = (x0, x1, x2, x3)] *)
Definition four : list variable :=
  [to_variable a 0; to_variable b 0; to_variable g 0; to_variable a 1].

Lemma restructure_tuple_keeps_the_elements_witness :
  exists middle after l st',
    _restructure_tuple 0 four 1 1%Z st0
    = (Ok ([to_variable a 0] ++ [l] ++ after), st')
    /\ bindings l = [Binding (Obj 300 (List middle)) [] 0]
    /\ [to_variable a 0] ++ middle ++ after = four
    /\ length after = 1
    /\ length ([to_variable a 0] ++ [l] ++ after) = 3.
Proof.
  apply (restructure_tuple_keeps_the_elements 0 four 1 1%Z st0).
  - lia.
  - simpl. lia.
Defined.

(** [x, y, z = g], [x, *y, z = g] *)
Definition unpack_3 : opcode :=
  mkOpcode 0 "UNPACK_SEQUENCE" 3 None (Some 1) Datatypes.true.
Definition unpack_1_1 : opcode :=
  mkOpcode 0 "UNPACK_EX" 257 None (Some 1) Datatypes.true.

Lemma unpack_sequence_pushes_one_value_per_target_witness :
  exists values s' st',
    byte_UNPACK_SEQUENCE cv0 get_attribute_generic0 call0 error_gt0 cls0
                         value_eqb0 name_of0 visible0 HasCombination0
                         tuple_subclass_literal0 s_g unpack_3 st0
    = (Ok s', st')
    /\ data_stack s' = values ++ []
    /\ length values = 3
    /\ Forall (fun value => bindings value <> []) values
    /\ block_stack s' = [].
Proof.
  apply (unpack_sequence_pushes_one_value_per_target
           cv0 get_attribute_generic0 call0 error_gt0 cls0 value_eqb0
           name_of0 visible0 HasCombination0 tuple_subclass_literal0
           s_g unpack_3 (to_variable g 0) [] st0).
  - exact call0_returns_or_fails.
  - reflexivity.
  - discriminate.
Defined.

Lemma unpack_ex_decodes_its_argument_witness :
  exists values s' st',
    byte_UNPACK_EX cv0 get_attribute_generic0 call0 error_gt0 cls0
                   value_eqb0 name_of0 visible0 HasCombination0
                   tuple_subclass_literal0 s_g unpack_1_1 st0
    = (Ok s', st')
    /\ data_stack s' = values ++ []
    /\ length values = 1 + 1 + 1
    /\ Forall (fun value => bindings value <> []) values.
Proof.
  apply (unpack_ex_decodes_its_argument
           cv0 get_attribute_generic0 call0 error_gt0 cls0 value_eqb0
           name_of0 visible0 HasCombination0 tuple_subclass_literal0
           s_g unpack_1_1 1 1 (to_variable g 0) [] st0).
  - exact call0_returns_or_fails.
  - reflexivity.
  - lia.
  - reflexivity.
  - discriminate.
Defined.

(** [raise exctype, val, tb] with the three operands on the stack. *)
Definition raise_3 : opcode :=
  mkOpcode 0 "RAISE_VARARGS" 3 None (Some 1) Datatypes.false.
Definition s_3 : FrameState :=
  mkFrameState 0 [to_variable a 0; to_variable b 0; to_variable g 0] [] None
               None.

Definition step (op : opcode) (s : FrameState) (frame : Frame) :=
  run_instruction 2 init_class0 byte_RAISE_VARARGS_PY3_0 byte_other0 op s
                  frame.

Lemma run_instruction_never_leaves_reraise_witness :
  exists s',
    step raise_3 s_3 raise_frame st0 = (Ok (s', raise_frame), st0)
    /\ why s' <> Some "reraise".
Proof.
  eexists. split; [vm_compute; reflexivity |].
  eapply (run_instruction_never_leaves_reraise
            2 init_class0 byte_RAISE_VARARGS_PY3_0 byte_other0
            raise_3 s_3 raise_frame st0).
  vm_compute. reflexivity.
Defined.

Lemma raise_varargs_ends_the_block_witness :
  exists s',
    step raise_3 s_3 raise_frame st0 = (Ok (s', raise_frame), st0)
    /\ why s' = Some "exception"
    /\ exception s' <> None
    /\ data_stack s' = []
    /\ node s' = 0
    /\ block_stack s' = [].
Proof.
  destruct (raise_varargs_ends_the_block
              2 init_class0 byte_RAISE_VARARGS_PY3_0 byte_other0
              raise_3 s_3 raise_frame st0 eq_refl eq_refl) as [Hraise _].
  apply Hraise. vm_compute. lia.
Defined.

(** [return a] *)
Definition return_op : opcode :=
  mkOpcode 2 "RETURN_VALUE" 0 None None Datatypes.false.
Definition s_a : FrameState :=
  mkFrameState 0 [to_variable a 0] [] None None.

Lemma return_value_fills_the_return_variable_witness :
  exists s' frame',
    step return_op s_a raise_frame st0 = (Ok (s', frame'), st0)
    /\ why s' = Some "return"
    /\ data_stack s' = []
    /\ bindings (return_variable frame') <> []
    /\ states frame' = states raise_frame
    /\ order frame' = order raise_frame.
Proof.
  apply (return_value_fills_the_return_variable
           2 init_class0 byte_RAISE_VARARGS_PY3_0 byte_other0
           return_op s_a raise_frame st0 (to_variable a 0) []).
  - reflexivity.
  - reflexivity.
  - reflexivity.
  - discriminate.
Defined.

(** Inside a loop, inside a [try]: two values below the loop, one in the
    loop, one in the [try]. *)
Definition s_loop : FrameState :=
  mkFrameState 0
    [to_variable g 0; to_variable b 0; to_variable a 0; to_variable a 1]
    [mkBlock "finally" 7 (Some 20) 3; mkBlock "loop" 2 (Some 30) 2]
    None None.

Lemma revert_state_to_the_nearest_block_witness :
  exists stack,
    _revert_state_to s_loop "loop" st0
    = (Ok (mkFrameState 0 stack [mkBlock "loop" 2 (Some 30) 2] None None),
       st0)
    /\ stack `suffix_of` data_stack s_loop
    /\ Forall (fun b => length stack <= level b)
              [mkBlock "finally" 7 (Some 20) 3].
Proof.
  destruct (revert_state_to_the_nearest_block s_loop "loop" st0)
    as [Hrevert _].
  destruct (Hrevert [mkBlock "finally" 7 (Some 20) 3]
                    (mkBlock "loop" 2 (Some 30) 2) [])
    as (stack & Hrun & Hsuffix & Hlevels & _).
  - reflexivity.
  - repeat constructor. discriminate.
  - reflexivity.
  - exists stack. by split.
Defined.

(** Two instances of [A]. *)
Definition xa' : binding := Binding (Obj 213 (Instance class_A [])) [] 0.

Lemma same_class_forward_first_witness :
  binop_options cls0 mro0 is_lazy0 members0 load_lazy_attribute0 value_eqb0
                visible0 0 "__add__" xa xa'
  = [(xa, xa', "__add__"); (xa', xa, "__radd__")].
Proof.
  apply (same_class_forward_first
           cls0 mro0 is_lazy0 members0 load_lazy_attribute0 value_eqb0
           visible0 0 "__add__" "__radd__" xa xa' class_A
           (to_variable class_A 0) (to_variable class_A 0)).
  - reflexivity.
  - reflexivity.
  - reflexivity.
  - reflexivity.
  - reflexivity.
  - by eexists.
  - reflexivity.
Defined.

Lemma no_reflected_form_one_lookup_witness :
  exists evs,
    trace (snd (binop "__getitem__" wildcard yb st0)) = trace st0 ++ evs
    /\ lookups evs = [(wildcard, "__getitem__")].
Proof.
  apply (no_reflected_form_one_lookup
           cv0 get_attribute_generic0 call0 error_gt0 cls0 mro0 is_lazy0
           members0 load_lazy_attribute0 value_eqb0 name_of0 visible0
           0 "__getitem__" wildcard yb st0).
  reflexivity.
Defined.

(** [g + g]: the class [G] has neither [__add__] nor [__radd__]. *)
Definition xg : binding := Binding g [] 0.

Lemma unsupported_operands_give_no_variable_witness :
  exists node' evs,
    binop "__add__" xg xg st0 = (Ok (node', None), add_trace evs st0)
    /\ length (lookups evs) = 2
    /\ Forall (fun e => match e with
                        | GetAttribute _ _ _ _ => True
                        | Call _ _ _ => False
                        end) evs
    /\ errorlog (add_trace evs st0) = errorlog st0.
Proof.
  apply (unsupported_operands_give_no_variable
           cv0 get_attribute_generic0 call0 error_gt0 cls0 mro0 is_lazy0
           members0 load_lazy_attribute0 value_eqb0 name_of0 visible0
           0 "__add__" "__radd__" xg xg st0).
  - reflexivity.
  - reflexivity.
  - intros n. reflexivity.
  - intros n. reflexivity.
Defined.

End sample.

End vm.
